(** * filter-nav.js: a model of the filter navigation script

    The script [assets/js/filter-nav.js] is a set of DOM event handlers.
    This development embeds it shallowly:

    - JavaScript strings are Rocq strings, read as ASCII text (code units
      above 127 are carried along unchanged and are neither letters nor
      white space);
    - the DOM is a store of elements addressed by handles (indices); the
      attributes and the inline style of an element are finite maps;
    - the script's functions are state transformers on the store, or on the
      whole page state when they use timers, focus or the scroll position;
    - the browser's event loop is a step function over page events with a
      virtual clock in milliseconds. *)

From Stdlib Require Import Ascii QArith DecimalString DecimalNat.
From stdpp Require Import base strings list gmap.

Local Open Scope nat_scope.

(** ** JavaScript string operations used by the script *)

Module JsString.

Definition isUpper (c : ascii) : bool :=
  (65 <=? nat_of_ascii c) && (nat_of_ascii c <=? 90).

Definition lowerChar (c : ascii) : ascii :=
  if isUpper c then ascii_of_nat (nat_of_ascii c + 32) else c.

(** [String.prototype.toLowerCase] on ASCII text: the letters [A] to [Z]
    are lowered, every other character is kept.  (Cased letters outside
    ASCII are not lowered here; statements that depend on the lowering
    assume ASCII text, see [isAscii].) *)
Fixpoint toLowerCase (s : string) : string :=
  match s with
  | EmptyString => EmptyString
  | String c s' => String (lowerChar c) (toLowerCase s')
  end.

(** White space and line terminators of [String.prototype.trim] among the
    ASCII characters: TAB, LF, VT, FF, CR and SPACE.  (The white space
    outside ASCII, such as the no-break space, is not stripped here;
    statements that depend on the trimming assume ASCII text, see
    [isAscii].) *)
Definition isSpace (c : ascii) : bool :=
  let n := nat_of_ascii c in
  ((9 <=? n) && (n <=? 13)) || (n =? 32).

Fixpoint trimStart (s : string) : string :=
  match s with
  | EmptyString => EmptyString
  | String c s' => if isSpace c then trimStart s' else s
  end.

Fixpoint trimEnd (s : string) : string :=
  match s with
  | EmptyString => EmptyString
  | String c s' =>
      match trimEnd s' with
      | EmptyString => if isSpace c then EmptyString else String c EmptyString
      | t => String c t
      end
  end.

(** [String.prototype.trim] *)
Definition trim (s : string) : string := trimEnd (trimStart s).

Fixpoint startsWith (s p : string) {struct p} : bool :=
  match p, s with
  | EmptyString, _ => true
  | String a p', String b s' => bool_decide (a = b) && startsWith s' p'
  | String _ _, EmptyString => false
  end.

(** [s.includes(t)]: [t] occurs in [s] as a contiguous substring. *)
Fixpoint includes (s t : string) : bool :=
  startsWith s t ||
  match s with
  | EmptyString => false
  | String _ s' => includes s' t
  end.

(** [s.replace(/^[^/]*/, '')]: the regular expression always matches at
    position 0, greedily, the longest prefix without a slash; the match is
    replaced by the empty string. *)
Fixpoint stripLeadingNonSlash (s : string) : string :=
  match s with
  | EmptyString => EmptyString
  | String c s' =>
      if bool_decide (c = "/"%char) then s else stripLeadingNonSlash s'
  end.

(** [count + ' sources found']: a number is converted to its decimal
    representation. *)
Definition toString (n : nat) : string :=
  NilZero.string_of_uint (Nat.to_uint n).

(** JavaScript truthiness of a string-or-null: [null] and the empty string
    are falsy. *)
Definition truthy (o : option string) : bool :=
  match o with
  | Some (String _ _) => true
  | _ => false
  end.

(** The double quote and the apostrophe, by character code. *)
Definition dquote : ascii := "034"%char.
Definition squote : ascii := "039"%char.

End JsString.

Import JsString.

(** ** The DOM store

    The store lists the elements of the markup in document order; an
    element the script creates enters at the end.  The script looks up the
    elements it creates (the message, the live region) only by a selector
    that matched nothing before it created them, so where a created element
    stands among the others makes no difference to any lookup. *)

Module Dom.

(** An element of the page.  [textContent] is a field of the element:
    the elements whose text the script reads or writes (source buttons, the
    toggle label, the live region) are taken to contain none of the elements
    the script looks up.  [innerHTML] records the markup the script assigns
    to the elements it creates; the markup is not parsed.  [parentNode] is
    the handle of the parent element, [None] for a child of the body. *)
Record element := Element {
  classList : list string;
  attributes : gmap string string;
  style : gmap string string;
  textContent : string;
  innerHTML : string;
  value : string;
  parentNode : option nat
}.

(** [document.createElement]: a fresh element, not yet inserted. *)
Definition createElement : element :=
  Element [] ∅ ∅ "" "" "" None.

(** *** Element-level updates *)

Definition withAttribute (k v : string) (e : element) : element :=
  Element (classList e) (<[k := v]> (attributes e)) (style e)
          (textContent e) (innerHTML e) (value e) (parentNode e).

Definition withoutAttribute (k : string) (e : element) : element :=
  Element (classList e) (delete k (attributes e)) (style e)
          (textContent e) (innerHTML e) (value e) (parentNode e).

Definition withStyle (k v : string) (e : element) : element :=
  Element (classList e) (attributes e) (<[k := v]> (style e))
          (textContent e) (innerHTML e) (value e) (parentNode e).

(** [classList.add] adds a token only when it is not there yet. *)
Definition withClass (c : string) (e : element) : element :=
  Element (if bool_decide (c ∈ classList e) then classList e
           else classList e ++ [c])
          (attributes e) (style e)
          (textContent e) (innerHTML e) (value e) (parentNode e).

Definition withoutClass (c : string) (e : element) : element :=
  Element (filter (λ x, x ≠ c) (classList e)) (attributes e) (style e)
          (textContent e) (innerHTML e) (value e) (parentNode e).

(** [el.className = 'a b c'], given as the list of tokens. *)
Definition withClassName (cs : list string) (e : element) : element :=
  Element cs (attributes e) (style e)
          (textContent e) (innerHTML e) (value e) (parentNode e).

Definition withTextContent (s : string) (e : element) : element :=
  Element (classList e) (attributes e) (style e)
          s (innerHTML e) (value e) (parentNode e).

Definition withInnerHTML (s : string) (e : element) : element :=
  Element (classList e) (attributes e) (style e)
          (textContent e) s (value e) (parentNode e).

Definition withValue (s : string) (e : element) : element :=
  Element (classList e) (attributes e) (style e)
          (textContent e) (innerHTML e) s (parentNode e).

Definition withParent (p : option nat) (e : element) : element :=
  Element (classList e) (attributes e) (style e)
          (textContent e) (innerHTML e) (value e) p.

(** *** The store: reads and writes through a handle *)

Definition hasId (x : string) (e : element) : Prop :=
  attributes e !! "id" = Some x.

Definition hasClass (c : string) (e : element) : Prop :=
  c ∈ classList e.

#[global] Instance hasId_dec x e : Decision (hasId x e).
Proof. unfold hasId. apply _. Defined.

#[global] Instance hasClass_dec c e : Decision (hasClass c e).
Proof. unfold hasClass. apply _. Defined.

(** [document.getElementById(x)]: the first element, in store order, whose
    id is [x]. *)
Definition getElementById (d : list element) (x : string) : option nat :=
  fst <$> list_find (hasId x) d.

(** [document.querySelector('.c')]: the first element of class [c]. *)
Definition querySelector (d : list element) (c : string) : option nat :=
  fst <$> list_find (hasClass c) d.

Definition hasClassAt (d : list element) (c : string) (h : nat) : bool :=
  match d !! h with
  | Some e => bool_decide (hasClass c e)
  | None => false
  end.

(** [document.querySelectorAll('.c')]: the handles of all elements of class
    [c], in store order. *)
Definition querySelectorAll (d : list element) (c : string) : list nat :=
  filter (λ h, hasClassAt d c h) (seq 0 (length d)).

(** [h] is a proper descendant of [anc]: the parent chain of [h] reaches
    [anc].  The chain is followed for at most [fuel] links. *)
Fixpoint isDescendant (fuel : nat) (d : list element) (anc h : nat) : bool :=
  match fuel with
  | 0 => false
  | S n =>
      match d !! h ≫= parentNode with
      | Some p => bool_decide (p = anc) || isDescendant n d anc p
      | None => false
      end
  end.

Definition contains (d : list element) (anc h : nat) : bool :=
  isDescendant (length d) d anc h.

(** Neither [h] nor an ancestor of [h] has the inline style
    [display: none].  An element under such a style is not rendered.  The
    chain of parents is followed for at most [fuel] links. *)
Fixpoint isRendered (fuel : nat) (d : list element) (h : nat) : bool :=
  match fuel with
  | 0 => true
  | S n =>
      match d !! h with
      | Some e =>
          negb (bool_decide (style e !! "display" = Some "none"))
          && match parentNode e with
             | Some p => isRendered n d p
             | None => true
             end
      | None => false
      end
  end.

(** The element is in the store and no inline style of the page keeps it
    from being rendered. *)
Definition rendered (d : list element) (h : nat) : bool :=
  isRendered (length d) d h.

(** [anc.querySelectorAll('.c')] and [anc.querySelector('.c')]: the
    elements of class [c] below [anc]. *)
Definition querySelectorAllIn (d : list element) (anc : nat) (c : string)
  : list nat :=
  filter (λ h, contains d anc h) (querySelectorAll d c).

Definition querySelectorIn (d : list element) (anc : nat) (c : string)
  : option nat :=
  head (querySelectorAllIn d anc c).

Definition getAttribute (d : list element) (h : nat) (k : string)
  : option string :=
  d !! h ≫= λ e, attributes e !! k.

Definition getStyle (d : list element) (h : nat) (k : string)
  : option string :=
  d !! h ≫= λ e, style e !! k.

Definition getTextContent (d : list element) (h : nat) : string :=
  from_option textContent "" (d !! h).

Definition getValue (d : list element) (h : nat) : string :=
  from_option value "" (d !! h).

Definition classListContains (d : list element) (h : nat) (c : string) : bool :=
  hasClassAt d c h.

Definition setAttribute (h : nat) (k v : string) (d : list element) :=
  alter (withAttribute k v) h d.

Definition removeAttribute (h : nat) (k : string) (d : list element) :=
  alter (withoutAttribute k) h d.

Definition setStyle (h : nat) (k v : string) (d : list element) :=
  alter (withStyle k v) h d.

Definition classListAdd (h : nat) (c : string) (d : list element) :=
  alter (withClass c) h d.

Definition classListRemove (h : nat) (c : string) (d : list element) :=
  alter (withoutClass c) h d.

(** [el.textContent = s] for an element without child elements: its text
    is replaced.  (The assignment also removes every child of the element;
    the statements about the toggle assume that the label has none, see
    [isLeaf] below, and the live region the script creates has none.) *)
Definition setTextContent (h : nat) (s : string) (d : list element) :=
  alter (withTextContent s) h d.

Definition setValue (h : nat) (s : string) (d : list element) :=
  alter (withValue s) h d.

(** [parent.appendChild(e)] for a freshly created element [e]: the element
    enters the store at a fresh handle, which is returned.  [parent = None]
    is [document.body.appendChild]. *)
Definition appendChild (parent : option nat) (e : element) (d : list element)
  : list element * nat :=
  (d ++ [withParent parent e], length d).

End Dom.

Import Dom.

(** ** The script, on the DOM store

    The functions below follow [filter-nav.js] statement by statement.
    Functions that only touch the DOM are transformers of the store. *)

(** [initializeFilterNav] *)
Definition initializeFilterNav (d : list element) : list element :=
  match getElementById d "sources-content", querySelector d "toggle-sources" with
  | Some sourcesContent, Some toggleButton =>
      let d := setAttribute toggleButton "aria-expanded" "false" d in
      let d := setAttribute sourcesContent "aria-hidden" "true" d in
      d
  | _, _ => d
  end.

Definition escapeChar (c : ascii) : string :=
  if bool_decide (c = "&"%char) then "&amp;"
  else if bool_decide (c = "<"%char) then "&lt;"
  else if bool_decide (c = ">"%char) then "&gt;"
  else if bool_decide (c = dquote) then "&quot;"
  else if bool_decide (c = squote) then "&#039;"
  else String c EmptyString.

(** [escapeHtml]: every ampersand, angle bracket, double quote and
    apostrophe of the text is replaced by its entry in the map. *)
Fixpoint escapeHtml (text : string) : string :=
  match text with
  | EmptyString => EmptyString
  | String c s => escapeChar c +:+ escapeHtml s
  end.

Definition announcementFor (count : nat) (searchTerm : string) : string :=
  if bool_decide (searchTerm = "") then "All sources displayed"
  else if count =? 0 then "No sources found"
  else if count =? 1 then "1 source found"
  else toString count +:+ " sources found".

(** The live region as [announceSearchResults] sets it up before inserting
    it. *)
Definition newLiveRegion : element :=
  withStyle "overflow" "hidden"
    (withStyle "height" "1px"
      (withStyle "width" "1px"
        (withStyle "left" "-10000px"
          (withStyle "position" "absolute"
            (withAttribute "aria-atomic" "true"
              (withAttribute "aria-live" "polite"
                (withAttribute "id" "search-results-live" createElement))))))).

(** [announceSearchResults] *)
Definition announceSearchResults (count : nat) (searchTerm : string)
    (d : list element) : list element :=
  let announcement := announcementFor count searchTerm in
  let '(d, liveRegion) :=
    match getElementById d "search-results-live" with
    | Some liveRegion => (d, liveRegion)
    | None => appendChild None newLiveRegion d
    end in
  setTextContent liveRegion announcement d.

(** The markup of the message: the search icon, the words
    [No sources found matching] and the escaped term between double
    quotes. *)
Definition noResultsHTML (searchTerm : string) : string :=
  "<i class=" +:+ String dquote "fas fa-search" +:+ String dquote "></i>"
  +:+ " No sources found matching " +:+ String dquote (escapeHtml searchTerm)
  +:+ String dquote EmptyString.

Definition newNoResultsMsg (searchTerm : string) : element :=
  withInnerHTML (noResultsHTML searchTerm)
    (withClassName ["no-results"; "text-center"; "text-muted"; "py-3"]
       createElement).

(** Does the search term match a source button?  (The value [isVisible] of
    the loop body.) *)
Definition isVisible (d : list element) (button : nat) (searchTerm : string)
  : bool :=
  let buttonText := toLowerCase (getTextContent d button) in
  let dataSource := default "" (getAttribute d button "data-source") in
  includes buttonText searchTerm
  || includes (toLowerCase dataSource) searchTerm.

(** The body of [sourceButtons.forEach] in [filterSources]; the state is
    the store and [visibleCount]. *)
Definition filterButton (searchTerm : string)
    (st : list element * nat) (button : nat) : list element * nat :=
  let '(d, visibleCount) := st in
  if isVisible d button searchTerm then
    let d := setStyle button "display" "flex" d in
    let d := removeAttribute button "aria-hidden" d in
    (d, S visibleCount)
  else
    let d := setStyle button "display" "none" d in
    let d := setAttribute button "aria-hidden" "true" d in
    (d, visibleCount).

(** The filter pass: the function [filterSources] as declared, which the
    script keeps as [originalFilterSources]. *)
Definition originalFilterSources (d : list element) : list element :=
  match getElementById d "source-search", querySelector d "all-sources" with
  | Some searchInput, Some allSources =>
      let searchTerm := trim (toLowerCase (getValue d searchInput)) in
      let sourceButtons := querySelectorAllIn d allSources "source-btn" in
      let '(d, visibleCount) :=
        foldl (filterButton searchTerm) (d, 0) sourceButtons in
      let noResultsMsg := querySelectorIn d allSources "no-results" in
      let d :=
        if (visibleCount =? 0) && negb (bool_decide (searchTerm = "")) then
          let '(d, noResultsMsg) :=
            match noResultsMsg with
            | Some m => (d, m)
            | None => appendChild (Some allSources) (newNoResultsMsg searchTerm) d
            end in
          setStyle noResultsMsg "display" "block" d
        else
          match noResultsMsg with
          | Some m => setStyle m "display" "none" d
          | None => d
          end in
      announceSearchResults visibleCount searchTerm d
  | _, _ => d
  end.

(** The body of the two [forEach] loops of [initializeActiveFilters]. *)
Definition markIfCurrent (currentPath : string) (d : list element) (btn : nat)
  : list element :=
  let href := getAttribute d btn "href" in
  if truthy href
     && includes currentPath (stripLeadingNonSlash (default "" href))
  then
    let d := classListAdd btn "active" d in
    let d := setAttribute btn "aria-current" "page" d in
    d
  else d.

(** [initializeActiveFilters], given [window.location.pathname]. *)
Definition initializeActiveFilters (currentPath : string) (d : list element)
  : list element :=
  let categoryBtns := querySelectorAll d "category-btn" in
  let d := foldl (markIfCurrent currentPath) d categoryBtns in
  let sourceBtns := querySelectorAll d "source-btn" in
  let d := foldl (markIfCurrent currentPath) d sourceBtns in
  d.

(** The button [initializeBackToTop] creates. *)
Definition newBackToTop : element :=
  withAttribute "title" "Back to top"
    (withAttribute "aria-label" "Back to top"
      (withInnerHTML
         ("<i class=" +:+ String dquote "fas fa-chevron-up" +:+ String dquote
          " aria-hidden=" +:+ String dquote "true" +:+ String dquote "></i>")
         (withClassName ["back-to-top"] createElement))).

(** ** The page state

    Timers, focus, the scroll position and the script's own variables. *)

(** The callbacks the script passes to [setTimeout]. *)
Inductive callback :=
  | FocusSearch (searchInput : nat)   (* [() => searchInput.focus()] *)
  | FilterPass.                       (* [originalFilterSources] *)

#[global] Instance callback_eq_dec : EqDecision callback.
Proof. solve_decision. Defined.

Record timer := Timer {
  timerId : nat;
  due : nat;
  handler : callback
}.

(** The closure of the scroll listener registered by [initializeBackToTop]:
    its captured button and its variable [ticking]. *)
Record scrollClosure := ScrollClosure {
  backToTop : nat;
  ticking : bool
}.

(** The state of the page.  [now] is a virtual clock in milliseconds;
    [timers] are the pending timeouts in the order they were set;
    [animationFrames] are the pending [requestAnimationFrame] callbacks,
    each the index of the scroll listener that requested it;
    [searchTimeout] is the script's global variable of that name;
    [history] is not part of the page: it logs the timer callbacks the event
    loop has run, with the time each ran at, oldest first. *)
Record page := Page {
  document : list element;
  activeElement : option nat;
  pathname : string;
  pageYOffset : Q;
  now : nat;
  timers : list timer;
  nextTimerId : nat;
  searchTimeout : option nat;
  scrollListeners : list scrollClosure;
  animationFrames : list nat;
  history : list (nat * callback)
}.

Definition setDocument (d : list element) (p : page) : page :=
  Page d (activeElement p) (pathname p) (pageYOffset p) (now p) (timers p)
       (nextTimerId p) (searchTimeout p) (scrollListeners p)
       (animationFrames p) (history p).

Definition setActiveElement (a : option nat) (p : page) : page :=
  Page (document p) a (pathname p) (pageYOffset p) (now p) (timers p)
       (nextTimerId p) (searchTimeout p) (scrollListeners p)
       (animationFrames p) (history p).

Definition setPageYOffset (y : Q) (p : page) : page :=
  Page (document p) (activeElement p) (pathname p) y (now p) (timers p)
       (nextTimerId p) (searchTimeout p) (scrollListeners p)
       (animationFrames p) (history p).

Definition setNow (t : nat) (p : page) : page :=
  Page (document p) (activeElement p) (pathname p) (pageYOffset p) t (timers p)
       (nextTimerId p) (searchTimeout p) (scrollListeners p)
       (animationFrames p) (history p).

Definition setTimers (ts : list timer) (p : page) : page :=
  Page (document p) (activeElement p) (pathname p) (pageYOffset p) (now p) ts
       (nextTimerId p) (searchTimeout p) (scrollListeners p)
       (animationFrames p) (history p).

Definition setNextTimerId (n : nat) (p : page) : page :=
  Page (document p) (activeElement p) (pathname p) (pageYOffset p) (now p)
       (timers p) n (searchTimeout p) (scrollListeners p)
       (animationFrames p) (history p).

Definition setSearchTimeout (o : option nat) (p : page) : page :=
  Page (document p) (activeElement p) (pathname p) (pageYOffset p) (now p)
       (timers p) (nextTimerId p) o (scrollListeners p)
       (animationFrames p) (history p).

Definition setScrollListeners (l : list scrollClosure) (p : page) : page :=
  Page (document p) (activeElement p) (pathname p) (pageYOffset p) (now p)
       (timers p) (nextTimerId p) (searchTimeout p) l
       (animationFrames p) (history p).

Definition setAnimationFrames (l : list nat) (p : page) : page :=
  Page (document p) (activeElement p) (pathname p) (pageYOffset p) (now p)
       (timers p) (nextTimerId p) (searchTimeout p) (scrollListeners p)
       l (history p).

Definition setHistory (l : list (nat * callback)) (p : page) : page :=
  Page (document p) (activeElement p) (pathname p) (pageYOffset p) (now p)
       (timers p) (nextTimerId p) (searchTimeout p) (scrollListeners p)
       (animationFrames p) l.

(** [setTimeout(cb, delay)]: the timer is due [delay] ms from now; its
    fresh id is returned. *)
Definition setTimeout (cb : callback) (delay : nat) (p : page) : page * nat :=
  let id := nextTimerId p in
  (setNextTimerId (S id)
     (setTimers (timers p ++ [Timer id (now p + delay) cb]) p), id).

(** [clearTimeout(id)]: a pending timer of that id is dropped; [undefined]
    and ids of timers that have run are ignored. *)
Definition clearTimeout (id : option nat) (p : page) : page :=
  match id with
  | Some i => setTimers (filter (λ t, timerId t ≠ i) (timers p)) p
  | None => p
  end.

(** ** The script, on the page state *)

(** [toggleSourcesSection].  The debug line written to the console is not
    part of the page state and is left out. *)
Definition toggleSourcesSection (p : page) : page :=
  let d := document p in
  match getElementById d "sources-content", querySelector d "toggle-sources",
        querySelector d "toggle-text", querySelector d "toggle-icon" with
  | Some sourcesContent, Some toggleButton, Some toggleText, Some toggleIcon =>
      let isExpanded :=
        bool_decide (getAttribute d toggleButton "aria-expanded" = Some "true") in
      if isExpanded then
        (* Collapse *)
        let d := setStyle sourcesContent "display" "none" d in
        let d := classListRemove sourcesContent "show" d in
        let d := setAttribute toggleButton "aria-expanded" "false" d in
        let d := setAttribute sourcesContent "aria-hidden" "true" d in
        let d := setTextContent toggleText "Show All Sources" d in
        setDocument d p
      else
        (* Expand *)
        let d := setStyle sourcesContent "display" "block" d in
        let d := classListAdd sourcesContent "show" d in
        let d := setAttribute toggleButton "aria-expanded" "true" d in
        let d := setAttribute sourcesContent "aria-hidden" "false" d in
        let d := setTextContent toggleText "Hide All Sources" d in
        let p := setDocument d p in
        (* Focus the search input when expanding *)
        match getElementById d "source-search" with
        | Some searchInput => fst (setTimeout (FocusSearch searchInput) 300 p)
        | None => p
        end
  | _, _, _, _ => p
  end.

(** [filterSources] after the reassignment at the end of the script: the
    debouncing wrapper.  Every caller (the host markup through
    [window.filterSources], the key handler) reaches this one. *)
Definition filterSources (p : page) : page :=
  let p := clearTimeout (searchTimeout p) p in
  let '(p, id) := setTimeout FilterPass 150 p in
  setSearchTimeout (Some id) p.

(** [scrolled > 300] *)
Definition Qgtb (x y : Q) : bool :=
  match Qcompare x y with
  | Gt => true
  | _ => false
  end.

(** [initializeBackToTop]: the button is created and appended to the body,
    and a scroll listener is registered that captures the button and a
    fresh variable [ticking].  (The click handler of the button,
    [scrollToTop], asks the browser for a smooth scroll and touches no
    state of the script; it is not modelled.) *)
Definition initializeBackToTop (p : page) : page :=
  let '(d, backToTop) := appendChild None newBackToTop (document p) in
  let p := setDocument d p in
  setScrollListeners (scrollListeners p ++ [ScrollClosure backToTop false]) p.

(** The scroll listener, for the closure at index [i]. *)
Definition onScroll (i : nat) (p : page) : page :=
  match scrollListeners p !! i with
  | Some c =>
      if ticking c then p
      else
        (* requestAnimationFrame(...) *)
        let p := setAnimationFrames (animationFrames p ++ [i]) p in
        (* ticking = true *)
        setScrollListeners
          (<[i := ScrollClosure (backToTop c) true]> (scrollListeners p)) p
  | None => p
  end.

(** The callback the scroll listener hands to [requestAnimationFrame]. *)
Definition backToTopFrame (i : nat) (p : page) : page :=
  match scrollListeners p !! i with
  | Some c =>
      let scrolled := pageYOffset p in
      let d :=
        if Qgtb scrolled (inject_Z 300)
        then classListAdd (backToTop c) "show" (document p)
        else classListRemove (backToTop c) "show" (document p) in
      let p := setDocument d p in
      (* ticking = false *)
      setScrollListeners
        (<[i := ScrollClosure (backToTop c) false]> (scrollListeners p)) p
  | None => p
  end.

(** The [keydown] listener; [target] is the handle of [e.target].
    [e.preventDefault()] has no effect on the state modelled here. *)
Definition onKeydown (key : string) (target : nat) (p : page) : page :=
  let p :=
    if (bool_decide (key = "Enter") || bool_decide (key = " "))
       && classListContains (document p) target "toggle-sources"
    then toggleSourcesSection p
    else p in
  if bool_decide (key = "Escape") then
    match getElementById (document p) "source-search" with
    | Some searchInput =>
        if bool_decide (activeElement p = Some searchInput) then
          let p := setDocument (setValue searchInput "" (document p)) p in
          filterSources p
        else p
    | None => p
    end
  else p.

(** The [DOMContentLoaded] listener. *)
Definition onDOMContentLoaded (p : page) : page :=
  let p := setDocument (initializeFilterNav (document p)) p in
  let p := initializeBackToTop p in
  let p := setDocument (initializeActiveFilters (pathname p) (document p)) p in
  p.

(** ** The event loop *)

(** Running a timer callback.  [focus()] on an element that is not
    rendered does nothing, and the script itself hides the search field when
    it collapses the panel: the field becomes the active element only if
    neither it nor an ancestor has the inline style [display: none].  (The
    other reasons a browser has to refuse the focus, a style sheet that
    hides the field, a disabled field, are outside the store; no statement
    below relies on the focus being granted.) *)
Definition runCallback (cb : callback) (p : page) : page :=
  let p := setHistory (history p ++ [(now p, cb)]) p in
  match cb with
  | FocusSearch searchInput =>
      if rendered (document p) searchInput
      then setActiveElement (Some searchInput) p
      else p
  | FilterPass => setDocument (originalFilterSources (document p)) p
  end.

(** One millisecond passes; the timers that are due run, in the order they
    were set.  (A browser may run a timer later than its due time, never
    earlier; here it runs on time.) *)
Definition tick (p : page) : page :=
  let t := S (now p) in
  let ready := filter (λ x, due x ≤ t) (timers p) in
  let waiting := filter (λ x, ¬ due x ≤ t) (timers p) in
  let p := setTimers waiting (setNow t p) in
  foldl (λ p x, runCallback (handler x) p) p ready.

Definition elapse (ms : nat) (p : page) : page := Nat.iter ms tick p.

(** The user edits the search field: the browser stores the new value. *)
Definition inputValue (v : string) (d : list element) : list element :=
  match getElementById d "source-search" with
  | Some searchInput => setValue searchInput v d
  | None => d
  end.

Definition input (v : string) (p : page) : page :=
  setDocument (inputValue v (document p)) p.

(** The browser scrolls to offset [y] and dispatches [scroll]. *)
Definition scroll (y : Q) (p : page) : page :=
  let p := setPageYOffset y p in
  foldl (λ p i, onScroll i p) p (seq 0 (length (scrollListeners p))).

(** The browser runs the pending animation frame callbacks. *)
Definition animationFrame (p : page) : page :=
  let requests := animationFrames p in
  foldl (λ p i, backToTopFrame i p) (setAnimationFrames [] p) requests.

(** What can happen to the page.  [CallToggle] and [CallFilter] are the
    host markup calling the two functions the script exports on [window]. *)
Inductive event :=
  | DOMContentLoaded
  | CallToggle
  | CallFilter
  | Input (v : string)
  | Keydown (key : string) (target : nat)
  | Scroll (y : Q)
  | AnimationFrame
  | Elapse (ms : nat).

Definition step (p : page) (ev : event) : page :=
  match ev with
  | DOMContentLoaded => onDOMContentLoaded p
  | CallToggle => toggleSourcesSection p
  | CallFilter => filterSources p
  | Input v => input v p
  | Keydown key target => onKeydown key target p
  | Scroll y => scroll y p
  | AnimationFrame => animationFrame p
  | Elapse ms => elapse ms p
  end.

Definition run (evs : list event) (p : page) : page := foldl step p evs.

(** A page as the browser hands it to the script: the markup [d] at path
    [path], nothing focused, not scrolled, no timer set. *)
Definition load (path : string) (d : list element) : page :=
  Page d None path (inject_Z 0) 0 [] 0 None [] [] [].

(** ** Observations used in the statements *)

(** [t] occurs in [s] as a contiguous substring. *)
Definition isSubstringOf (t s : string) : Prop :=
  ∃ pre post, s = pre +:+ t +:+ post.

(** Every character of [s] is white space. *)
Fixpoint allSpace (s : string) : bool :=
  match s with
  | EmptyString => true
  | String c s' => isSpace c && allSpace s'
  end.

(** Every character of [s] is an ASCII character (code below 128).  On
    such text [toLowerCase] and [trim] above are the functions of the
    platform: the only cased ASCII letters are [A] to [Z], and the only
    ASCII white space and line terminators are the six characters of
    [isSpace]. *)
Fixpoint isAscii (s : string) : bool :=
  match s with
  | EmptyString => true
  | String c s' => (nat_of_ascii c <? 128) && isAscii s'
  end.

(** No element of the store is a child of [h].  Assigning [textContent] to
    such an element replaces its text and removes nothing, which is what
    [setTextContent] does. *)
Definition isLeaf (d : list element) (h : nat) : bool :=
  forallb (λ e, negb (bool_decide (parentNode e = Some h))) d.

(** The label of the toggle, if the page has one, has no child element (in
    particular the icon is not inside the label). *)
Definition labelIsLeaf (d : list element) : bool :=
  from_option (isLeaf d) true (querySelector d "toggle-text").

(** The element's own inline style does not hide it. *)
Definition isDisplayed (d : list element) (h : nat) : bool :=
  bool_decide (getStyle d h "display" ≠ Some "none").

(** The element is marked hidden to assistive technology. *)
Definition isAriaHidden (d : list element) (h : nat) : bool :=
  bool_decide (getAttribute d h "aria-hidden" = Some "true").

(** The search term of a filter pass: the normalized value of the field. *)
Definition searchTermOf (d : list element) (searchInput : nat) : string :=
  trim (toLowerCase (getValue d searchInput)).

(** What [isVisible] computes, on the element itself. *)
Definition matchesItem (searchTerm : string) (e : element) : bool :=
  includes (toLowerCase (textContent e)) searchTerm
  || includes (toLowerCase (default "" (attributes e !! "data-source")))
       searchTerm.

(** What the loop body of [filterSources] does to one source button. *)
Definition filterItem (searchTerm : string) (e : element) : element :=
  if matchesItem searchTerm e
  then withoutAttribute "aria-hidden" (withStyle "display" "flex" e)
  else withAttribute "aria-hidden" "true" (withStyle "display" "none" e).

(** The number of source buttons among [hs] that match. *)
Definition countVisible (d : list element) (hs : list nat)
    (searchTerm : string) : nat :=
  length (filter (λ h, isVisible d h searchTerm) hs).

(** The second half of a filter pass: the message and the announcement,
    given the store [d] and the count the loop has produced. *)
Definition finishFilter (allSources : nat) (searchTerm : string)
    (d : list element) (visibleCount : nat) : list element :=
  let noResultsMsg := querySelectorIn d allSources "no-results" in
  let d :=
    if (visibleCount =? 0) && negb (bool_decide (searchTerm = "")) then
      let '(d, noResultsMsg) :=
        match noResultsMsg with
        | Some m => (d, m)
        | None => appendChild (Some allSources) (newNoResultsMsg searchTerm) d
        end in
      setStyle noResultsMsg "display" "block" d
    else
      match noResultsMsg with
      | Some m => setStyle m "display" "none" d
      | None => d
      end in
  announceSearchResults visibleCount searchTerm d.

(** What the loop body of [initializeActiveFilters] does to one link. *)
Definition markItem (currentPath : string) (e : element) : element :=
  let href := attributes e !! "href" in
  if truthy href
     && includes currentPath (stripLeadingNonSlash (default "" href))
  then withAttribute "aria-current" "page" (withClass "active" e)
  else e.

(** The link carries the class [active] and [aria-current] is [page]. *)
Definition isActive (d : list element) (h : nat) : bool :=
  classListContains d h "active"
  && bool_decide (getAttribute d h "aria-current" = Some "page").

(** The three observable parts of the panel state: [aria-expanded] of the
    toggle button, [aria-hidden] of the panel, and the text of the label. *)
Definition ariaExpanded (d : list element) : option string :=
  querySelector d "toggle-sources" ≫= λ b, getAttribute d b "aria-expanded".

Definition ariaHidden (d : list element) : option string :=
  getElementById d "sources-content" ≫= λ c, getAttribute d c "aria-hidden".

Definition toggleLabel (d : list element) : option string :=
  getTextContent d <$> querySelector d "toggle-text".

(** The elements [toggleSourcesSection] requires are all there. *)
Definition panelComplete (d : list element) : Prop :=
  is_Some (getElementById d "sources-content")
  ∧ is_Some (querySelector d "toggle-sources")
  ∧ is_Some (querySelector d "toggle-text")
  ∧ is_Some (querySelector d "toggle-icon").

(** The two states the toggle produces. *)
Definition isExpandedState (d : list element) : Prop :=
  ariaExpanded d = Some "true" ∧ ariaHidden d = Some "false"
  ∧ toggleLabel d = Some "Hide All Sources".

Definition isCollapsedState (d : list element) : Prop :=
  ariaExpanded d = Some "false" ∧ ariaHidden d = Some "true"
  ∧ toggleLabel d = Some "Show All Sources".

(** [aria-expanded] and [aria-hidden] are the negations of each other. *)
Definition panelInvariant (d : list element) : Prop :=
  (ariaExpanded d = Some "true" ∧ ariaHidden d = Some "false")
  ∨ (ariaExpanded d = Some "false" ∧ ariaHidden d = Some "true").

(** The store after the collapse branch and after the expand branch of
    [toggleSourcesSection]. *)
Definition collapsed (sourcesContent toggleButton toggleText : nat)
    (d : list element) : list element :=
  setTextContent toggleText "Show All Sources"
    (setAttribute sourcesContent "aria-hidden" "true"
      (setAttribute toggleButton "aria-expanded" "false"
        (classListRemove sourcesContent "show"
          (setStyle sourcesContent "display" "none" d)))).

Definition expanded (sourcesContent toggleButton toggleText : nat)
    (d : list element) : list element :=
  setTextContent toggleText "Hide All Sources"
    (setAttribute sourcesContent "aria-hidden" "false"
      (setAttribute toggleButton "aria-expanded" "true"
        (classListAdd sourcesContent "show"
          (setStyle sourcesContent "display" "block" d)))).

(** The text of the live region, if the page has one. *)
Definition liveText (d : list element) : option string :=
  getTextContent d <$> getElementById d "search-results-live".

(** The number of source buttons of the container that match the
    normalized value of the search field: the final [visibleCount] of a
    filter pass. *)
Definition matchCount (d : list element) (searchInput allSources : nat) : nat :=
  countVisible d (querySelectorAllIn d allSources "source-btn")
    (searchTermOf d searchInput).

(** The back-to-top button [b] is in its shown state. *)
Definition isShown (p : page) (b : nat) : bool :=
  classListContains (document p) b "show".

(** The page has the one scroll listener of [initializeBackToTop], with
    its button [b] in the store and no recomputation pending. *)
Definition scrollReady (b : nat) (p : page) : Prop :=
  scrollListeners p = [ScrollClosure b false]
  ∧ animationFrames p = []
  ∧ is_Some (document p !! b).

(** The pending timers that will run a filter pass. *)
Definition isFilterTimer (t : timer) : Prop := handler t = FilterPass.

#[global] Instance isFilterTimer_dec t : Decision (isFilterTimer t).
Proof. unfold isFilterTimer. apply _. Defined.

Definition filterTimers (p : page) : list timer :=
  filter isFilterTimer (timers p).

(** The times at which filter passes have run, oldest first. *)
Definition filterRuns (p : page) : list nat :=
  (filter (λ x, x.2 = FilterPass) (history p)).*1.

(** Every pending filter pass is the one [searchTimeout] names: the state
    of the timers whenever filter passes are only ever scheduled by the
    debouncing wrapper. *)
Definition tracked (p : page) : Prop :=
  ∀ t, t ∈ filterTimers p → searchTimeout p = Some (timerId t).

(** Exactly one filter pass is pending, due at [T], and [searchTimeout]
    names it. *)
Definition armed (T : nat) (p : page) : Prop :=
  ∃ n, filterTimers p = [Timer n T FilterPass] ∧ searchTimeout p = Some n.

(** A burst of invocations after a first one: each entry is the time since
    the previous invocation and the value the field has at the invocation
    (the user edits the field, and the host markup calls the filter). *)
Definition burstEvents (b : list (nat * string)) : list event :=
  b ≫= λ gv, [Elapse gv.1; Input gv.2; CallFilter].

Definition burstDuration (b : list (nat * string)) : nat := sum_list (b.*1).

Definition lastValue (v0 : string) (b : list (nat * string)) : string :=
  default v0 (last (b.*2)).

(** The page [p] is the page [p0] after an invocation of the debounced
    filter at time [t] with the value [v] in the search field: the pass of
    that invocation is pending, and no pass has run since [p0]. *)
Definition afterInvocation (p0 : page) (v : string) (t : nat) (p : page)
  : Prop :=
  now p = t
  ∧ armed (t + 150) p
  ∧ document p = inputValue v (document p0)
  ∧ filterRuns p = filterRuns p0.

(** Two stores have the same shape up to the classes [cs]: the same
    handles, and at each handle the same parent, the same id and the same
    classes other than those of [cs].  The script's updates of existing
    elements keep the shape; only [show] and [active] are ever added or
    removed. *)
Definition sameShapeAt (cs : list string) (e e' : element) : Prop :=
  parentNode e = parentNode e'
  ∧ attributes e !! "id" = attributes e' !! "id"
  ∧ ∀ c, c ∉ cs → (hasClass c e ↔ hasClass c e').

Definition sameShape (cs : list string) (d d' : list element) : Prop :=
  Forall2 (sameShapeAt cs) d d'.

Definition keepsShape (cs : list string) (f : element → element) : Prop :=
  ∀ e, sameShapeAt cs e (f e).

(** ** Further observations *)

(** The character [c] occurs in [s]. *)
Fixpoint hasChar (c : ascii) (s : string) : bool :=
  match s with
  | EmptyString => false
  | String a s' => bool_decide (a = c) || hasChar c s'
  end.

(** The characters [escapeHtml] replaces. *)
Definition isHtmlSpecial (c : ascii) : bool :=
  bool_decide (c = "&"%char) || bool_decide (c = "<"%char)
  || bool_decide (c = ">"%char) || bool_decide (c = dquote)
  || bool_decide (c = squote).

(** No character of [s] is one that [escapeHtml] replaces. *)
Fixpoint isPlainText (s : string) : bool :=
  match s with
  | EmptyString => true
  | String a s' => negb (isHtmlSpecial a) && isPlainText s'
  end.

(** The five entities [escapeHtml] writes, without their ampersand. *)
Definition entityBodies : list string :=
  ["amp;"; "lt;"; "gt;"; "quot;"; "#039;"].

(** The scroll listener of [initializeBackToTop] has asked for an animation
    frame and is waiting for it: [ticking] is set and one callback is
    pending. *)
Definition scrollArmed (b : nat) (p : page) : Prop :=
  scrollListeners p = [ScrollClosure b true]
  ∧ animationFrames p = [0]
  ∧ is_Some (document p !! b).

(** The page [p'] has the scroll listeners and the pending animation frames
    of [p], and its store has lost no element. *)
Definition sameScroll (p p' : page) : Prop :=
  scrollListeners p' = scrollListeners p
  ∧ animationFrames p' = animationFrames p
  ∧ length (document p) ≤ length (document p').

(** A filter pass shows the message of the container: the query is not
    empty and no source button matches it. *)
Definition passShowsMessage (d : list element) (searchInput allSources : nat)
  : bool :=
  (matchCount d searchInput allSources =? 0)
  && negb (bool_decide (searchTermOf d searchInput = "")).

(** The three updates a filter pass can make to an element, each guarded
    by the role the element has: a source button is filtered by the query
    [q], the message has its display set, the live region receives the
    announcement. *)
Definition rewriteElement (isButton isMessage isLive : bool)
    (q display announcement : string) (e : element) : element :=
  let e1 := if isButton then filterItem q e else e in
  let e2 := if isMessage then withStyle "display" display e1 else e1 in
  if isLive then withTextContent announcement e2 else e2.

(** What a filter pass makes of the element [e] it finds at the handle [h].
    The three roles are read on the store before the pass. *)
Definition passElement (d : list element) (searchInput allSources : nat)
    (h : nat) (e : element) : element :=
  let q := searchTermOf d searchInput in
  let n := matchCount d searchInput allSources in
  rewriteElement
    (bool_decide (h ∈ querySelectorAllIn d allSources "source-btn"))
    (bool_decide (querySelectorIn d allSources "no-results" = Some h))
    (bool_decide (getElementById d "search-results-live" = Some h))
    q (if passShowsMessage d searchInput allSources then "block" else "none")
    (announcementFor n q) e.

(** The elements a filter pass creates: the message, when it has to be
    shown and the container has none, and the live region, when the page
    has none. *)
Definition passCreated (d : list element) (searchInput allSources : nat)
  : list element :=
  let q := searchTermOf d searchInput in
  let n := matchCount d searchInput allSources in
  (if passShowsMessage d searchInput allSources
      && bool_decide (querySelectorIn d allSources "no-results" = None)
   then [withStyle "display" "block"
           (withParent (Some allSources) (newNoResultsMsg q))]
   else [])
  ++ (if bool_decide (getElementById d "search-results-live" = None)
      then [withTextContent (announcementFor n q)
              (withParent None newLiveRegion)]
      else []).


(** A decimal digit. *)
Definition isDigit (c : ascii) : bool :=
  (48 <=? nat_of_ascii c) && (nat_of_ascii c <=? 57).

(** The store [d'] extends [d] up to the classes [cs]: it begins with the
    elements of [d], each at its handle with its parent, its id and its
    classes other than those of [cs], and what follows has been appended. *)
Definition extends (cs : list string) (d d' : list element) : Prop :=
  ∃ d1 l, d' = d1 ++ l ∧ sameShape cs d d1.

(** Every parent named in the store is in the store. *)
Definition parentsInStore (d : list element) : bool :=
  forallb (λ e, match parentNode e with
                | Some p => p <? length d
                | None => true
                end) d.

(** The live region, if the page has one, has no child element. *)
Definition liveRegionIsLeaf (d : list element) : bool :=
  from_option (isLeaf d) true (getElementById d "search-results-live").

(** The container of the source buttons is neither the label of the toggle
    nor the live region: the message the filter pass appends to the
    container does not become a child of either. *)
Definition containerApart (d : list element) : bool :=
  match querySelector d "all-sources" with
  | Some c =>
      negb (bool_decide (querySelector d "toggle-text" = Some c))
      && negb (bool_decide (getElementById d "search-results-live" = Some c))
  | None => true
  end.

(** The two elements whose [textContent] the script assigns, the label of
    the toggle and the live region, have no child element, and nothing the
    script appends can become one: on such a page the assignments replace
    text and remove nothing, as [setTextContent] has it. *)
Definition textIsOwn (d : list element) : bool :=
  parentsInStore d && labelIsLeaf d && liveRegionIsLeaf d && containerApart d.

(** ** Example pages *)

(** An element of the markup: its classes, attributes, text and parent. *)
Definition markup (cls : list string) (attrs : list (string * string))
    (text : string) (parent : option nat) : element :=
  Element cls (list_to_map attrs) ∅ text "" "" parent.

(** A page with the whole widget: the toggle button (0) with its label (1)
    and icon (2), the panel (3) holding the search field (4) and the
    container (5) of two source links (6, 7), and a category link (8). *)
Definition demoPage : list element :=
  [ markup ["toggle-sources"] [] "" None;
    markup ["toggle-text"] [] "Show All Sources" (Some 0);
    markup ["toggle-icon"] [] "" (Some 0);
    markup [] [("id", "sources-content")] "" None;
    markup [] [("id", "source-search")] "" (Some 3);
    markup ["all-sources"] [] "" (Some 3);
    markup ["source-btn"]
      [("data-source", "bbc"); ("href", "/source/bbc")] "BBC News" (Some 5);
    markup ["source-btn"]
      [("data-source", "hn"); ("href", "/source/hn")] "Hacker News" (Some 5);
    markup ["category-btn"] [("href", "/category/tech")] "Tech" None ].

(** The same page with the panel in a state the toggle never produces:
    both attributes are [true] and the label reads [More]. *)
Definition oddPanelPage : list element :=
  [ markup ["toggle-sources"] [("aria-expanded", "true")] "" None;
    markup ["toggle-text"] [] "More" (Some 0);
    markup ["toggle-icon"] [] "" (Some 0);
    markup [] [("id", "sources-content"); ("aria-hidden", "true")] "" None ].

(** A page without the widget: one stray source link. *)
Definition barePage : list element :=
  [ markup ["source-btn"] [("href", "/source/bbc")] "BBC News" None ].

(** The example page in use: loaded, the panel opened, the search field
    focused by the deferred callback, [bbc] typed and filtered. *)
Definition demoSearching : page :=
  run [DOMContentLoaded; CallToggle; Elapse 300;
       Input "bbc"; CallFilter; Elapse 150]
      (load "/" demoPage).

(** * Properties *)

(** ** Strings *)

Lemma startsWith_spec s p :
  startsWith s p = true ↔ ∃ post, s = p +:+ post.
Proof.
  revert s. induction p as [|a p IH]; intros s; simpl.
  - split; [intros _; by exists s | done].
  - destruct s as [|b s].
    + split; [done | intros [post H]; discriminate H].
    + rewrite andb_true_iff, bool_decide_eq_true, IH. split.
      * intros [-> [post ->]]. by exists post.
      * intros [post H]. injection H as -> ->. eauto.
Qed.

Lemma includes_spec s t : includes s t = true ↔ isSubstringOf t s.
Proof.
  unfold isSubstringOf. induction s as [|b s IH]; simpl.
  - rewrite orb_false_r, startsWith_spec. split.
    + intros [post H]. by exists EmptyString, post.
    + intros [[|c pre] [post H]]; [by exists post | discriminate H].
  - rewrite orb_true_iff, startsWith_spec, IH. split.
    + intros [[post H] | (pre & post & H)].
      * by exists EmptyString, post.
      * exists (String b pre), post. simpl. by rewrite H.
    + intros [[|c pre] [post H]].
      * left. by exists post.
      * right. injection H as _ H. by exists pre, post.
Qed.

Lemma includes_empty s : includes s "" = true.
Proof. destruct s; reflexivity. Qed.

Lemma isSpace_lowerChar c : isSpace c = true → lowerChar c = c.
Proof.
  unfold isSpace, lowerChar, isUpper. intros H.
  destruct (65 <=? nat_of_ascii c) eqn:E1; [|done].
  apply Nat.leb_le in E1.
  apply orb_true_iff in H as [H | H].
  - apply andb_true_iff in H as [_ H]. apply Nat.leb_le in H. lia.
  - apply Nat.eqb_eq in H. lia.
Qed.

Lemma trimStart_allSpace s : allSpace s = true → trimStart s = "".
Proof.
  induction s as [|c s IH]; simpl; [done|].
  intros [Hc Hs]%andb_true_iff. rewrite Hc. auto.
Qed.

Lemma toLowerCase_allSpace s : allSpace s = true → toLowerCase s = s.
Proof.
  induction s as [|c s IH]; simpl; [done|].
  intros [Hc Hs]%andb_true_iff. by rewrite isSpace_lowerChar, IH.
Qed.

Lemma trim_blank s : allSpace s = true → trim (toLowerCase s) = "".
Proof.
  intros H. rewrite toLowerCase_allSpace by done.
  unfold trim. by rewrite trimStart_allSpace.
Qed.

(** ** The DOM store: lookups are stable under the script's updates *)

Section shape.
Context (cs : list string).

Lemma sameShapeAt_refl e : sameShapeAt cs e e.
Proof. by repeat split. Qed.

Lemma sameShapeAt_trans e1 e2 e3 :
  sameShapeAt cs e1 e2 → sameShapeAt cs e2 e3 → sameShapeAt cs e1 e3.
Proof.
  intros (Hp & Hi & Hc) (Hp' & Hi' & Hc'). split_and!; [congruence..|].
  intros c Hn. by rewrite Hc, Hc'.
Qed.

Lemma sameShape_refl d : sameShape cs d d.
Proof. induction d; constructor; auto using sameShapeAt_refl. Qed.

Lemma sameShape_trans d1 d2 d3 :
  sameShape cs d1 d2 → sameShape cs d2 d3 → sameShape cs d1 d3.
Proof. apply Forall2_trans, sameShapeAt_trans. Qed.

Lemma sameShape_length d d' : sameShape cs d d' → length d = length d'.
Proof. apply Forall2_length. Qed.

Lemma sameShape_alter f h d d' :
  keepsShape cs f → sameShape cs d d' → sameShape cs d (alter f h d').
Proof.
  intros Hf Hd. apply Forall2_alter_r; [done|].
  intros x y _ _ Hxy. eapply sameShapeAt_trans; [done | apply Hf].
Qed.

Lemma sameShape_lookup d d' h :
  sameShape cs d d' →
  option_Forall2 (sameShapeAt cs) (d !! h) (d' !! h).
Proof. intros H. by apply Forall2_lookup. Qed.

Lemma sameShape_parent d d' h :
  sameShape cs d d' → d !! h ≫= parentNode = d' !! h ≫= parentNode.
Proof.
  intros H. destruct (sameShape_lookup d d' h H) as [e e' (Hp & _)|]; [|done].
  simpl. done.
Qed.

Lemma list_find_shape (P : element → Prop) `{!∀ e, Decision (P e)} d d' :
  sameShape cs d d' →
  (∀ e e', sameShapeAt cs e e' → (P e ↔ P e')) →
  fst <$> list_find P d = fst <$> list_find P d'.
Proof.
  intros Hd HP. induction Hd as [|e e' d d' He Hd IH]; [done|].
  simpl. specialize (HP e e' He).
  destruct (decide (P e)), (decide (P e')); try tauto; try done.
  rewrite <- !option_fmap_compose.
  change (fst ∘ prod_map S id) with (S ∘ (@fst nat element)).
  rewrite !option_fmap_compose. by rewrite IH.
Qed.

Lemma getElementById_shape d d' x :
  sameShape cs d d' → getElementById d x = getElementById d' x.
Proof.
  intros H. apply list_find_shape; [done|].
  intros e e' (_ & Hi & _). unfold hasId. by rewrite Hi.
Qed.

Lemma querySelector_shape d d' c :
  c ∉ cs → sameShape cs d d' → querySelector d c = querySelector d' c.
Proof.
  intros Hc H. apply list_find_shape; [done|].
  intros e e' (_ & _ & Hcl). by apply Hcl.
Qed.

Lemma hasClassAt_shape d d' c h :
  c ∉ cs → sameShape cs d d' → hasClassAt d c h = hasClassAt d' c h.
Proof.
  intros Hc H. unfold hasClassAt.
  destruct (sameShape_lookup d d' h H) as [e e' (_ & _ & Hcl)|]; [|done].
  apply bool_decide_ext. by apply Hcl.
Qed.

Lemma querySelectorAll_shape d d' c :
  c ∉ cs → sameShape cs d d' → querySelectorAll d c = querySelectorAll d' c.
Proof.
  intros Hc H. unfold querySelectorAll.
  rewrite <- (sameShape_length d d' H).
  apply list_filter_iff. intros h. by rewrite (hasClassAt_shape d d').
Qed.

Lemma isDescendant_shape fuel d d' anc h :
  sameShape cs d d' → isDescendant fuel d anc h = isDescendant fuel d' anc h.
Proof.
  intros H. revert h. induction fuel as [|n IH]; intros h; simpl; [done|].
  rewrite (sameShape_parent d d' h H).
  destruct (d' !! h ≫= parentNode); [|done]. by rewrite IH.
Qed.

Lemma contains_shape d d' anc h :
  sameShape cs d d' → contains d anc h = contains d' anc h.
Proof.
  intros H. unfold contains. rewrite (sameShape_length d d' H).
  by apply isDescendant_shape.
Qed.

Lemma querySelectorAllIn_shape d d' anc c :
  c ∉ cs → sameShape cs d d' →
  querySelectorAllIn d anc c = querySelectorAllIn d' anc c.
Proof.
  intros Hc H. unfold querySelectorAllIn.
  rewrite (querySelectorAll_shape d d' c Hc H).
  apply list_filter_iff. intros h. by rewrite (contains_shape d d').
Qed.

Lemma querySelectorIn_shape d d' anc c :
  c ∉ cs → sameShape cs d d' →
  querySelectorIn d anc c = querySelectorIn d' anc c.
Proof.
  intros Hc H. unfold querySelectorIn.
  by rewrite (querySelectorAllIn_shape d d' anc c Hc H).
Qed.

End shape.

Lemma sameShape_weaken cs cs' d d' :
  cs ⊆ cs' → sameShape cs d d' → sameShape cs' d d'.
Proof.
  intros Hsub H. eapply Forall2_impl; [exact H|].
  intros e e' (Hp & Hi & Hc). split_and!; [done..|].
  intros c Hn. apply Hc. intros Hin. apply Hn, Hsub, Hin.
Qed.

(** The elementary updates and the shape. *)

Lemma keepsShape_withAttribute cs k v :
  k ≠ "id" → keepsShape cs (withAttribute k v).
Proof.
  intros Hk e. split_and!; [done| |done].
  simpl. by rewrite lookup_insert_ne.
Qed.

Lemma keepsShape_withoutAttribute cs k :
  k ≠ "id" → keepsShape cs (withoutAttribute k).
Proof.
  intros Hk e. split_and!; [done| |done].
  simpl. by rewrite lookup_delete_ne.
Qed.

Lemma keepsShape_withStyle cs k v : keepsShape cs (withStyle k v).
Proof. intros e. by split_and!. Qed.

Lemma keepsShape_withTextContent cs s : keepsShape cs (withTextContent s).
Proof. intros e. by split_and!. Qed.

Lemma keepsShape_withValue cs s : keepsShape cs (withValue s).
Proof. intros e. by split_and!. Qed.

Lemma keepsShape_withClass cs c : c ∈ cs → keepsShape cs (withClass c).
Proof.
  intros Hc e. split_and!; [done..|].
  intros c' Hn. unfold hasClass, withClass. simpl.
  case_bool_decide; [done|]. rewrite elem_of_app, list_elem_of_singleton.
  split; [tauto|]. intros [?| ->]; [done|]. by destruct Hn.
Qed.

Lemma keepsShape_withoutClass cs c : c ∈ cs → keepsShape cs (withoutClass c).
Proof.
  intros Hc e. split_and!; [done..|].
  intros c' Hn. unfold hasClass, withoutClass. simpl.
  rewrite list_elem_of_filter. split; [|tauto].
  intros H. split; [|done]. intros ->. by destruct Hn.
Qed.

Lemma keepsShape_compose cs f g :
  keepsShape cs f → keepsShape cs g → keepsShape cs (f ∘ g).
Proof. intros Hf Hg e. eapply sameShapeAt_trans; [apply Hg | apply Hf]. Qed.

Create HintDb shape.

#[local] Hint Resolve keepsShape_withAttribute keepsShape_withoutAttribute
  keepsShape_withStyle keepsShape_withTextContent keepsShape_withValue
  keepsShape_withClass keepsShape_withoutClass keepsShape_compose
  sameShape_refl sameShape_alter : shape.

(** A string literal is not in a list of other literals. *)
Ltac solve_not_elem :=
  rewrite ?not_elem_of_cons; repeat split; (done || apply not_elem_of_nil).

(** ** Reading an element after an update elsewhere *)

Lemma getStyle_alter_ne f h h' k (d : list element) :
  h ≠ h' → getStyle (alter f h' d) h k = getStyle d h k.
Proof. intros H. unfold getStyle. by rewrite list_lookup_alter_ne. Qed.

Lemma getStyle_alter_keep f h h' k (d : list element) :
  (∀ e, style (f e) = style e) →
  getStyle (alter f h' d) h k = getStyle d h k.
Proof.
  intros Hf. unfold getStyle. destruct (decide (h' = h)) as [->|Hne].
  - rewrite list_lookup_alter_eq. destruct (d !! h); simpl; [|done].
    by rewrite Hf.
  - by rewrite list_lookup_alter_ne.
Qed.

Lemma getStyle_app h k (d l : list element) :
  h < length d → getStyle (d ++ l) h k = getStyle d h k.
Proof. intros H. unfold getStyle. by rewrite lookup_app_l. Qed.

Lemma getAttribute_alter_ne f h h' k (d : list element) :
  h ≠ h' → getAttribute (alter f h' d) h k = getAttribute d h k.
Proof. intros H. unfold getAttribute. by rewrite list_lookup_alter_ne. Qed.

Lemma getAttribute_alter_keep f h h' k (d : list element) :
  (∀ e, attributes (f e) = attributes e) →
  getAttribute (alter f h' d) h k = getAttribute d h k.
Proof.
  intros Hf. unfold getAttribute. destruct (decide (h' = h)) as [->|Hne].
  - rewrite list_lookup_alter_eq. destruct (d !! h); simpl; [|done].
    by rewrite Hf.
  - by rewrite list_lookup_alter_ne.
Qed.

Lemma getAttribute_app h k (d l : list element) :
  h < length d → getAttribute (d ++ l) h k = getAttribute d h k.
Proof. intros H. unfold getAttribute. by rewrite lookup_app_l. Qed.

Lemma getAttribute_setAttribute_eq h k v (d : list element) :
  h < length d → getAttribute (setAttribute h k v d) h k = Some v.
Proof.
  intros H. unfold getAttribute, setAttribute.
  rewrite list_lookup_alter_eq.
  destruct (lookup_lt_is_Some_2 d h H) as [e ->]. simpl.
  apply lookup_insert_eq.
Qed.

Lemma getAttribute_setAttribute_ne h h' k k' v (d : list element) :
  k ≠ k' → getAttribute (setAttribute h' k' v d) h k = getAttribute d h k.
Proof.
  intros H. unfold getAttribute, setAttribute.
  destruct (decide (h' = h)) as [->|Hne].
  - rewrite list_lookup_alter_eq. destruct (d !! h); simpl; [|done].
    by rewrite lookup_insert_ne.
  - by rewrite list_lookup_alter_ne.
Qed.

(** ** The handles a lookup returns are live *)

Lemma getElementById_lt d x h : getElementById d x = Some h → h < length d.
Proof.
  unfold getElementById. intros H.
  destruct (list_find (hasId x) d) as [[i e]|] eqn:E; [|done].
  injection H as <-. apply list_find_Some in E as (E & _).
  by apply lookup_lt_Some in E.
Qed.

Lemma querySelector_lt d c h : querySelector d c = Some h → h < length d.
Proof.
  unfold querySelector. intros H.
  destruct (list_find (hasClass c) d) as [[i e]|] eqn:E; [|done].
  injection H as <-. apply list_find_Some in E as (E & _).
  by apply lookup_lt_Some in E.
Qed.

Lemma querySelector_hasClass d c h :
  querySelector d c = Some h → hasClassAt d c h = true.
Proof.
  unfold querySelector, hasClassAt. intros H.
  destruct (list_find (hasClass c) d) as [[i e]|] eqn:E; [|done].
  injection H as <-. apply list_find_Some in E as (E & Hc & _).
  rewrite E. by apply bool_decide_eq_true.
Qed.

Lemma getElementById_hasId d x h :
  getElementById d x = Some h → getAttribute d h "id" = Some x.
Proof.
  unfold getElementById, getAttribute. intros H.
  destruct (list_find (hasId x) d) as [[i e]|] eqn:E; [|done].
  injection H as <-. apply list_find_Some in E as (E & Hc & _).
  by rewrite E.
Qed.

Lemma elem_of_querySelectorAll d c h :
  h ∈ querySelectorAll d c ↔ hasClassAt d c h = true.
Proof.
  unfold querySelectorAll. rewrite list_elem_of_filter, elem_of_seq.
  rewrite Is_true_true. split; [tauto|]. intros H. split; [done|].
  unfold hasClassAt in H. destruct (d !! h) eqn:E; [|done].
  apply lookup_lt_Some in E. lia.
Qed.

Lemma elem_of_querySelectorAllIn d anc c h :
  h ∈ querySelectorAllIn d anc c
  ↔ hasClassAt d c h = true ∧ contains d anc h = true.
Proof.
  unfold querySelectorAllIn.
  rewrite list_elem_of_filter, elem_of_querySelectorAll, Is_true_true. tauto.
Qed.

Lemma querySelectorAllIn_lt d anc c h :
  h ∈ querySelectorAllIn d anc c → h < length d.
Proof.
  rewrite elem_of_querySelectorAllIn. intros [H _].
  unfold hasClassAt in H. destruct (d !! h) eqn:E; [|done].
  by apply lookup_lt_Some in E.
Qed.

Lemma NoDup_querySelectorAllIn d anc c : NoDup (querySelectorAllIn d anc c).
Proof. apply NoDup_filter, NoDup_filter, NoDup_seq. Qed.

Lemma querySelectorIn_elem d anc c m :
  querySelectorIn d anc c = Some m → m ∈ querySelectorAllIn d anc c.
Proof.
  unfold querySelectorIn. destruct (querySelectorAllIn d anc c); [done|].
  simpl. intros [= ->]. apply list_elem_of_here.
Qed.

(** ** The filter pass *)

Lemma isVisible_lookup d h q e :
  d !! h = Some e → isVisible d h q = matchesItem q e.
Proof.
  intros E. unfold isVisible, matchesItem, getTextContent, getAttribute.
  by rewrite E.
Qed.

Lemma isVisible_alter_ne f h h' q (d : list element) :
  h ≠ h' → isVisible (alter f h' d) h q = isVisible d h q.
Proof.
  intros H. unfold isVisible, getTextContent, getAttribute.
  by rewrite list_lookup_alter_ne.
Qed.

Lemma filterButton_alter q d n h :
  filterButton q (d, n) h =
  (alter (filterItem q) h d, if isVisible d h q then S n else n).
Proof.
  unfold filterButton, setStyle, removeAttribute, setAttribute.
  destruct (isVisible d h q) eqn:E; f_equal.
  - rewrite list_alter_alter_eq. apply list_alter_ext; [|done].
    intros e He. unfold filterItem.
    by rewrite <- (isVisible_lookup d h q e He), E.
  - rewrite list_alter_alter_eq. apply list_alter_ext; [|done].
    intros e He. unfold filterItem.
    by rewrite <- (isVisible_lookup d h q e He), E.
Qed.

Lemma countVisible_alter_ne f h q hs (d : list element) :
  h ∉ hs → countVisible (alter f h d) hs q = countVisible d hs q.
Proof.
  intros Hh. unfold countVisible. f_equal.
  induction hs as [|x hs IH]; [done|].
  apply not_elem_of_cons in Hh as [Hx Hh].
  rewrite !filter_cons, IH by done.
  by rewrite isVisible_alter_ne.
Qed.

(** The loop over the source buttons: every button of the list is updated
    from its own text and attribute, nothing else changes, and the count is
    the number of matching buttons. *)
Lemma filter_loop q hs d n :
  NoDup hs →
  ∃ d', foldl (filterButton q) (d, n) hs = (d', n + countVisible d hs q)
    ∧ sameShape [] d d'
    ∧ ∀ i, d' !! i =
           if decide (i ∈ hs) then filterItem q <$> d !! i else d !! i.
Proof.
  intros Hnd. revert d n.
  induction Hnd as [|h hs Hh Hnd IH]; intros d n.
  - exists d. simpl. unfold countVisible. simpl.
    split_and!; [f_equal; lia | apply sameShape_refl | done].
  - cbn [foldl]. rewrite filterButton_alter.
    destruct (IH (alter (filterItem q) h d)
                 (if isVisible d h q then S n else n)) as (d' & Hf & Hs & Hl).
    exists d'. split_and!.
    + rewrite Hf. f_equal. rewrite countVisible_alter_ne by done.
      unfold countVisible. rewrite filter_cons.
      destruct (isVisible d h q); simpl; lia.
    + eapply sameShape_trans; [|exact Hs].
      apply sameShape_alter; [|apply sameShape_refl].
      intros e. unfold filterItem. destruct (matchesItem q e).
      * apply (keepsShape_compose [] (withoutAttribute "aria-hidden")
                 (withStyle "display" "flex")); auto with shape.
      * apply (keepsShape_compose [] (withAttribute "aria-hidden" "true")
                 (withStyle "display" "none")); auto with shape.
    + intros i. rewrite Hl. destruct (decide (i = h)) as [->|Hne].
      * rewrite decide_False by done.
        rewrite decide_True by apply list_elem_of_here.
        apply list_lookup_alter_eq.
      * rewrite list_lookup_alter_ne by done.
        destruct (decide (i ∈ hs)) as [Hi|Hi].
        -- by rewrite decide_True by (by apply list_elem_of_further).
        -- rewrite decide_False; [done|].
           by intros [?|?]%elem_of_cons.
Qed.

Lemma originalFilterSources_unfold d searchInput allSources :
  getElementById d "source-search" = Some searchInput →
  querySelector d "all-sources" = Some allSources →
  originalFilterSources d =
    let searchTerm := searchTermOf d searchInput in
    let st := foldl (filterButton searchTerm) (d, 0)
                (querySelectorAllIn d allSources "source-btn") in
    finishFilter allSources searchTerm st.1 st.2.
Proof.
  intros Hi Hc. unfold originalFilterSources. rewrite Hi, Hc.
  unfold searchTermOf. simpl.
  by destruct (foldl _ _ _).
Qed.

Lemma getStyle_announce n q d h k :
  h < length d → getStyle (announceSearchResults n q d) h k = getStyle d h k.
Proof.
  intros H. unfold announceSearchResults, setTextContent.
  destruct (getElementById d "search-results-live").
  - by apply getStyle_alter_keep.
  - simpl. rewrite getStyle_alter_keep by done. by apply getStyle_app.
Qed.

Lemma getAttribute_announce n q d h k :
  h < length d →
  getAttribute (announceSearchResults n q d) h k = getAttribute d h k.
Proof.
  intros H. unfold announceSearchResults, setTextContent.
  destruct (getElementById d "search-results-live").
  - by apply getAttribute_alter_keep.
  - simpl. rewrite getAttribute_alter_keep by done. by apply getAttribute_app.
Qed.

(** The second half of the pass leaves the style and the attributes of every
    element other than the message as the loop set them. *)
Lemma finishFilter_other allSources q d n h :
  h < length d →
  querySelectorIn d allSources "no-results" ≠ Some h →
  (∀ k, getStyle (finishFilter allSources q d n) h k = getStyle d h k)
  ∧ (∀ k, getAttribute (finishFilter allSources q d n) h k
          = getAttribute d h k).
Proof.
  intros Hlt Hm. unfold finishFilter.
  destruct (querySelectorIn d allSources "no-results") as [m|] eqn:Em;
    destruct ((n =? 0) && negb (bool_decide (q = ""))); simpl;
    unfold setStyle; split; intros k.
  all: try (rewrite getStyle_announce by (by rewrite ?length_alter, ?length_app; lia)).
  all: try (rewrite getAttribute_announce by (by rewrite ?length_alter, ?length_app; lia)).
  all: try done.
  - apply getStyle_alter_ne. congruence.
  - by apply getAttribute_alter_keep.
  - apply getStyle_alter_ne. congruence.
  - by apply getAttribute_alter_keep.
  - rewrite getStyle_alter_ne by lia. by apply getStyle_app.
  - rewrite getAttribute_alter_keep by done. by apply getAttribute_app.
Qed.

Lemma filterItem_display q e :
  style (filterItem q e) !! "display"
  = Some (if matchesItem q e then "flex" else "none").
Proof.
  unfold filterItem. destruct (matchesItem q e); simpl; apply lookup_insert_eq.
Qed.

Lemma filterItem_aria_hidden q e :
  attributes (filterItem q e) !! "aria-hidden"
  = if matchesItem q e then None else Some "true".
Proof.
  unfold filterItem. destruct (matchesItem q e); simpl.
  - apply lookup_delete_eq.
  - apply lookup_insert_eq.
Qed.

(** A source button after the pass: its display and its [aria-hidden] are
    decided by its own text and [data-source] as they were before the pass,
    provided the button is not also the message element of the container
    (whose display the pass sets after the loop). *)
Lemma filter_pass_button d searchInput allSources button :
  getElementById d "source-search" = Some searchInput →
  querySelector d "all-sources" = Some allSources →
  querySelectorIn d allSources "no-results" ≠ Some button →
  button ∈ querySelectorAllIn d allSources "source-btn" →
  let q := searchTermOf d searchInput in
  let d' := originalFilterSources d in
  getStyle d' button "display"
    = Some (if isVisible d button q then "flex" else "none")
  ∧ getAttribute d' button "aria-hidden"
    = if isVisible d button q then None else Some "true".
Proof.
  intros Hi Hc Hwf Hb q d'. subst d'.
  rewrite (originalFilterSources_unfold d searchInput allSources Hi Hc).
  cbv zeta. fold q.
  destruct (filter_loop q (querySelectorAllIn d allSources "source-btn") d 0
              (NoDup_querySelectorAllIn _ _ _)) as (d1 & Hf & Hs & Hl).
  rewrite Hf. cbn [fst snd].
  pose proof (querySelectorAllIn_lt _ _ _ _ Hb) as Hlt.
  destruct (lookup_lt_is_Some_2 d button Hlt) as [e He].
  assert (Hlt1 : button < length d1)
    by (by rewrite <- (sameShape_length [] d d1 Hs)).
  assert (Hm : querySelectorIn d1 allSources "no-results" ≠ Some button).
  { rewrite <- (querySelectorIn_shape [] d d1) by (done || solve_not_elem).
    exact Hwf. }
  destruct (finishFilter_other allSources q d1
              (0 + countVisible d (querySelectorAllIn d allSources "source-btn") q)
              button Hlt1 Hm) as [Hst Hat].
  rewrite Hst, Hat. unfold getStyle, getAttribute.
  rewrite Hl, decide_True, He by done. simpl.
  rewrite (isVisible_lookup d button q e He).
  split; [apply filterItem_display | apply filterItem_aria_hidden].
Qed.

Lemma isVisible_spec d button q :
  isVisible d button q = true
  ↔ isSubstringOf q (toLowerCase (getTextContent d button))
    ∨ isSubstringOf q
        (toLowerCase (default "" (getAttribute d button "data-source"))).
Proof.
  unfold isVisible. by rewrite orb_true_iff, !includes_spec.
Qed.



(** ** Marking the active links *)

Lemma alter_lookup_None (f : element → element) h (d : list element) :
  d !! h = None → alter f h d = d.
Proof.
  intros E. apply list_eq. intros i. rewrite list_lookup_alter.
  case_decide; [subst; by rewrite E | done].
Qed.

Lemma foldl_alter_lookup (f : element → element) hs (d : list element) i :
  NoDup hs →
  foldl (λ d h, alter f h d) d hs !! i
  = if decide (i ∈ hs) then f <$> d !! i else d !! i.
Proof.
  intros Hnd. revert d. induction Hnd as [|h hs Hh Hnd IH]; intros d.
  - done.
  - cbn [foldl]. rewrite IH. destruct (decide (i = h)) as [->|Hne].
    + rewrite decide_False by done.
      rewrite decide_True by apply list_elem_of_here.
      apply list_lookup_alter_eq.
    + rewrite list_lookup_alter_ne by done.
      destruct (decide (i ∈ hs)) as [Hi|Hi].
      * by rewrite decide_True by (by apply list_elem_of_further).
      * rewrite decide_False; [done|]. by intros [?|?]%elem_of_cons.
Qed.

Lemma sameShape_foldl_alter cs (f : element → element) hs (d : list element) :
  keepsShape cs f → sameShape cs d (foldl (λ d h, alter f h d) d hs).
Proof.
  intros Hf. revert d. induction hs as [|h hs IH]; intros d.
  - apply sameShape_refl.
  - cbn [foldl]. eapply sameShape_trans; [|apply IH].
    apply sameShape_alter; [done | apply sameShape_refl].
Qed.

Lemma markIfCurrent_alter path d h :
  markIfCurrent path d h = alter (markItem path) h d.
Proof.
  unfold markIfCurrent, getAttribute.
  destruct (d !! h) as [e|] eqn:E; simpl.
  - destruct (truthy (attributes e !! "href")
              && includes path
                   (stripLeadingNonSlash (default "" (attributes e !! "href"))))
      eqn:Hc.
    + unfold setAttribute, classListAdd. rewrite list_alter_alter_eq.
      apply list_alter_ext; [|done]. intros x Hx.
      assert (x = e) as -> by congruence.
      unfold markItem. by rewrite Hc.
    + symmetry. erewrite list_alter_ext; [apply (list_alter_id id); done| |done].
      intros x Hx. assert (x = e) as -> by congruence.
      unfold markItem. by rewrite Hc.
  - by rewrite alter_lookup_None.
Qed.

Lemma foldl_markIfCurrent path hs d :
  foldl (markIfCurrent path) d hs
  = foldl (λ d h, alter (markItem path) h d) d hs.
Proof.
  revert d. induction hs as [|h hs IH]; intros d; [done|].
  cbn [foldl]. by rewrite markIfCurrent_alter, IH.
Qed.

Lemma keepsShape_markItem path : keepsShape ["active"] (markItem path).
Proof.
  intros e. unfold markItem. case_match; [|apply sameShapeAt_refl].
  apply (keepsShape_compose ["active"] (withAttribute "aria-current" "page")
           (withClass "active")); [by apply keepsShape_withAttribute|].
  apply keepsShape_withClass, list_elem_of_here.
Qed.

Lemma withClass_idemp c e : withClass c (withClass c e) = withClass c e.
Proof.
  unfold withClass at 1. simpl.
  rewrite bool_decide_eq_true_2; [by destruct e|].
  unfold withClass. simpl. case_bool_decide; [done|].
  apply elem_of_app. right. apply list_elem_of_here.
Qed.

Lemma markItem_idemp path e : markItem path (markItem path e) = markItem path e.
Proof.
  unfold markItem at 2.
  destruct (truthy (attributes e !! "href")
            && includes path
                 (stripLeadingNonSlash (default "" (attributes e !! "href"))))
    eqn:Hc; [|done].
  unfold markItem. cbn [attributes withAttribute withClass].
  rewrite lookup_insert_ne by done. rewrite Hc.
  change (withAttribute "aria-current" "page"
            (withAttribute "aria-current" "page"
               (withClass "active" (withClass "active" e)))
          = withAttribute "aria-current" "page" (withClass "active" e)).
  rewrite withClass_idemp. unfold withAttribute. cbn [attributes].
  by rewrite insert_insert_eq.
Qed.

(** Every link of class [category-btn] or [source-btn] is updated from its
    own [href]; no other element changes. *)
Lemma initializeActiveFilters_lookup path d i :
  initializeActiveFilters path d !! i
  = (λ e, if bool_decide (hasClass "category-btn" e ∨ hasClass "source-btn" e)
          then markItem path e else e) <$> d !! i.
Proof.
  unfold initializeActiveFilters. rewrite !foldl_markIfCurrent.
  set (d1 := foldl (λ d h, alter (markItem path) h d) d
               (querySelectorAll d "category-btn")).
  assert (Hs : sameShape ["active"] d d1)
    by apply sameShape_foldl_alter, keepsShape_markItem.
  rewrite <- (querySelectorAll_shape ["active"] d d1 "source-btn")
    by (done || solve_not_elem).
  rewrite foldl_alter_lookup by apply NoDup_filter, NoDup_seq.
  unfold d1. rewrite foldl_alter_lookup by apply NoDup_filter, NoDup_seq.
  destruct (d !! i) as [e|] eqn:E.
  - assert (Hc : ∀ c, i ∈ querySelectorAll d c ↔ hasClass c e).
    { intros c. rewrite elem_of_querySelectorAll. unfold hasClassAt.
      rewrite E. apply bool_decide_eq_true. }
    destruct (decide (i ∈ querySelectorAll d "source-btn")) as [Hs1|Hs1];
      destruct (decide (i ∈ querySelectorAll d "category-btn")) as [Hc1|Hc1];
      rewrite !Hc in *; simpl.
    + rewrite markItem_idemp. by rewrite bool_decide_eq_true_2 by tauto.
    + by rewrite bool_decide_eq_true_2 by tauto.
    + by rewrite bool_decide_eq_true_2 by tauto.
    + by rewrite bool_decide_eq_false_2 by tauto.
  - by repeat case_decide.
Qed.

Lemma markItem_current path e target :
  attributes e !! "href" = Some target →
  markItem path e =
    if truthy (Some target) && includes path (stripLeadingNonSlash target)
    then withAttribute "aria-current" "page" (withClass "active" e)
    else e.
Proof. intros H. unfold markItem. by rewrite H. Qed.

Lemma isActive_marked d h e :
  d !! h = Some (withAttribute "aria-current" "page" (withClass "active" e)) →
  isActive d h = true.
Proof.
  intros E. unfold isActive, classListContains, hasClassAt, getAttribute.
  rewrite E. simpl. rewrite lookup_insert_eq.
  apply andb_true_iff. split; apply bool_decide_eq_true; [|done].
  unfold hasClass. simpl.
  case_bool_decide; [done|]. apply elem_of_app. right. apply list_elem_of_here.
Qed.

(** C2, as the code has it.  At initialization, a link of class
    [category-btn] or [source-btn] whose [href] is present and not empty gets
    the class [active] and [aria-current = page] when the current path
    contains the [href] with its leading run of non-slash characters removed,
    and is left exactly as it was otherwise; so a link that was not marked
    in the markup is marked afterwards if and only if the current path
    contains that stripped target.  A link whose [href] is empty is left as
    it was. *)
Theorem active_links_marking path d btn e target :
  d !! btn = Some e →
  hasClass "category-btn" e ∨ hasClass "source-btn" e →
  attributes e !! "href" = Some target →
  let d' := initializeActiveFilters path d in
  let stripped := stripLeadingNonSlash target in
  (target ≠ "" → isSubstringOf stripped path →
     d' !! btn
     = Some (withAttribute "aria-current" "page" (withClass "active" e)))
  ∧ (target ≠ "" → ¬ isSubstringOf stripped path → d' !! btn = Some e)
  ∧ (target ≠ "" → isActive d btn = false →
     (isActive d' btn = true ↔ isSubstringOf stripped path))
  ∧ (target = "" → d' !! btn = Some e).
Proof.
  intros E Hcls Hhref d' stripped. subst d'.
  rewrite initializeActiveFilters_lookup, E. cbn [fmap option_fmap option_map].
  rewrite bool_decide_eq_true_2 by done.
  rewrite (markItem_current path e target Hhref). fold stripped.
  assert (Ht : target ≠ "" → truthy (Some target) = true)
    by (by destruct target).
  assert (Hyes : target ≠ "" → isSubstringOf stripped path →
                 truthy (Some target) && includes path stripped = true).
  { intros Hne Hsub. rewrite (Ht Hne). by apply includes_spec in Hsub as ->. }
  assert (Hno : target ≠ "" → ¬ isSubstringOf stripped path →
                truthy (Some target) && includes path stripped = false).
  { intros Hne Hsub. rewrite (Ht Hne). simpl.
    apply not_true_is_false. by rewrite includes_spec. }
  split_and!.
  - intros Hne Hsub. by rewrite Hyes.
  - intros Hne Hsub. by rewrite Hno.
  - intros Hne Hbefore.
    pose proof (initializeActiveFilters_lookup path d btn) as Hl.
    rewrite E in Hl. cbn [fmap option_fmap option_map] in Hl.
    rewrite bool_decide_eq_true_2 in Hl by done.
    rewrite (markItem_current path e target Hhref) in Hl. fold stripped in Hl.
    destruct (includes path stripped) eqn:Hinc.
    + apply includes_spec in Hinc.
      rewrite Hyes in Hl by done. by rewrite (isActive_marked _ _ _ Hl).
    + assert (Hsub : ¬ isSubstringOf stripped path)
        by (rewrite <- includes_spec; congruence).
      rewrite Hno in Hl by done.
      assert (isActive (initializeActiveFilters path d) btn = isActive d btn)
        as ->.
      { unfold isActive, classListContains, hasClassAt, getAttribute.
        by rewrite Hl, E. }
      rewrite Hbefore. split; [done | tauto].
  - intros ->. done.
Qed.

Lemma active_links_marking_witness :
  isActive (initializeActiveFilters "/source/bbc" demoPage) 6 = true
  ∧ isActive (initializeActiveFilters "/source/bbc" demoPage) 7 = false.
Proof.
  split.
  - destruct (active_links_marking "/source/bbc" demoPage 6
                (markup ["source-btn"]
                   [("data-source", "bbc"); ("href", "/source/bbc")]
                   "BBC News" (Some 5))
                "/source/bbc" eq_refl
                (or_intror (list_elem_of_here _ _)) eq_refl)
      as (_ & _ & H & _).
    apply H; [done | reflexivity |]. apply includes_spec. reflexivity.
  - reflexivity.
Defined.

(** C2 as stated fails at two links.  A link given by an absolute URL:
    the target is the scheme [https:], the host [//example.com] and the
    path [/news]; with scheme and host stripped it is the current path, and
    yet the link is not marked, because the code strips the scheme only.
    And a link whose [href] is the empty string: it has an [href], every
    path contains its stripped target, and yet it is not marked. *)
Lemma active_links_counterexample :
  let absolute :=
    [markup ["category-btn"] [("href", "https://example.com/news")]
       "News" None] in
  let empty := [markup ["category-btn"] [("href", "")] "All" None] in
  ("https://example.com/news" = "https:" +:+ "//example.com" +:+ "/news"
   ∧ isSubstringOf "/news" "/news"
   ∧ stripLeadingNonSlash "https://example.com/news" = "//example.com/news"
   ∧ isActive (initializeActiveFilters "/news" absolute) 0 = false)
  ∧ (getAttribute empty 0 "href" = Some ""
     ∧ isSubstringOf (stripLeadingNonSlash "") "/"
     ∧ isActive (initializeActiveFilters "/" empty) 0 = false).
Proof.
  split; split_and!; try reflexivity; apply includes_spec; reflexivity.
Qed.

(** ** The panel toggle *)

Lemma getTextContent_setTextContent_eq h s (d : list element) :
  h < length d → getTextContent (setTextContent h s d) h = s.
Proof.
  intros H. unfold getTextContent, setTextContent.
  rewrite list_lookup_alter_eq.
  by destruct (lookup_lt_is_Some_2 d h H) as [e ->].
Qed.

Lemma sameShape_collapsed sc tb tt d :
  sameShape ["show"] d (collapsed sc tb tt d).
Proof.
  unfold collapsed, setTextContent, setAttribute, classListRemove, setStyle.
  apply sameShape_alter; [apply keepsShape_withTextContent|].
  apply sameShape_alter; [by apply keepsShape_withAttribute|].
  apply sameShape_alter; [by apply keepsShape_withAttribute|].
  apply sameShape_alter; [apply keepsShape_withoutClass, list_elem_of_here|].
  apply sameShape_alter; [apply keepsShape_withStyle | apply sameShape_refl].
Qed.

Lemma sameShape_expanded sc tb tt d :
  sameShape ["show"] d (expanded sc tb tt d).
Proof.
  unfold expanded, setTextContent, setAttribute, classListAdd, setStyle.
  apply sameShape_alter; [apply keepsShape_withTextContent|].
  apply sameShape_alter; [by apply keepsShape_withAttribute|].
  apply sameShape_alter; [by apply keepsShape_withAttribute|].
  apply sameShape_alter; [apply keepsShape_withClass, list_elem_of_here|].
  apply sameShape_alter; [apply keepsShape_withStyle | apply sameShape_refl].
Qed.

(** The lookups of the toggle find the same elements in a store of the same
    shape up to the class [show]. *)
Lemma panel_lookups_shape d d' :
  sameShape ["show"] d d' →
  getElementById d' "sources-content" = getElementById d "sources-content"
  ∧ querySelector d' "toggle-sources" = querySelector d "toggle-sources"
  ∧ querySelector d' "toggle-text" = querySelector d "toggle-text"
  ∧ querySelector d' "toggle-icon" = querySelector d "toggle-icon"
  ∧ getElementById d' "source-search" = getElementById d "source-search".
Proof.
  intros H. split_and!; symmetry.
  - by apply (getElementById_shape ["show"]).
  - apply (querySelector_shape ["show"]); [solve_not_elem | done].
  - apply (querySelector_shape ["show"]); [solve_not_elem | done].
  - apply (querySelector_shape ["show"]); [solve_not_elem | done].
  - by apply (getElementById_shape ["show"]).
Qed.

(** The store after a toggle, when the four elements are there. *)
Lemma toggle_document p sc tb tt ti :
  getElementById (document p) "sources-content" = Some sc →
  querySelector (document p) "toggle-sources" = Some tb →
  querySelector (document p) "toggle-text" = Some tt →
  querySelector (document p) "toggle-icon" = Some ti →
  document (toggleSourcesSection p) =
    if bool_decide (getAttribute (document p) tb "aria-expanded" = Some "true")
    then collapsed sc tb tt (document p)
    else expanded sc tb tt (document p).
Proof.
  intros H1 H2 H3 H4. unfold toggleSourcesSection.
  rewrite H1, H2, H3, H4.
  case_bool_decide; [done|].
  by destruct (getElementById _ "source-search").
Qed.

Lemma collapsed_state sc tb tt d :
  sc < length d → tb < length d → tt < length d →
  getAttribute (collapsed sc tb tt d) tb "aria-expanded" = Some "false"
  ∧ getAttribute (collapsed sc tb tt d) sc "aria-hidden" = Some "true"
  ∧ getTextContent (collapsed sc tb tt d) tt = "Show All Sources".
Proof.
  intros Hsc Htb Htt. unfold collapsed. split_and!.
  - unfold setTextContent. rewrite getAttribute_alter_keep by done.
    rewrite getAttribute_setAttribute_ne by done.
    apply getAttribute_setAttribute_eq.
    unfold classListRemove, setStyle. by rewrite !length_alter.
  - unfold setTextContent. rewrite getAttribute_alter_keep by done.
    apply getAttribute_setAttribute_eq.
    unfold setAttribute, classListRemove, setStyle. by rewrite !length_alter.
  - apply getTextContent_setTextContent_eq.
    unfold setAttribute, classListRemove, setStyle. by rewrite !length_alter.
Qed.

Lemma expanded_state sc tb tt d :
  sc < length d → tb < length d → tt < length d →
  getAttribute (expanded sc tb tt d) tb "aria-expanded" = Some "true"
  ∧ getAttribute (expanded sc tb tt d) sc "aria-hidden" = Some "false"
  ∧ getTextContent (expanded sc tb tt d) tt = "Hide All Sources".
Proof.
  intros Hsc Htb Htt. unfold expanded. split_and!.
  - unfold setTextContent. rewrite getAttribute_alter_keep by done.
    rewrite getAttribute_setAttribute_ne by done.
    apply getAttribute_setAttribute_eq.
    unfold classListAdd, setStyle. by rewrite !length_alter.
  - unfold setTextContent. rewrite getAttribute_alter_keep by done.
    apply getAttribute_setAttribute_eq.
    unfold setAttribute, classListAdd, setStyle. by rewrite !length_alter.
  - apply getTextContent_setTextContent_eq.
    unfold setAttribute, classListAdd, setStyle. by rewrite !length_alter.
Qed.

(** The shape of the store decides which elements are leaves. *)
Lemma isLeaf_shape cs d d' h :
  sameShape cs d d' → isLeaf d h = isLeaf d' h.
Proof.
  intros H. unfold isLeaf.
  induction H as [|e e' d d' (Hp & _) _ IH]; [done|].
  simpl. by rewrite Hp, IH.
Qed.

Lemma labelIsLeaf_shape cs d d' :
  "toggle-text" ∉ cs → sameShape cs d d' → labelIsLeaf d = labelIsLeaf d'.
Proof.
  intros Hc H. unfold labelIsLeaf.
  rewrite (querySelector_shape cs d d' "toggle-text" Hc H).
  destruct (querySelector d' "toggle-text"); [|done].
  simpl. by apply (isLeaf_shape cs).
Qed.

(** A toggle adds no child to the label: it changes no parent. *)
Lemma labelIsLeaf_toggle p :
  labelIsLeaf (document p) = true →
  labelIsLeaf (document (toggleSourcesSection p)) = true.
Proof.
  intros H.
  destruct (getElementById (document p) "sources-content") as [sc|] eqn:Hsc;
    [|unfold toggleSourcesSection; by rewrite Hsc].
  destruct (querySelector (document p) "toggle-sources") as [tb|] eqn:Htb;
    [|unfold toggleSourcesSection; by rewrite Hsc, Htb].
  destruct (querySelector (document p) "toggle-text") as [tt|] eqn:Htt;
    [|unfold toggleSourcesSection; by rewrite Hsc, Htb, Htt].
  destruct (querySelector (document p) "toggle-icon") as [ti|] eqn:Hti;
    [|unfold toggleSourcesSection; by rewrite Hsc, Htb, Htt, Hti].
  rewrite (toggle_document p sc tb tt ti) by done.
  rewrite <- H. symmetry. case_bool_decide.
  - apply (labelIsLeaf_shape ["show"]); [solve_not_elem|].
    apply sameShape_collapsed.
  - apply (labelIsLeaf_shape ["show"]); [solve_not_elem|].
    apply sameShape_expanded.
Qed.

(** One toggle from a page with the four elements: the panel is in the
    collapsed state if [aria-expanded] was [true], in the expanded state
    otherwise; and the four elements are still found. *)
Lemma toggle_once p :
  panelComplete (document p) →
  let d' := document (toggleSourcesSection p) in
  panelComplete d'
  ∧ (ariaExpanded (document p) = Some "true" → isCollapsedState d')
  ∧ (ariaExpanded (document p) ≠ Some "true" → isExpandedState d').
Proof.
  intros ([sc Hsc] & [tb Htb] & [tt Htt] & [ti Hti]). cbv zeta.
  rewrite (toggle_document p sc tb tt ti) by done.
  pose proof (getElementById_lt _ _ _ Hsc).
  pose proof (querySelector_lt _ _ _ Htb).
  pose proof (querySelector_lt _ _ _ Htt).
  assert (Hexp : ariaExpanded (document p)
                 = getAttribute (document p) tb "aria-expanded").
  { unfold ariaExpanded. by rewrite Htb. }
  rewrite Hexp.
  case_bool_decide as Hb.
  - destruct (panel_lookups_shape _ _ (sameShape_collapsed sc tb tt (document p)))
      as (E1 & E2 & E3 & E4 & _).
    destruct (collapsed_state sc tb tt (document p)) as (A1 & A2 & A3); [done..|].
    split_and!.
    + unfold panelComplete. by rewrite E1, E2, E3, E4, Hsc, Htb, Htt, Hti.
    + intros _. unfold isCollapsedState, ariaExpanded, ariaHidden, toggleLabel.
      rewrite E1, E2, E3, Hsc, Htb, Htt. simpl. by rewrite A1, A2, A3.
    + done.
  - destruct (panel_lookups_shape _ _ (sameShape_expanded sc tb tt (document p)))
      as (E1 & E2 & E3 & E4 & _).
    destruct (expanded_state sc tb tt (document p)) as (A1 & A2 & A3); [done..|].
    split_and!.
    + unfold panelComplete. by rewrite E1, E2, E3, E4, Hsc, Htb, Htt, Hti.
    + done.
    + intros _. unfold isExpandedState, ariaExpanded, ariaHidden, toggleLabel.
      rewrite E1, E2, E3, Hsc, Htb, Htt. simpl. by rewrite A1, A2, A3.
Qed.

(** C3, as the code has it.  On a page that has the four elements of the
    panel, and whose label has no child element (the icon is not inside the
    label: the toggle assigns the text of the label, which would remove
    it), toggling twice returns [aria-expanded], [aria-hidden] and the
    label to their original values if and only if the panel starts in one
    of the two states the toggle itself produces: expanded ([true], [false],
    [Hide All Sources]) or collapsed ([false], [true], [Show All Sources]).
    From every starting state, the panel is in one of these two states
    after two toggles, the four elements are still found and the label
    still has no child. *)
Theorem toggle_twice p :
  panelComplete (document p) →
  labelIsLeaf (document p) = true →
  let d := document p in
  let d2 := document (toggleSourcesSection (toggleSourcesSection p)) in
  ((ariaExpanded d2 = ariaExpanded d
    ∧ ariaHidden d2 = ariaHidden d
    ∧ toggleLabel d2 = toggleLabel d)
   ↔ (isExpandedState d ∨ isCollapsedState d))
  ∧ (isExpandedState d2 ∨ isCollapsedState d2)
  ∧ panelComplete d2
  ∧ labelIsLeaf (document (toggleSourcesSection p)) = true
  ∧ labelIsLeaf d2 = true.
Proof.
  intros Hc Hleaf d d2.
  destruct (toggle_once p Hc) as (Hc1 & Hcol1 & Hexp1).
  destruct (toggle_once (toggleSourcesSection p) Hc1) as (Hc2 & Hcol2 & Hexp2).
  fold d in Hcol1, Hexp1. fold d2 in Hc2, Hcol2, Hexp2.
  pose proof (labelIsLeaf_toggle p Hleaf) as Hleaf1.
  pose proof (labelIsLeaf_toggle _ Hleaf1) as Hleaf2. fold d2 in Hleaf2.
  destruct (decide (ariaExpanded d = Some "true")) as [Ht|Hf].
  - destruct (Hcol1 Ht) as (B1 & _ & _).
    destruct Hexp2 as (A1 & A2 & A3); [by rewrite B1|].
    split_and!; [|by left|done..].
    rewrite A1, A2, A3. unfold isExpandedState, isCollapsedState. split.
    + intros (<- & <- & <-). by left.
    + intros [(-> & -> & ->)|(E & _)]; [done | congruence].
  - destruct (Hexp1 Hf) as (B1 & _ & _).
    destruct (Hcol2 B1) as (A1 & A2 & A3).
    split_and!; [|by right|done..].
    rewrite A1, A2, A3. unfold isExpandedState, isCollapsedState. split.
    + intros (<- & <- & <-). by right.
    + intros [(E & _)|(-> & -> & ->)]; [congruence | done].
Qed.

Lemma demoPage_panelComplete :
  panelComplete (document (onDOMContentLoaded (load "/" demoPage))).
Proof. repeat split; vm_compute; eauto. Defined.

Lemma toggle_twice_witness :
  let p := onDOMContentLoaded (load "/" demoPage) in
  let d2 := document (toggleSourcesSection (toggleSourcesSection p)) in
  ariaExpanded d2 = ariaExpanded (document p)
  ∧ ariaHidden d2 = ariaHidden (document p)
  ∧ toggleLabel d2 = toggleLabel (document p).
Proof.
  destruct (toggle_twice (onDOMContentLoaded (load "/" demoPage))
              demoPage_panelComplete eq_refl) as [H _].
  apply H. right. repeat split; reflexivity.
Defined.

(** C3 as stated fails from a starting state the toggle does not produce:
    on a page with the four elements whose label has no child, with both
    attributes [true] and the label [More], two toggles leave [aria-hidden]
    at [false] and the label at [Hide All Sources]. *)
Lemma toggle_twice_counterexample :
  let p := load "/" oddPanelPage in
  let d2 := document (toggleSourcesSection (toggleSourcesSection p)) in
  labelIsLeaf (document p) = true
  ∧ (ariaExpanded (document p) = Some "true"
     ∧ ariaHidden (document p) = Some "true"
     ∧ toggleLabel (document p) = Some "More")
  ∧ (ariaExpanded d2 = Some "true"
     ∧ ariaHidden d2 = Some "false"
     ∧ toggleLabel d2 = Some "Hide All Sources").
Proof. repeat split; reflexivity. Qed.

(** ** The panel invariant *)

Lemma toggle_incomplete p :
  ¬ panelComplete (document p) → toggleSourcesSection p = p.
Proof.
  intros Hn. unfold toggleSourcesSection.
  destruct (getElementById _ "sources-content") eqn:E1; [|done].
  destruct (querySelector _ "toggle-sources") eqn:E2; [|done].
  destruct (querySelector _ "toggle-text") eqn:E3; [|done].
  destruct (querySelector _ "toggle-icon") eqn:E4; [|done].
  destruct Hn. unfold panelComplete. rewrite E1, E2, E3, E4. eauto.
Qed.

Lemma panelComplete_dec d : Decision (panelComplete d).
Proof. unfold panelComplete. apply _. Qed.

Lemma toggle_preserves_invariant p :
  panelInvariant (document p) →
  panelInvariant (document (toggleSourcesSection p)).
Proof.
  intros Hinv. destruct (panelComplete_dec (document p)) as [Hc|Hn].
  - destruct (toggle_once p Hc) as (_ & Hcol & Hexp).
    destruct (decide (ariaExpanded (document p) = Some "true")) as [Ht|Hf].
    + destruct (Hcol Ht) as (A1 & A2 & _). by right.
    + destruct (Hexp Hf) as (A1 & A2 & _). by left.
  - by rewrite toggle_incomplete.
Qed.

Lemma getElementById_app_l d l x h :
  getElementById d x = Some h → getElementById (d ++ l) x = Some h.
Proof.
  unfold getElementById. intros H.
  destruct (list_find (hasId x) d) as [[i e]|] eqn:E; [|done].
  by rewrite (list_find_app_l _ _ l _ _ E).
Qed.

Lemma querySelector_app_l d l c h :
  querySelector d c = Some h → querySelector (d ++ l) c = Some h.
Proof.
  unfold querySelector. intros H.
  destruct (list_find (hasClass c) d) as [[i e]|] eqn:E; [|done].
  by rewrite (list_find_app_l _ _ l _ _ E).
Qed.

Lemma sameShape_initializeActiveFilters path d :
  sameShape ["active"] d (initializeActiveFilters path d).
Proof.
  unfold initializeActiveFilters. rewrite !foldl_markIfCurrent.
  eapply sameShape_trans; apply sameShape_foldl_alter, keepsShape_markItem.
Qed.

Lemma getAttribute_initializeActiveFilters path d h k :
  k ≠ "aria-current" →
  getAttribute (initializeActiveFilters path d) h k = getAttribute d h k.
Proof.
  intros Hk. unfold getAttribute. rewrite initializeActiveFilters_lookup.
  destruct (d !! h) as [e|]; [|done]. simpl.
  case_bool_decide; [|done]. unfold markItem. case_match; [|done].
  simpl. by rewrite lookup_insert_ne.
Qed.

(** Initialization sets the panel to its collapsed attributes. *)
Lemma initializeFilterNav_state d sc tb :
  getElementById d "sources-content" = Some sc →
  querySelector d "toggle-sources" = Some tb →
  getElementById (initializeFilterNav d) "sources-content" = Some sc
  ∧ querySelector (initializeFilterNav d) "toggle-sources" = Some tb
  ∧ getAttribute (initializeFilterNav d) tb "aria-expanded" = Some "false"
  ∧ getAttribute (initializeFilterNav d) sc "aria-hidden" = Some "true".
Proof.
  intros Hsc Htb. unfold initializeFilterNav. rewrite Hsc, Htb.
  pose proof (getElementById_lt _ _ _ Hsc).
  pose proof (querySelector_lt _ _ _ Htb).
  assert (Hs : sameShape [] d
                 (setAttribute sc "aria-hidden" "true"
                    (setAttribute tb "aria-expanded" "false" d))).
  { unfold setAttribute.
    apply sameShape_alter; [by apply keepsShape_withAttribute|].
    apply sameShape_alter; [by apply keepsShape_withAttribute|].
    apply sameShape_refl. }
  split_and!.
  - by rewrite <- (getElementById_shape [] _ _ _ Hs).
  - rewrite <- (querySelector_shape [] _ _ _ (not_elem_of_nil _) Hs). done.
  - rewrite getAttribute_setAttribute_ne by done.
    by apply getAttribute_setAttribute_eq.
  - apply getAttribute_setAttribute_eq. unfold setAttribute.
    by rewrite length_alter.
Qed.

Lemma onDOMContentLoaded_document p :
  document (onDOMContentLoaded p)
  = initializeActiveFilters (pathname p)
      (initializeFilterNav (document p) ++ [newBackToTop]).
Proof. reflexivity. Qed.

(** C7.  On a page that has the toggle button and the panel, the
    initializer leaves [aria-expanded] and [aria-hidden] as negations of
    each other ([false] and [true]); so does the whole [DOMContentLoaded]
    handler; every toggle preserves the invariant; hence it holds after
    initialization followed by any number of toggles. *)
Theorem panel_invariant p :
  is_Some (getElementById (document p) "sources-content") →
  is_Some (querySelector (document p) "toggle-sources") →
  panelInvariant (initializeFilterNav (document p))
  ∧ panelInvariant (document (onDOMContentLoaded p))
  ∧ (∀ q, panelInvariant (document q) →
          panelInvariant (document (toggleSourcesSection q)))
  ∧ (∀ n, panelInvariant
            (document (Nat.iter n toggleSourcesSection (onDOMContentLoaded p)))).
Proof.
  intros [sc Hsc] [tb Htb].
  destruct (initializeFilterNav_state _ sc tb Hsc Htb) as (E1 & E2 & A1 & A2).
  assert (Hinit : panelInvariant (initializeFilterNav (document p))).
  { right. unfold ariaExpanded, ariaHidden. rewrite E1, E2. simpl. done. }
  assert (Hload : panelInvariant (document (onDOMContentLoaded p))).
  { right. rewrite onDOMContentLoaded_document.
    set (d1 := initializeFilterNav (document p)) in *.
    pose proof (sameShape_initializeActiveFilters (pathname p)
                  (d1 ++ [newBackToTop])) as Hs.
    unfold ariaExpanded, ariaHidden.
    rewrite <- (querySelector_shape ["active"] _ _ "toggle-sources"
                  ltac:(solve_not_elem) Hs).
    rewrite <- (getElementById_shape ["active"] _ _ "sources-content" Hs).
    rewrite (querySelector_app_l _ _ _ _ E2), (getElementById_app_l _ _ _ _ E1).
    simpl. rewrite !getAttribute_initializeActiveFilters by done.
    rewrite !getAttribute_app
      by eauto using getElementById_lt, querySelector_lt.
    done. }
  split_and!; [done | done | apply toggle_preserves_invariant |].
  intros n. induction n as [|n IH]; [done|].
  simpl. by apply toggle_preserves_invariant.
Qed.

Lemma panel_invariant_witness :
  panelInvariant
    (document
       (Nat.iter 3 toggleSourcesSection
          (onDOMContentLoaded (load "/" demoPage)))).
Proof.
  destruct (panel_invariant (load "/" demoPage)) as (_ & _ & _ & H).
  - vm_compute. eauto.
  - vm_compute. eauto.
  - exact (H 3).
Defined.

(** ** The announcement *)

Lemma getElementById_app_r d l x :
  getElementById d x = None →
  getElementById (d ++ l) x = (λ n, n + length d) <$> getElementById l x.
Proof.
  unfold getElementById. intros H.
  destruct (list_find (hasId x) d) as [[i e]|] eqn:E; [done|].
  rewrite (list_find_app_r _ _ _ E).
  by destruct (list_find (hasId x) l) as [[j e]|].
Qed.

Lemma getElementById_alter f h d x :
  keepsShape [] f → getElementById (alter f h d) x = getElementById d x.
Proof.
  intros Hf. symmetry. apply (getElementById_shape []).
  apply sameShape_alter; [done | apply sameShape_refl].
Qed.

(** [announceSearchResults] leaves the announcement in the live region,
    which it creates when the page has none. *)
Lemma announce_liveText n q d :
  liveText (announceSearchResults n q d) = Some (announcementFor n q).
Proof.
  unfold liveText, announceSearchResults.
  destruct (getElementById d "search-results-live") as [r|] eqn:E.
  - unfold setTextContent at 2.
    rewrite getElementById_alter by apply keepsShape_withTextContent.
    rewrite E. simpl. f_equal. apply getTextContent_setTextContent_eq.
    by apply getElementById_lt in E.
  - cbn [appendChild]. unfold setTextContent at 2.
    rewrite getElementById_alter by apply keepsShape_withTextContent.
    rewrite (getElementById_app_r _ _ _ E).
    change (getElementById [withParent None newLiveRegion]
              "search-results-live") with (Some 0).
    simpl. f_equal. apply getTextContent_setTextContent_eq.
    rewrite length_app. simpl. lia.
Qed.

Lemma filter_pass_count d searchInput allSources :
  getElementById d "source-search" = Some searchInput →
  querySelector d "all-sources" = Some allSources →
  ∃ d1, sameShape [] d d1
    ∧ length d1 = length d
    ∧ originalFilterSources d
      = finishFilter allSources (searchTermOf d searchInput) d1
          (matchCount d searchInput allSources).
Proof.
  intros Hi Hc.
  rewrite (originalFilterSources_unfold d searchInput allSources Hi Hc).
  cbv zeta.
  destruct (filter_loop (searchTermOf d searchInput)
              (querySelectorAllIn d allSources "source-btn") d 0
              (NoDup_querySelectorAllIn _ _ _)) as (d1 & Hf & Hs & Hl).
  exists d1. rewrite Hf. split_and!; [done | | done].
  symmetry. by apply (sameShape_length []).
Qed.

Lemma filter_pass_liveText d searchInput allSources :
  getElementById d "source-search" = Some searchInput →
  querySelector d "all-sources" = Some allSources →
  liveText (originalFilterSources d)
  = Some (announcementFor (matchCount d searchInput allSources)
            (searchTermOf d searchInput)).
Proof.
  intros Hi Hc.
  destruct (filter_pass_count d searchInput allSources Hi Hc)
    as (d1 & _ & _ & ->).
  unfold finishFilter. apply announce_liveText.
Qed.

(** C6.  After a filter pass on a page that has the search field and the
    container, the text of the live region is determined by the normalized
    query and the number of matching source buttons: an empty query gives
    [All sources displayed] whatever the count; otherwise no match gives
    [No sources found], exactly one match [1 source found], and [n > 1]
    matches the decimal numeral of [n] followed by [sources found]. *)
Theorem announcement_text d searchInput allSources :
  getElementById d "source-search" = Some searchInput →
  querySelector d "all-sources" = Some allSources →
  let q := trim (toLowerCase (getValue d searchInput)) in
  let n := length (filter (λ h, isVisible d h q)
                     (querySelectorAllIn d allSources "source-btn")) in
  let text := liveText (originalFilterSources d) in
  (q = "" → text = Some "All sources displayed")
  ∧ (q ≠ "" → n = 0 → text = Some "No sources found")
  ∧ (q ≠ "" → n = 1 → text = Some "1 source found")
  ∧ (q ≠ "" → 1 < n → text = Some (toString n +:+ " sources found"))
  ∧ (q ≠ "" → n = 3 → text = Some "3 sources found").
Proof.
  intros Hi Hc q n text. subst text.
  rewrite (filter_pass_liveText d searchInput allSources Hi Hc).
  change (matchCount d searchInput allSources) with n.
  change (searchTermOf d searchInput) with q.
  unfold announcementFor. split_and!.
  - intros ->. done.
  - intros Hq ->. by rewrite bool_decide_eq_false_2.
  - intros Hq ->. by rewrite bool_decide_eq_false_2.
  - intros Hq Hn. rewrite bool_decide_eq_false_2 by done.
    destruct n as [|[|n]]; [lia | lia | done].
  - intros Hq ->. by rewrite bool_decide_eq_false_2.
Qed.

Lemma announcement_text_witness :
  liveText (originalFilterSources (setValue 4 "news" demoPage))
  = Some "2 sources found".
Proof.
  destruct (announcement_text (setValue 4 "news" demoPage) 4 5
              eq_refl eq_refl) as (_ & _ & _ & H & _).
  apply H; [done | vm_compute; lia].
Defined.

(** ** The message for an empty result *)

Lemma getStyle_setStyle_eq h k v (d : list element) :
  h < length d → getStyle (setStyle h k v d) h k = Some v.
Proof.
  intros H. unfold getStyle, setStyle. rewrite list_lookup_alter_eq.
  destruct (lookup_lt_is_Some_2 d h H) as [e ->]. simpl.
  apply lookup_insert_eq.
Qed.

Lemma querySelectorIn_lt d anc c m :
  querySelectorIn d anc c = Some m → m < length d.
Proof. intros H. eapply querySelectorAllIn_lt, querySelectorIn_elem, H. Qed.

Lemma announce_lookup_other n q d h e :
  d !! h = Some e → ¬ hasId "search-results-live" e →
  announceSearchResults n q d !! h = Some e.
Proof.
  intros E Hid. unfold announceSearchResults, setTextContent.
  destruct (getElementById d "search-results-live") as [r|] eqn:Er.
  - rewrite list_lookup_alter_ne; [done|]. intros ->.
    apply getElementById_hasId in Er. unfold getAttribute in Er.
    rewrite E in Er. by destruct Hid.
  - cbn [appendChild]. apply lookup_lt_Some in E as Hlt.
    rewrite list_lookup_alter_ne by lia. by rewrite lookup_app_l.
Qed.

(** X1.  The display of the message after a filter pass.  The message is the
    first element of class [no-results] in the container or, when the
    container has none and the pass needs one, a new element at the next
    free handle, whose markup carries the escaped search term of this pass.
    The message is shown when the term is not empty and nothing matches,
    and an existing message is hidden otherwise. *)
Lemma no_results_display d searchInput allSources :
  getElementById d "source-search" = Some searchInput →
  querySelector d "all-sources" = Some allSources →
  let q := searchTermOf d searchInput in
  let n := matchCount d searchInput allSources in
  let d' := originalFilterSources d in
  let existing := querySelectorIn d allSources "no-results" in
  (q ≠ "" → n = 0 → ∀ m, existing = Some m →
     getStyle d' m "display" = Some "block")
  ∧ (q ≠ "" → n = 0 → existing = None →
     d' !! length d
     = Some (withStyle "display" "block"
               (withParent (Some allSources) (newNoResultsMsg q))))
  ∧ (q = "" ∨ n ≠ 0 → ∀ m, existing = Some m →
     getStyle d' m "display" = Some "none")
  ∧ (q = "" ∨ n ≠ 0 → existing = None →
     ∀ h e, d' !! h = Some e → ¬ hasClass "no-results" e ∨ h < length d).
Proof.
  intros Hi Hc q n d' existing. subst d'.
  destruct (filter_pass_count d searchInput allSources Hi Hc)
    as (d1 & Hs & Hlen & ->).
  fold q n. unfold finishFilter.
  rewrite <- (querySelectorIn_shape [] d d1 allSources "no-results"
                (not_elem_of_nil _) Hs).
  fold existing.
  assert (Hshow : q ≠ "" → n = 0 →
                  (n =? 0) && negb (bool_decide (q = "")) = true).
  { intros Hq ->. by rewrite bool_decide_eq_false_2. }
  assert (Hhide : q = "" ∨ n ≠ 0 →
                  (n =? 0) && negb (bool_decide (q = "")) = false).
  { intros [->|Hn]; [apply andb_false_r|].
    apply andb_false_iff. left. by apply Nat.eqb_neq. }
  split_and!.
  - intros Hq Hn m Hm. rewrite Hshow, Hm by done.
    pose proof (querySelectorIn_lt _ _ _ _ Hm) as Hlt. rewrite <- Hlen in Hlt.
    rewrite getStyle_announce by (unfold setStyle; by rewrite length_alter).
    by apply getStyle_setStyle_eq.
  - intros Hq Hn Hm. rewrite Hshow, Hm by done. cbn [appendChild].
    apply announce_lookup_other; [|by unfold hasId].
    unfold setStyle. rewrite <- Hlen, list_lookup_alter_eq.
    by rewrite lookup_app_r, Nat.sub_diag by done.
  - intros Hq m Hm. rewrite Hhide, Hm by done.
    pose proof (querySelectorIn_lt _ _ _ _ Hm) as Hlt. rewrite <- Hlen in Hlt.
    rewrite getStyle_announce by (unfold setStyle; by rewrite length_alter).
    by apply getStyle_setStyle_eq.
  - intros Hq Hm h e. rewrite Hhide, Hm by done.
    unfold announceSearchResults, setTextContent.
    destruct (getElementById d1 "search-results-live") as [r|].
    + intros E. right. apply lookup_lt_Some in E.
      by rewrite length_alter, Hlen in E.
    + cbn [appendChild]. intros E.
      destruct (decide (h < length d)) as [?|Hge]; [by right | left].
      pose proof (lookup_lt_Some _ _ _ E) as Hlt.
      rewrite length_alter, length_app in Hlt. simpl in Hlt.
      assert (h = length d1) as -> by lia.
      rewrite list_lookup_alter_eq, lookup_app_r, Nat.sub_diag in E by done.
      simpl in E. injection E as <-.
      unfold hasClass. simpl. apply not_elem_of_nil.
Qed.

Lemma no_results_display_witness :
  originalFilterSources (setValue 4 "zzz" demoPage) !! 9
  = Some (withStyle "display" "block"
            (withParent (Some 5) (newNoResultsMsg "zzz"))).
Proof.
  destruct (no_results_display (setValue 4 "zzz" demoPage) 4 5
              eq_refl eq_refl) as (_ & H & _).
  apply H; [done | vm_compute; reflexivity | reflexivity].
Defined.

(** The markup of a message the pass creates carries the escaped term. *)
Lemma newNoResultsMsg_innerHTML q :
  innerHTML (withStyle "display" "block"
               (withParent (Some 0) (newNoResultsMsg q)))
  = noResultsHTML q.
Proof. reflexivity. Qed.

Example escapeHtml_ex :
  escapeHtml ("<script>" +:+ String dquote (String squote "&"))
  = "&lt;script&gt;&quot;&#039;&amp;".
Proof. reflexivity. Qed.

(** C5: the failing run.  On the example page the user types [zzz], a
    pass runs, then types [qqq], and a pass runs again.  Both terms match
    nothing.  After the second pass the message (handle 9) is displayed, and
    its markup is still the one written for [zzz]: the pass writes the
    markup only when it creates the element. *)
Theorem no_results_message_is_stale :
  let d1 := originalFilterSources (setValue 4 "zzz" demoPage) in
  let d2 := originalFilterSources (setValue 4 "qqq" d1) in
  querySelectorIn d2 5 "no-results" = Some 9
  ∧ getStyle d2 9 "display" = Some "block"
  ∧ searchTermOf d2 4 = "qqq"
  ∧ (innerHTML <$> d2 !! 9) = Some (noResultsHTML "zzz")
  ∧ noResultsHTML "zzz" ≠ noResultsHTML "qqq".
Proof. by split_and!; vm_compute. Qed.

(** ** Missing elements *)

Lemma initializeFilterNav_absent d :
  getElementById d "sources-content" = None
  ∨ querySelector d "toggle-sources" = None →
  initializeFilterNav d = d.
Proof.
  unfold initializeFilterNav. intros [->| ->]; [done|].
  by destruct (getElementById d "sources-content").
Qed.

Lemma toggleSourcesSection_absent p :
  getElementById (document p) "sources-content" = None
  ∨ querySelector (document p) "toggle-sources" = None
  ∨ querySelector (document p) "toggle-text" = None
  ∨ querySelector (document p) "toggle-icon" = None →
  toggleSourcesSection p = p.
Proof.
  intros H. apply toggle_incomplete.
  intros ([? E1] & [? E2] & [? E3] & [? E4]).
  destruct H as [H|[H|[H|H]]]; congruence.
Qed.

Lemma originalFilterSources_absent d :
  getElementById d "source-search" = None
  ∨ querySelector d "all-sources" = None →
  originalFilterSources d = d.
Proof.
  unfold originalFilterSources. intros [->| ->]; [done|].
  by destruct (getElementById d "source-search").
Qed.

Lemma filterSources_document p : document (filterSources p) = document p.
Proof.
  unfold filterSources, clearTimeout. by destruct (searchTimeout p).
Qed.

Lemma runCallback_document_absent cb p :
  getElementById (document p) "source-search" = None
  ∨ querySelector (document p) "all-sources" = None →
  document (runCallback cb p) = document p.
Proof.
  intros H. destruct cb as [si|]; [simpl; by destruct (rendered _ si)|].
  simpl. by apply originalFilterSources_absent.
Qed.

Lemma tick_document_absent p :
  getElementById (document p) "source-search" = None
  ∨ querySelector (document p) "all-sources" = None →
  document (tick p) = document p.
Proof.
  intros H. unfold tick.
  set (p0 := setTimers _ (setNow _ p)).
  assert (Hp0 : document p0 = document p) by done.
  clearbody p0. revert p0 Hp0.
  induction (filter _ (timers p)) as [|x l IH]; intros p0 Hp0; [done|].
  cbn [foldl]. apply IH.
  rewrite runCallback_document_absent; [done | by rewrite Hp0].
Qed.

Lemma elapse_document_absent ms p :
  getElementById (document p) "source-search" = None
  ∨ querySelector (document p) "all-sources" = None →
  document (elapse ms p) = document p.
Proof.
  intros H. unfold elapse. induction ms as [|ms IH]; [done|].
  simpl. rewrite tick_document_absent; [done | by rewrite IH].
Qed.

(** C9.  When a required element is missing, each operation returns its
    input unchanged: the initializer without the panel or the toggle
    button; the toggle without the panel, the button, the label or the
    icon (the whole page state is unchanged, no timer is set); the filter
    pass without the search field or the container.  The exported filter
    operation, which is the debouncing wrapper, only sets a timer, and when
    the timer runs the page is as it was.  All functions of the model are
    total: none of them raises. *)
Theorem absent_elements_no_effect :
  (∀ d, getElementById d "sources-content" = None
        ∨ querySelector d "toggle-sources" = None →
        initializeFilterNav d = d)
  ∧ (∀ p, getElementById (document p) "sources-content" = None
          ∨ querySelector (document p) "toggle-sources" = None
          ∨ querySelector (document p) "toggle-text" = None
          ∨ querySelector (document p) "toggle-icon" = None →
          toggleSourcesSection p = p)
  ∧ (∀ d, getElementById d "source-search" = None
          ∨ querySelector d "all-sources" = None →
          originalFilterSources d = d)
  ∧ (∀ p ms, getElementById (document p) "source-search" = None
             ∨ querySelector (document p) "all-sources" = None →
             document (filterSources p) = document p
             ∧ document (elapse ms (filterSources p)) = document p).
Proof.
  split_and!.
  - apply initializeFilterNav_absent.
  - apply toggleSourcesSection_absent.
  - apply originalFilterSources_absent.
  - intros p ms H. split; [apply filterSources_document|].
    rewrite elapse_document_absent; [apply filterSources_document|].
    by rewrite filterSources_document.
Qed.

Lemma absent_elements_no_effect_witness :
  initializeFilterNav barePage = barePage
  ∧ toggleSourcesSection (load "/" barePage) = load "/" barePage
  ∧ originalFilterSources barePage = barePage
  ∧ document (elapse 200 (filterSources (load "/" barePage))) = barePage.
Proof.
  destruct absent_elements_no_effect as (H1 & H2 & H3 & H4).
  split_and!.
  - apply H1. by left.
  - apply H2. by left.
  - apply H3. by left.
  - apply (H4 (load "/" barePage) 200). by left.
Defined.

(** ** The back-to-top button *)

Lemma Qgtb_spec x y : Qgtb x y = true ↔ (y < x)%Q.
Proof.
  unfold Qgtb. rewrite (Qgt_alt x y).
  destruct (x ?= y)%Q; split; congruence.
Qed.

Lemma hasClassAt_classListAdd d b c :
  b < length d → hasClassAt (classListAdd b c d) c b = true.
Proof.
  intros H. unfold hasClassAt, classListAdd. rewrite list_lookup_alter_eq.
  destruct (lookup_lt_is_Some_2 d b H) as [e ->]. simpl.
  apply bool_decide_eq_true. unfold hasClass, withClass. simpl.
  case_bool_decide; [done|]. apply elem_of_app. right. apply list_elem_of_here.
Qed.

Lemma hasClassAt_classListRemove d b c :
  hasClassAt (classListRemove b c d) c b = false.
Proof.
  unfold hasClassAt, classListRemove. rewrite list_lookup_alter_eq.
  destruct (d !! b) as [e|]; [|done]. simpl.
  apply bool_decide_eq_false. unfold hasClass, withoutClass. simpl.
  rewrite list_elem_of_filter. tauto.
Qed.

Lemma backToTopFrame_shown p i c :
  scrollListeners p !! i = Some c →
  backToTop c < length (document p) →
  isShown (backToTopFrame i p) (backToTop c)
  = Qgtb (pageYOffset p) (inject_Z 300).
Proof.
  intros Hl Hb. unfold backToTopFrame, isShown, classListContains.
  rewrite Hl. cbn [document setScrollListeners setDocument].
  destruct (Qgtb (pageYOffset p) (inject_Z 300)).
  - by apply hasClassAt_classListAdd.
  - apply hasClassAt_classListRemove.
Qed.

(** C8.  Every recomputation (a run of the callback the scroll listener
    hands to [requestAnimationFrame]) leaves the button in the shown state
    if and only if the scroll offset it reads strictly exceeds 300; so the
    button is not shown at 299, shown at 301, and not shown when the offset
    is back at 0; and the recomputation re-arms the listener. *)
Theorem back_to_top_threshold p i c e :
  scrollListeners p !! i = Some c →
  document p !! backToTop c = Some e →
  let p' := backToTopFrame i p in
  (isShown p' (backToTop c) = true ↔ (inject_Z 300 < pageYOffset p)%Q)
  ∧ ((pageYOffset p == inject_Z 299)%Q → isShown p' (backToTop c) = false)
  ∧ ((pageYOffset p == inject_Z 301)%Q → isShown p' (backToTop c) = true)
  ∧ ((pageYOffset p == inject_Z 0)%Q → isShown p' (backToTop c) = false)
  ∧ scrollListeners p' !! i = Some (ScrollClosure (backToTop c) false).
Proof.
  intros Hl He p'. subst p'.
  pose proof (lookup_lt_Some _ _ _ He) as Hb.
  rewrite (backToTopFrame_shown p i c Hl Hb).
  split_and!.
  - apply Qgtb_spec.
  - intros Hy. apply not_true_is_false. rewrite Qgtb_spec, Hy. done.
  - intros Hy. rewrite Qgtb_spec, Hy. done.
  - intros Hy. apply not_true_is_false. rewrite Qgtb_spec, Hy. done.
  - unfold backToTopFrame. rewrite Hl.
    cbn [scrollListeners setScrollListeners setDocument].
    apply list_lookup_insert_eq. by apply lookup_lt_Some in Hl.
Qed.

Lemma back_to_top_threshold_witness :
  let p := scroll (inject_Z 301) (onDOMContentLoaded (load "/" demoPage)) in
  isShown (backToTopFrame 0 p) 9 = true.
Proof.
  destruct (back_to_top_threshold
              (scroll (inject_Z 301) (onDOMContentLoaded (load "/" demoPage)))
              0 (ScrollClosure 9 true)
              (withParent None newBackToTop) eq_refl eq_refl) as (H & _).
  apply H. reflexivity.
Defined.

Lemma length_initializeFilterNav d : length (initializeFilterNav d) = length d.
Proof.
  unfold initializeFilterNav.
  destruct (getElementById d "sources-content"); [|done].
  destruct (querySelector d "toggle-sources"); [|done].
  unfold setAttribute. by rewrite !length_alter.
Qed.

Lemma length_initializeActiveFilters path d :
  length (initializeActiveFilters path d) = length d.
Proof.
  symmetry. apply (sameShape_length ["active"]),
    sameShape_initializeActiveFilters.
Qed.

Lemma onDOMContentLoaded_scrollReady path d :
  scrollReady (length d) (onDOMContentLoaded (load path d)).
Proof.
  unfold scrollReady. split_and!.
  - simpl. by rewrite length_initializeFilterNav.
  - done.
  - apply lookup_lt_is_Some_2. rewrite onDOMContentLoaded_document.
    rewrite length_initializeActiveFilters, length_app.
    simpl. rewrite length_initializeFilterNav. lia.
Qed.

(** A scroll to offset [y] followed by an animation frame: the button is
    shown exactly when [y] exceeds 300, and the page is ready for the next
    scroll. *)
Lemma frame_after_scroll b p y :
  scrollReady b p →
  let p' := animationFrame (scroll y p) in
  scrollReady b p' ∧ isShown p' b = Qgtb y (inject_Z 300).
Proof.
  intros (Hl & Hf & Hb). destruct p as [d a pa y0 t ts ni st sl af hi].
  simpl in Hl, Hf, Hb. subst sl af.
  apply lookup_lt_is_Some_1 in Hb.
  unfold scroll, animationFrame, onScroll, backToTopFrame, scrollReady, isShown.
  simpl. destruct (Qgtb y (inject_Z 300)); simpl.
  - split_and!; [done | done | | ].
    + apply lookup_lt_is_Some_2. unfold classListAdd. by rewrite length_alter.
    + by apply hasClassAt_classListAdd.
  - split_and!; [done | done | | ].
    + apply lookup_lt_is_Some_2. unfold classListRemove.
      by rewrite length_alter.
    + apply hasClassAt_classListRemove.
Qed.

(** X3.  On any page, after loading: scrolled to 299 the button is not shown,
    scrolled on to 301 it is shown, and scrolled back to 0 it is not shown
    again (an animation frame follows each scroll). *)
Lemma back_to_top_trace path d :
  let p0 := onDOMContentLoaded (load path d) in
  let p1 := run [Scroll (inject_Z 299); AnimationFrame] p0 in
  let p2 := run [Scroll (inject_Z 301); AnimationFrame] p1 in
  let p3 := run [Scroll (inject_Z 0); AnimationFrame] p2 in
  isShown p1 (length d) = false
  ∧ isShown p2 (length d) = true
  ∧ isShown p3 (length d) = false.
Proof.
  intros p0. unfold run. cbn [foldl step].
  destruct (frame_after_scroll (length d) p0 (inject_Z 299)
              (onDOMContentLoaded_scrollReady path d)) as [R1 S1].
  destruct (frame_after_scroll (length d) _ (inject_Z 301) R1) as [R2 S2].
  destruct (frame_after_scroll (length d) _ (inject_Z 0) R2) as [R3 S3].
  by rewrite S1, S2, S3.
Qed.

(** ** Timers and the debounced filter *)

Lemma filterRuns_log p t cb :
  filterRuns (setHistory (history p ++ [(t, cb)]) p)
  = filterRuns p ++ (if decide (cb = FilterPass) then [t] else []).
Proof.
  unfold filterRuns. simpl. rewrite filter_app, fmap_app. f_equal.
  rewrite filter_cons, filter_nil. simpl. by destruct (decide (cb = FilterPass)).
Qed.

Lemma runCallback_spec cb p :
  now (runCallback cb p) = now p
  ∧ timers (runCallback cb p) = timers p
  ∧ searchTimeout (runCallback cb p) = searchTimeout p
  ∧ document (runCallback cb p)
    = (if decide (cb = FilterPass)
       then originalFilterSources (document p) else document p)
  ∧ filterRuns (runCallback cb p)
    = filterRuns p ++ (if decide (cb = FilterPass) then [now p] else []).
Proof.
  pose proof (filterRuns_log p (now p) cb) as Hlog.
  destruct cb as [si|]; [simpl; destruct (rendered _ si)|];
    split_and!; try done.
Qed.

(** Running a list of ready timers: the clock, the pending timers and the
    script's variable stay; the store goes through one filter pass per
    filter timer of the list, and each is logged at the current time. *)
Lemma run_ready l p :
  let p' := foldl (λ p x, runCallback (handler x) p) p l in
  let k := length (filter isFilterTimer l) in
  now p' = now p ∧ timers p' = timers p
  ∧ searchTimeout p' = searchTimeout p
  ∧ document p' = Nat.iter k originalFilterSources (document p)
  ∧ filterRuns p' = filterRuns p ++ replicate k (now p).
Proof.
  revert p. induction l as [|x l IH]; intros p; cbn zeta.
  - simpl. by rewrite app_nil_r.
  - cbn [foldl]. destruct (IH (runCallback (handler x) p))
      as (H1 & H2 & H3 & H4 & H5).
    destruct (runCallback_spec (handler x) p) as (R1 & R2 & R3 & R4 & R5).
    rewrite filter_cons.
    destruct (decide (isFilterTimer x)) as [Hx|Hx]; unfold isFilterTimer in Hx.
    + rewrite H1, H2, H3, H4, H5, R1, R2, R3, R4, R5.
      destruct (decide (handler x = FilterPass)); [|done].
      rewrite <- app_assoc. split_and!; [done..| |done].
      cbn [length]. by rewrite Nat.iter_succ_r.
    + rewrite H1, H2, H3, H4, H5, R1, R2, R3, R4, R5.
      destruct (decide (handler x = FilterPass)); [done|].
      by rewrite app_nil_r.
Qed.

(** One tick of the clock. *)
Lemma tick_spec p :
  let t := S (now p) in
  let k := length (filter (λ x, due x ≤ t) (filterTimers p)) in
  now (tick p) = t
  ∧ filterTimers (tick p) = filter (λ x, ¬ due x ≤ t) (filterTimers p)
  ∧ searchTimeout (tick p) = searchTimeout p
  ∧ document (tick p) = Nat.iter k originalFilterSources (document p)
  ∧ filterRuns (tick p) = filterRuns p ++ replicate k t.
Proof.
  cbn zeta. unfold tick.
  set (ready := filter (λ x, due x ≤ S (now p)) (timers p)).
  set (p0 := setTimers _ (setNow _ p)).
  destruct (run_ready ready p0) as (H1 & H2 & H3 & H4 & H5).
  assert (Hk : filter isFilterTimer ready
               = filter (λ x, due x ≤ S (now p)) (filterTimers p)).
  { unfold ready, filterTimers. rewrite !list_filter_filter.
    apply list_filter_iff. tauto. }
  rewrite Hk in H4, H5.
  split_and!; [done | | done | done | done].
  unfold filterTimers at 1. rewrite H2. unfold p0, filterTimers. simpl.
  rewrite !list_filter_filter. apply list_filter_iff. tauto.
Qed.

Lemma elapse_S ms p : elapse (S ms) p = tick (elapse ms p).
Proof. reflexivity. Qed.

(** While the pending filter pass is not due, time passes without a pass. *)
Lemma elapse_before g T p :
  armed T p → now p + g < T →
  let p' := elapse g p in
  now p' = now p + g ∧ armed T p'
  ∧ document p' = document p ∧ filterRuns p' = filterRuns p.
Proof.
  intros Harmed. induction g as [|g IH]; intros Hlt; cbn zeta.
  - split_and!; [simpl; lia | done..].
  - destruct IH as (H1 & (n & H2 & H2') & H3 & H4); [lia|].
    rewrite elapse_S.
    destruct (tick_spec (elapse g p)) as (T1 & T2 & T3 & T4 & T5).
    rewrite H2 in T2, T4, T5. rewrite H1 in T1, T2, T4, T5.
    rewrite filter_cons, filter_nil in T2, T4, T5. simpl in T2, T4, T5.
    rewrite decide_False in T4, T5 by lia.
    rewrite decide_True in T2 by lia.
    simpl in T4, T5. rewrite app_nil_r in T5.
    split_and!; [lia | | congruence | congruence].
    exists n. split; congruence.
Qed.

(** With no filter pass pending, none runs. *)
Lemma elapse_idle g p :
  filterTimers p = [] →
  let p' := elapse g p in
  now p' = now p + g ∧ filterTimers p' = []
  ∧ document p' = document p ∧ filterRuns p' = filterRuns p.
Proof.
  intros Hnone. induction g as [|g IH]; cbn zeta.
  - split_and!; [simpl; lia | done..].
  - destruct IH as (H1 & H2 & H3 & H4).
    rewrite elapse_S.
    destruct (tick_spec (elapse g p)) as (T1 & T2 & T3 & T4 & T5).
    rewrite H2 in T2, T4, T5. rewrite filter_nil in T2, T4, T5.
    simpl in T4, T5. rewrite app_nil_r in T5.
    split_and!; [lia | congruence..].
Qed.

(** The tick at which the pending filter pass is due runs it, once. *)
Lemma tick_fire T p :
  armed T p → S (now p) = T →
  now (tick p) = T ∧ filterTimers (tick p) = []
  ∧ document (tick p) = originalFilterSources (document p)
  ∧ filterRuns (tick p) = filterRuns p ++ [T].
Proof.
  intros (n & H2 & _) Hnow.
  destruct (tick_spec p) as (T1 & T2 & T3 & T4 & T5).
  rewrite H2 in T2, T4, T5. rewrite Hnow in T1, T2, T4, T5.
  rewrite filter_cons, filter_nil in T2, T4, T5. simpl in T2, T4, T5.
  rewrite decide_True in T4, T5 by lia.
  rewrite decide_False in T2 by lia.
  done.
Qed.

(** Once the delay has passed, the pending filter pass has run exactly
    once, at its due time, however much longer one waits. *)
Lemma elapse_fire g T p :
  armed T p → now p < T → T ≤ now p + g →
  let p' := elapse g p in
  now p' = now p + g ∧ filterTimers p' = []
  ∧ document p' = originalFilterSources (document p)
  ∧ filterRuns p' = filterRuns p ++ [T].
Proof.
  intros Harmed Hlt Hge. cbn zeta.
  assert (Hg : g = (now p + g - T) + (1 + (T - now p - 1))) by lia.
  rewrite Hg at 1 3 4 5. unfold elapse. rewrite !Nat.iter_add.
  fold (elapse (T - now p - 1) p).
  destruct (elapse_before (T - now p - 1) T p Harmed) as (B1 & B2 & B3 & B4);
    [lia|].
  cbn [Nat.iter nat_rect].
  destruct (tick_fire T (elapse (T - now p - 1) p) B2) as (F1 & F2 & F3 & F4);
    [lia|].
  fold (elapse (now p + g - T) (tick (elapse (T - now p - 1) p))).
  destruct (elapse_idle (now p + g - T) _ F2) as (I1 & I2 & I3 & I4).
  split_and!; [lia | done | congruence | congruence].
Qed.

Lemma filter_empty {A} (P : A → Prop) `{!∀ x, Decision (P x)} (l : list A) :
  (∀ x, x ∈ l → ¬ P x) → filter P l = [].
Proof.
  intros Hall. induction l as [|x l IH]; [done|].
  rewrite filter_cons, decide_False by (apply Hall, list_elem_of_here).
  apply IH. intros y Hy. by apply Hall, list_elem_of_further.
Qed.

Lemma tracked_no_timers p : timers p = [] → tracked p.
Proof.
  intros H t Ht. unfold filterTimers in Ht. rewrite H in Ht.
  by apply elem_of_nil in Ht.
Qed.

(** An invocation of the debounced filter cancels every pending pass and
    leaves exactly one, due 150 ms from now. *)
Lemma filterSources_spec p :
  tracked p →
  now (filterSources p) = now p
  ∧ armed (now p + 150) (filterSources p)
  ∧ document (filterSources p) = document p
  ∧ filterRuns (filterSources p) = filterRuns p.
Proof.
  intros Htr.
  assert (Hcleared : filterTimers (clearTimeout (searchTimeout p) p) = []).
  { unfold filterTimers, clearTimeout.
    destruct (searchTimeout p) as [i|] eqn:Es; simpl.
    - rewrite list_filter_filter. apply filter_empty.
      intros t Ht [Hf Hne]. apply Hne.
      assert (Hin : t ∈ filterTimers p) by (by apply list_elem_of_filter).
      specialize (Htr t Hin). congruence.
    - apply filter_empty. intros t Ht Hf.
      assert (Hin : t ∈ filterTimers p) by (by apply list_elem_of_filter).
      specialize (Htr t Hin). congruence. }
  unfold filterSources.
  set (p1 := clearTimeout (searchTimeout p) p) in *.
  assert (Hp1 : now p1 = now p ∧ document p1 = document p
                ∧ history p1 = history p).
  { unfold p1, clearTimeout. by destruct (searchTimeout p). }
  destruct Hp1 as (N1 & D1 & Hi1).
  unfold setTimeout. cbn -[filter].
  split_and!; [done | | done | by unfold filterRuns; cbn; rewrite Hi1].
  exists (nextTimerId p1). split; [|done].
  unfold filterTimers in *. cbn -[filter].
  rewrite filter_app, Hcleared, N1. simpl.
  rewrite filter_cons, filter_nil. by rewrite decide_True.
Qed.

Lemma armed_tracked T p : armed T p → tracked p.
Proof.
  intros (n & Hf & Hs) t Ht. rewrite Hf in Ht.
  apply list_elem_of_singleton in Ht as ->. done.
Qed.

Lemma inputValue_inputValue v v' d :
  inputValue v' (inputValue v d) = inputValue v' d.
Proof.
  unfold inputValue.
  destruct (getElementById d "source-search") as [si|] eqn:E.
  - unfold setValue.
    rewrite getElementById_alter, E by apply keepsShape_withValue.
    rewrite list_alter_alter_eq.
    by apply list_alter_ext.
  - by rewrite E.
Qed.

Lemma run_app l1 l2 p : run (l1 ++ l2) p = run l2 (run l1 p).
Proof. apply foldl_app. Qed.

Lemma first_invocation p0 v :
  tracked p0 → afterInvocation p0 v (now p0) (run [Input v; CallFilter] p0).
Proof.
  intros Htr. unfold run. cbn [foldl step].
  destruct (filterSources_spec (input v p0)) as (H1 & H2 & H3 & H4);
    [exact Htr|].
  unfold afterInvocation. by rewrite H1, H3, H4.
Qed.

Lemma next_invocation p0 v t p g v' :
  afterInvocation p0 v t p → g < 150 →
  afterInvocation p0 v' (t + g) (run [Elapse g; Input v'; CallFilter] p).
Proof.
  intros (Hn & Ha & Hd & Hr) Hg. unfold run. cbn [foldl step].
  destruct (elapse_before g (t + 150) p Ha) as (B1 & B2 & B3 & B4); [lia|].
  destruct (filterSources_spec (input v' (elapse g p))) as (H1 & H2 & H3 & H4).
  { apply (armed_tracked (t + 150)). exact B2. }
  unfold afterInvocation. rewrite H1, H3, H4.
  change (now (input v' (elapse g p))) with (now (elapse g p)) in *.
  change (filterRuns (input v' (elapse g p)))
    with (filterRuns (elapse g p)).
  change (document (input v' (elapse g p)))
    with (inputValue v' (document (elapse g p))).
  rewrite B1, Hn in *. rewrite B3, Hd, B4, Hr, inputValue_inputValue.
  done.
Qed.

Lemma lastValue_cons v g v' b : lastValue v ((g, v') :: b) = lastValue v' b.
Proof.
  unfold lastValue. rewrite fmap_cons, last_cons.
  by destruct (last (b.*2)).
Qed.

Lemma burstDuration_cons g v b :
  burstDuration ((g, v) :: b) = g + burstDuration b.
Proof. reflexivity. Qed.

Lemma burst_invocations p0 b :
  ∀ v t p,
    afterInvocation p0 v t p →
    Forall (λ gv, gv.1 < 150) b →
    afterInvocation p0 (lastValue v b) (t + burstDuration b)
      (run (burstEvents b) p).
Proof.
  induction b as [|[g v'] b IH]; intros v t p Ha Hb.
  - unfold burstDuration. simpl. by rewrite Nat.add_0_r.
  - apply Forall_cons in Hb as [Hg Hb]. simpl in Hg.
    change (burstEvents ((g, v') :: b))
      with ([Elapse g; Input v'; CallFilter] ++ burstEvents b).
    rewrite run_app, lastValue_cons.
    replace (t + burstDuration ((g, v') :: b))
      with ((t + g) + burstDuration b) by (rewrite burstDuration_cons; lia).
    apply IH; [|done]. by apply (next_invocation p0 v).
Qed.

(** C4.  A burst of invocations of the debounced filter, each less than
    150 ms after the one before: exactly one filter pass runs, 150 ms after
    the last invocation; it works on the page as the last edit of the
    field left it; and however much longer one waits, no other pass runs
    and none stays pending.  (The page starts with any pending pass known to
    [searchTimeout]; timers run on time.) *)
Theorem debounced_burst p v0 b extra :
  tracked p →
  Forall (λ gv, gv.1 < 150) b →
  let p' := run ([Input v0; CallFilter] ++ burstEvents b
                 ++ [Elapse (150 + extra)]) p in
  let lastInvocation := now p + burstDuration b in
  filterRuns p' = filterRuns p ++ [lastInvocation + 150]
  ∧ document p'
    = originalFilterSources (inputValue (lastValue v0 b) (document p))
  ∧ filterTimers p' = [].
Proof.
  intros Htr Hb. cbn zeta. rewrite !run_app.
  pose proof (first_invocation p v0 Htr) as H0.
  pose proof (burst_invocations p b v0 (now p) _ H0 Hb) as (Hn & Ha & Hd & Hr).
  set (p1 := run (burstEvents b) (run [Input v0; CallFilter] p)) in *.
  change (run [Elapse (150 + extra)] p1) with (elapse (150 + extra) p1).
  destruct (elapse_fire (150 + extra) (now p + burstDuration b + 150) p1 Ha)
    as (F1 & F2 & F3 & F4); [lia..|].
  rewrite F2, F3, F4, Hd, Hr. done.
Qed.

(** ** [tracked] is an invariant of the page

    Filter passes are only ever scheduled by the debouncing wrapper, so on
    every page reached from a fresh load the pending passes are known to
    [searchTimeout]. *)

Lemma tracked_same p p' :
  filterTimers p' = filterTimers p → searchTimeout p' = searchTimeout p →
  tracked p → tracked p'.
Proof. intros Hf Hs Htr t Ht. rewrite Hf in Ht. rewrite Hs. by apply Htr. Qed.

Lemma toggle_timers p :
  filterTimers (toggleSourcesSection p) = filterTimers p
  ∧ searchTimeout (toggleSourcesSection p) = searchTimeout p.
Proof.
  unfold toggleSourcesSection.
  destruct (getElementById _ "sources-content"); [|done].
  destruct (querySelector _ "toggle-sources"); [|done].
  destruct (querySelector _ "toggle-text"); [|done].
  destruct (querySelector _ "toggle-icon"); [|done].
  case_bool_decide; [done|].
  destruct (getElementById _ "source-search"); [|done].
  unfold filterTimers, setTimeout. cbn -[filter].
  rewrite filter_app, filter_cons, filter_nil.
  rewrite decide_False by done. by rewrite app_nil_r.
Qed.

Lemma onScroll_timers i p :
  timers (onScroll i p) = timers p
  ∧ searchTimeout (onScroll i p) = searchTimeout p.
Proof.
  unfold onScroll. destruct (scrollListeners p !! i) as [c|]; [|done].
  by destruct (ticking c).
Qed.

Lemma backToTopFrame_timers i p :
  timers (backToTopFrame i p) = timers p
  ∧ searchTimeout (backToTopFrame i p) = searchTimeout p.
Proof.
  unfold backToTopFrame. by destruct (scrollListeners p !! i) as [c|].
Qed.

Lemma foldl_timers (f : nat → page → page) l p :
  (∀ i p, timers (f i p) = timers p
          ∧ searchTimeout (f i p) = searchTimeout p) →
  timers (foldl (λ p i, f i p) p l) = timers p
  ∧ searchTimeout (foldl (λ p i, f i p) p l) = searchTimeout p.
Proof.
  intros Hf. revert p. induction l as [|i l IH]; intros p; [done|].
  cbn [foldl]. destruct (IH (f i p)) as [-> ->]. apply Hf.
Qed.

Lemma tracked_tick p : tracked p → tracked (tick p).
Proof.
  intros Htr t Ht.
  destruct (tick_spec p) as (_ & T2 & T3 & _).
  rewrite T2 in Ht. apply list_elem_of_filter in Ht as [_ Ht].
  rewrite T3. by apply Htr.
Qed.

Lemma tracked_filterSources p : tracked p → tracked (filterSources p).
Proof.
  intros Htr. destruct (filterSources_spec p Htr) as (_ & Ha & _).
  by apply (armed_tracked (now p + 150)).
Qed.

Lemma tracked_step p ev : tracked p → tracked (step p ev).
Proof.
  intros Htr. destruct ev as [| | |v|key target|y| |ms]; cbn [step].
  - by apply (tracked_same p).
  - destruct (toggle_timers p). by apply (tracked_same p).
  - by apply tracked_filterSources.
  - by apply (tracked_same p).
  - assert (Hesc : ∀ p1, tracked p1 →
                tracked (if bool_decide (key = "Escape") then
                           match getElementById (document p1) "source-search"
                           with
                           | Some searchInput =>
                               if bool_decide (activeElement p1 = Some searchInput)
                               then filterSources
                                      (setDocument
                                         (setValue searchInput "" (document p1))
                                         p1)
                               else p1
                           | None => p1
                           end
                         else p1)).
    { intros p1 Htr1. case_bool_decide; [|done].
      destruct (getElementById (document p1) "source-search"); [|done].
      case_bool_decide; [|done].
      apply tracked_filterSources. by apply (tracked_same p1). }
    unfold onKeydown. cbv zeta.
    destruct ((bool_decide (key = "Enter") || bool_decide (key = " "))
              && classListContains (document p) target "toggle-sources").
    + apply Hesc. destruct (toggle_timers p). by apply (tracked_same p).
    + by apply Hesc.
  - unfold scroll.
    destruct (foldl_timers onScroll
                (seq 0 (length (scrollListeners (setPageYOffset y p))))
                (setPageYOffset y p) onScroll_timers) as [Ht Hs].
    apply (tracked_same p); [|done|done].
    unfold filterTimers. by rewrite Ht.
  - unfold animationFrame.
    destruct (foldl_timers backToTopFrame (animationFrames p)
                (setAnimationFrames [] p) backToTopFrame_timers) as [Ht Hs].
    apply (tracked_same p); [|done|done].
    unfold filterTimers. by rewrite Ht.
  - unfold elapse. induction ms as [|ms IH]; [done|].
    simpl. by apply tracked_tick.
Qed.

(** X4.  On every page reached from a load, every pending filter pass is
    the one [searchTimeout] names: the next invocation of the debounced
    filter cancels it. *)
Lemma tracked_reachable path d evs : tracked (run evs (load path d)).
Proof.
  unfold run.
  assert (H0 : tracked (load path d)) by (by apply tracked_no_timers).
  revert H0. generalize (load path d).
  induction evs as [|ev evs IH]; intros p Hp; [done|].
  cbn [foldl]. by apply IH, tracked_step.
Qed.

Lemma debounced_burst_witness :
  let p := onDOMContentLoaded (load "/" demoPage) in
  let b := [(100, "bb"); (149, "bbc")] in
  let p' := run ([Input "b"; CallFilter] ++ burstEvents b
                 ++ [Elapse (150 + 10)]) p in
  filterRuns p' = filterRuns p ++ [now p + burstDuration b + 150]
  ∧ document p' = originalFilterSources (inputValue (lastValue "b" b) (document p))
  ∧ filterTimers p' = [].
Proof.
  apply (debounced_burst (onDOMContentLoaded (load "/" demoPage)) "b"
           [(100, "bb"); (149, "bbc")] 10).
  - apply tracked_no_timers. reflexivity.
  - repeat constructor; simpl; lia.
Defined.

(** The same burst, evaluated: invocations at 0, 100 and 249 ms give one
    pass, at 399 ms, and it announces the one match of the last value. *)
Example debounced_burst_run :
  let p := onDOMContentLoaded (load "/" demoPage) in
  let p' := run [Input "b"; CallFilter; Elapse 100; Input "bb"; CallFilter;
                 Elapse 149; Input "bbc"; CallFilter; Elapse 160] p in
  filterRuns p' = [399] ∧ liveText (document p') = Some "1 source found".
Proof. split; vm_compute; reflexivity. Qed.

(** ** The Escape key *)

Lemma onKeydown_Escape target p :
  onKeydown "Escape" target p
  = match getElementById (document p) "source-search" with
    | Some searchInput =>
        if bool_decide (activeElement p = Some searchInput)
        then filterSources (input "" p)
        else p
    | None => p
    end.
Proof.
  unfold onKeydown, input, inputValue. simpl.
  destruct (getElementById (document p) "source-search"); done.
Qed.

Lemma getValue_setValue_eq h v (d : list element) :
  h < length d → getValue (setValue h v d) h = v.
Proof.
  intros H. unfold getValue, setValue. rewrite list_lookup_alter_eq.
  by destruct (lookup_lt_is_Some_2 d h H) as [e ->].
Qed.

Lemma sameShape_inputValue v d : sameShape [] d (inputValue v d).
Proof.
  unfold inputValue. destruct (getElementById d "source-search").
  - apply sameShape_alter; [apply keepsShape_withValue | apply sameShape_refl].
  - apply sameShape_refl.
Qed.

(** A filter pass over a page whose search field is empty shows every
    source button of the container. *)
Lemma filter_pass_empty_query d searchInput allSources button :
  getElementById d "source-search" = Some searchInput →
  querySelector d "all-sources" = Some allSources →
  querySelectorIn d allSources "no-results" ≠ Some button →
  button ∈ querySelectorAllIn d allSources "source-btn" →
  let d' := originalFilterSources (inputValue "" d) in
  isDisplayed d' button = true ∧ isAriaHidden d' button = false.
Proof.
  intros Hi Hc Hwf Hb d'. subst d'.
  pose proof (sameShape_inputValue "" d) as Hs.
  assert (Hv : getValue (inputValue "" d) searchInput = "").
  { unfold inputValue. rewrite Hi. apply getValue_setValue_eq.
    by apply getElementById_lt in Hi. }
  destruct (filter_pass_button (inputValue "" d) searchInput allSources button)
    as (Hst & Hat).
  - by rewrite <- (getElementById_shape [] _ _ _ Hs).
  - by rewrite <- (querySelector_shape [] _ _ _ (not_elem_of_nil _) Hs).
  - by rewrite <- (querySelectorIn_shape [] _ _ _ _ (not_elem_of_nil _) Hs).
  - by rewrite <- (querySelectorAllIn_shape [] _ _ _ _ (not_elem_of_nil _) Hs).
  - assert (Hq : searchTermOf (inputValue "" d) searchInput = "")
      by (unfold searchTermOf; by rewrite Hv).
    rewrite Hq in Hst, Hat.
    assert (Hvis : isVisible (inputValue "" d) button "" = true)
      by (unfold isVisible; by rewrite includes_empty).
    rewrite Hvis in Hst, Hat.
    unfold isDisplayed, isAriaHidden. by rewrite Hst, Hat.
Qed.

(** C10.  On Escape, when the search field exists and has the focus, the
    handler empties the field and invokes the debounced filter; 150 ms
    later (nothing else happening, pending passes known to [searchTimeout],
    the container present) the pass has run and every source button of the
    container that is not also its message element is displayed and not
    marked hidden.  When the field is missing or does not have the focus,
    the handler leaves the whole page state as it was. *)
Theorem escape_key :
  (∀ p target searchInput,
     getElementById (document p) "source-search" = Some searchInput →
     activeElement p = Some searchInput →
     let p' := onKeydown "Escape" target p in
     p' = filterSources (input "" p)
     ∧ getValue (document p') searchInput = ""
     ∧ (tracked p → armed (now p + 150) p')
     ∧ (∀ allSources button,
          tracked p →
          querySelector (document p) "all-sources" = Some allSources →
          querySelectorIn (document p) allSources "no-results" ≠ Some button →
          button ∈ querySelectorAllIn (document p) allSources "source-btn" →
          let d' := document (elapse 150 p') in
          isDisplayed d' button = true ∧ isAriaHidden d' button = false))
  ∧ (∀ p target,
       getElementById (document p) "source-search" = None
       ∨ activeElement p ≠ getElementById (document p) "source-search" →
       onKeydown "Escape" target p = p).
Proof.
  split.
  - intros p target searchInput Hi Ha. cbn zeta.
    rewrite onKeydown_Escape, Hi, bool_decide_eq_true_2 by done.
    split_and!.
    + done.
    + rewrite filterSources_document. unfold input, inputValue. simpl.
      rewrite Hi. apply getValue_setValue_eq.
      by apply getElementById_lt in Hi.
    + intros Htr.
      by destruct (filterSources_spec (input "" p) Htr) as (_ & H & _).
    + intros allSources button Htr Hc Hwf Hb.
      destruct (filterSources_spec (input "" p) Htr) as (N & A & D & _).
      change (now (input "" p)) with (now p) in *.
      destruct (elapse_fire 150 (now p + 150) (filterSources (input "" p)) A)
        as (_ & _ & F & _); [lia..|].
      rewrite F, D.
      by apply (filter_pass_empty_query (document p) searchInput allSources).
  - intros p target H. rewrite onKeydown_Escape.
    destruct (getElementById (document p) "source-search") as [si|]; [|done].
    destruct H as [H|H]; [done|].
    by rewrite bool_decide_eq_false_2.
Qed.

Lemma escape_key_witness :
  let p' := onKeydown "Escape" 4 demoSearching in
  isDisplayed (document (elapse 150 p')) 7 = true
  ∧ isAriaHidden (document (elapse 150 p')) 7 = false.
Proof.
  destruct escape_key as [H _].
  assert (Hi : getElementById (document demoSearching) "source-search"
               = Some 4) by (vm_compute; reflexivity).
  assert (Ha : activeElement demoSearching = Some 4)
    by (vm_compute; reflexivity).
  destruct (H demoSearching 4 4 Hi Ha) as (_ & _ & _ & Hall).
  apply (Hall 5 7).
  - apply tracked_no_timers. vm_compute. reflexivity.
  - vm_compute. reflexivity.
  - intros Hm. vm_compute in Hm. discriminate Hm.
  - assert (E : querySelectorAllIn (document demoSearching) 5 "source-btn"
                = [6; 7]) by (vm_compute; reflexivity).
    rewrite E. apply list_elem_of_further, list_elem_of_here.
Defined.

(** Before the key, the pass for [bbc] has hidden the second source. *)
Example escape_key_before :
  isDisplayed (document demoSearching) 7 = false
  ∧ getValue (document demoSearching) 4 = "bbc"
  ∧ activeElement demoSearching = Some 4.
Proof. split_and!; vm_compute; reflexivity. Qed.

(** * Further properties *)

(** ** [escapeHtml] *)

Lemma escapeChar_plain c :
  isHtmlSpecial c = false → escapeChar c = String c EmptyString.
Proof.
  unfold isHtmlSpecial, escapeChar. intros H.
  repeat (apply orb_false_iff in H as [H ?]).
  repeat case_bool_decide; done.
Qed.

Lemma escapeChar_special c :
  isHtmlSpecial c = true →
  ∃ body, body ∈ entityBodies ∧ escapeChar c = String "&" body.
Proof.
  unfold isHtmlSpecial, escapeChar, entityBodies. intros H.
  repeat case_bool_decide; try done; eexists; (split; [|reflexivity]);
    set_solver.
Qed.

Lemma string_app_cons a s t : String a s +:+ t = String a (s +:+ t).
Proof. reflexivity. Qed.

Lemma string_app_assoc s t u : (s +:+ t) +:+ u = s +:+ t +:+ u.
Proof.
  induction s as [|a s IH]; [done|]. by rewrite !string_app_cons, IH.
Qed.

Lemma string_app_nil_r s : s +:+ "" = s.
Proof. induction s as [|a s IH]; [done|]. by rewrite string_app_cons, IH. Qed.

Lemma hasChar_app c s t : hasChar c (s +:+ t) = hasChar c s || hasChar c t.
Proof.
  induction s as [|a s IH]; [done|].
  rewrite string_app_cons. cbn [hasChar]. by rewrite IH, orb_assoc.
Qed.

Lemma escapeHtml_app s t : escapeHtml (s +:+ t) = escapeHtml s +:+ escapeHtml t.
Proof.
  induction s as [|a s IH]; [done|].
  rewrite string_app_cons. cbn [escapeHtml].
  by rewrite IH, string_app_assoc.
Qed.

Lemma hasChar_escapeChar c a :
  isHtmlSpecial c = true → c ≠ "&"%char → hasChar c (escapeChar a) = false.
Proof.
  unfold isHtmlSpecial, escapeChar. intros Hc Hamp.
  repeat case_bool_decide; subst; simpl; repeat case_bool_decide;
    simplify_eq/=; try done.
Qed.

Lemma string_app_nil_l s : "" +:+ s = s.
Proof. reflexivity. Qed.

(** If [c] does not occur in [body], its first occurrence in
    [body +:+ rest] lies in [rest]. *)
Lemma first_occurrence_after c body rest pre post :
  hasChar c body = false →
  body +:+ rest = pre +:+ String c post →
  ∃ pre', pre = body +:+ pre' ∧ rest = pre' +:+ String c post.
Proof.
  revert pre. induction body as [|b body IH]; intros pre Hc H.
  - exists pre. by rewrite !string_app_nil_l in *.
  - cbn [hasChar] in Hc. apply orb_false_iff in Hc as [Hb Hc].
    apply bool_decide_eq_false in Hb.
    rewrite string_app_cons in H. destruct pre as [|p pre].
    + rewrite string_app_nil_l in H. by injection H as -> _.
    + rewrite string_app_cons in H. injection H as -> H.
      destruct (IH pre Hc H) as (pre' & -> & ->).
      by exists pre'.
Qed.

Lemma entityBodies_no_amp body :
  body ∈ entityBodies → hasChar "&" body = false.
Proof.
  unfold entityBodies. rewrite !elem_of_cons, elem_of_nil.
  intros [->|[->|[->|[->|[->|[]]]]]]; reflexivity.
Qed.

(** Every ampersand of the output starts one of the five entities. *)
Lemma escapeHtml_ampersand text pre post :
  escapeHtml text = pre +:+ String "&" post →
  ∃ body rest, body ∈ entityBodies ∧ post = body +:+ rest.
Proof.
  revert pre. induction text as [|a s IH]; intros pre H.
  - destruct pre; discriminate H.
  - cbn [escapeHtml] in H. destruct (isHtmlSpecial a) eqn:Ha.
    + destruct (escapeChar_special a Ha) as (body & Hb & Hbody).
      rewrite Hbody, string_app_cons in H. destruct pre as [|p pre].
      * rewrite string_app_nil_l in H. injection H as <-. by exists body, (escapeHtml s).
      * rewrite string_app_cons in H. injection H as _ H.
        destruct (first_occurrence_after "&" body (escapeHtml s) pre post
                    (entityBodies_no_amp body Hb) H) as (pre' & _ & H').
        by apply (IH pre').
    + rewrite (escapeChar_plain a Ha), string_app_cons, string_app_nil_l in H.
      destruct pre as [|p pre].
      * rewrite string_app_nil_l in H. injection H as -> _.
        by vm_compute in Ha.
      * rewrite string_app_cons in H. injection H as _ H. by apply (IH pre).
Qed.

(** X2.  The output of [escapeHtml] contains no angle bracket, no double
    quote and no apostrophe, and every ampersand in it is the first
    character of one of the five entities the function writes: text escaped
    this way cannot open a tag, close an attribute or start an entity of its
    own. *)
Theorem escapeHtml_safe text :
  hasChar "<" (escapeHtml text) = false
  ∧ hasChar ">" (escapeHtml text) = false
  ∧ hasChar dquote (escapeHtml text) = false
  ∧ hasChar squote (escapeHtml text) = false
  ∧ (∀ pre post,
       escapeHtml text = pre +:+ String "&" post →
       ∃ body rest, body ∈ entityBodies ∧ post = body +:+ rest).
Proof.
  assert (Hno : ∀ c, isHtmlSpecial c = true → c ≠ "&"%char →
                     hasChar c (escapeHtml text) = false).
  { intros c Hc Hamp. induction text as [|a s IH]; [done|].
    cbn [escapeHtml]. by rewrite hasChar_app, hasChar_escapeChar, IH. }
  split_and!; [by apply Hno..|].
  apply escapeHtml_ampersand.
Qed.

Lemma escapeChar_nonempty a : escapeChar a ≠ "".
Proof. unfold escapeChar. by repeat case_bool_decide. Qed.

Lemma escapeChar_prefix_free a b s t :
  escapeChar a +:+ s = escapeChar b +:+ t → a = b ∧ s = t.
Proof.
  intros Heq. unfold escapeChar in Heq.
  repeat case_bool_decide; subst;
    rewrite ?string_app_cons, ?string_app_nil_l in Heq;
    simplify_eq/=; done.
Qed.

(** X5.  [escapeHtml] loses nothing and works character by character:
    different texts have different escaped forms, the escaped form of a
    concatenation is the concatenation of the escaped forms, and a text
    without any of the five characters is returned unchanged. *)
Theorem escapeHtml_faithful :
  (∀ s t, escapeHtml s = escapeHtml t → s = t)
  ∧ (∀ s t, escapeHtml (s +:+ t) = escapeHtml s +:+ escapeHtml t)
  ∧ (∀ s, isPlainText s = true ↔ escapeHtml s = s).
Proof.
  split_and!.
  - intros s. induction s as [|a s IH]; intros [|b t] H; cbn [escapeHtml] in H.
    + done.
    + destruct (escapeChar b) eqn:E; [by apply escapeChar_nonempty in E|].
      discriminate H.
    + destruct (escapeChar a) eqn:E; [by apply escapeChar_nonempty in E|].
      discriminate H.
    + apply escapeChar_prefix_free in H as [-> H]. by rewrite (IH t H).
  - apply escapeHtml_app.
  - intros s. induction s as [|a s IH]; [done|].
    cbn [isPlainText escapeHtml]. rewrite andb_true_iff, negb_true_iff, IH.
    split.
    + intros [Ha ->]. by rewrite (escapeChar_plain a Ha).
    + destruct (isHtmlSpecial a) eqn:Ha.
      * destruct (escapeChar_special a Ha) as (body & Hb & ->).
        rewrite string_app_cons. intros H. injection H as _ H.
        exfalso. pose proof (entityBodies_no_amp body Hb) as Hn.
        assert (Hlen : String.length (body +:+ escapeHtml s)
                       = String.length s) by (by rewrite H).
        clear H Hn IH.
        assert (Hge : ∀ u, String.length u ≤ String.length (escapeHtml u)).
        { induction u as [|c u IHu]; [done|]. cbn [escapeHtml].
          unfold escapeChar. repeat case_bool_decide;
            rewrite ?string_app_cons, ?string_app_nil_l; simpl; lia. }
        assert (Happ : ∀ u v, String.length (u +:+ v)
                              = String.length u + String.length v).
        { induction u as [|c u IHu]; intros v; [done|].
          rewrite string_app_cons. simpl. by rewrite IHu. }
        rewrite Happ in Hlen. specialize (Hge s).
        unfold entityBodies in Hb. rewrite !elem_of_cons, elem_of_nil in Hb.
        destruct Hb as [->|[->|[->|[->|[->|[]]]]]]; simpl in Hlen; lia.
      * rewrite (escapeChar_plain a Ha), string_app_cons, string_app_nil_l.
        intros H. by injection H as ->.
Qed.

(** ** The stripping of a link target and the links it marks *)

Lemma stripLeadingNonSlash_no_slash s :
  hasChar "/" s = false → stripLeadingNonSlash s = "".
Proof.
  induction s as [|a s IH]; [done|]. cbn [hasChar stripLeadingNonSlash].
  intros [Ha Hs]%orb_false_iff. rewrite Ha. by apply IH.
Qed.

(** X6.  What [href.replace(/^[^/]*/, '')] returns: the target without its
    longest slash-free prefix, so either the empty string (the target has
    no slash) or a string that starts with a slash; a target that starts
    with a slash is returned unchanged, and stripping twice is stripping
    once. *)
Theorem stripLeadingNonSlash_spec :
  (∀ s, ∃ pre, s = pre +:+ stripLeadingNonSlash s
               ∧ hasChar "/" pre = false
               ∧ (stripLeadingNonSlash s = ""
                  ∨ ∃ r, stripLeadingNonSlash s = String "/" r))
  ∧ (∀ s, stripLeadingNonSlash s = "" ↔ hasChar "/" s = false)
  ∧ (∀ r, stripLeadingNonSlash (String "/" r) = String "/" r)
  ∧ (∀ s, stripLeadingNonSlash (stripLeadingNonSlash s)
          = stripLeadingNonSlash s).
Proof.
  assert (Hspec : ∀ s, ∃ pre, s = pre +:+ stripLeadingNonSlash s
                              ∧ hasChar "/" pre = false
                              ∧ (stripLeadingNonSlash s = ""
                                 ∨ ∃ r, stripLeadingNonSlash s = String "/" r)).
  { induction s as [|a s (pre & Hs & Hp & Hr)].
    - exists "". split_and!; [done | done | by left].
    - cbn [stripLeadingNonSlash]. case_bool_decide as Ha.
      + subst a. exists "". split_and!; [done | done | right; by exists s].
      + exists (String a pre). rewrite string_app_cons, <- Hs.
        split_and!; [done | | done].
        cbn [hasChar]. by rewrite Hp, bool_decide_eq_false_2. }
  split_and!; [exact Hspec | | done |].
  - intros s. split; [|apply stripLeadingNonSlash_no_slash].
    intros Hs. destruct (Hspec s) as (pre & Heq & Hp & _).
    rewrite Hs, string_app_nil_r in Heq. by rewrite Heq.
  - intros s. destruct (Hspec s) as (_ & _ & _ & [->|[r ->]]); [done|].
    cbn [stripLeadingNonSlash]. by rewrite bool_decide_eq_true_2.
Qed.

Lemma hasChar_substring c s :
  hasChar c s = true → isSubstringOf (String c "") s.
Proof.
  induction s as [|a s IH]; [done|]. cbn [hasChar].
  intros [Ha|Hs]%orb_true_iff.
  - apply bool_decide_eq_true in Ha as ->. by exists "", s.
  - destruct (IH Hs) as (pre & post & ->). by exists (String a pre), post.
Qed.

(** What initialization does to one link, from its [href]. *)
Lemma marking_outcome path d btn e target :
  d !! btn = Some e →
  hasClass "category-btn" e ∨ hasClass "source-btn" e →
  attributes e !! "href" = Some target →
  initializeActiveFilters path d !! btn
  = Some (if truthy (Some target)
             && includes path (stripLeadingNonSlash target)
          then withAttribute "aria-current" "page" (withClass "active" e)
          else e).
Proof.
  intros E Hcls Hhref.
  rewrite initializeActiveFilters_lookup, E. cbn [fmap option_fmap option_map].
  by rewrite bool_decide_eq_true_2, (markItem_current path e target Hhref).
Qed.

(** X7.  Edge cases of the marking that follow from the stripping.  A link
    whose [href] is not empty and has no slash at all (a file name, a
    fragment) is marked on every page, because its stripped target is the
    empty string.  A link whose [href] starts with a slash is compared as it
    is; in particular a link to [/] is marked on every page whose path has a
    slash. *)
Theorem active_links_edge_cases path d btn e target :
  d !! btn = Some e →
  hasClass "category-btn" e ∨ hasClass "source-btn" e →
  attributes e !! "href" = Some target →
  target ≠ "" →
  let d' := initializeActiveFilters path d in
  (hasChar "/" target = false → isActive d' btn = true)
  ∧ (∀ r, target = String "/" r → isActive d btn = false →
          (isActive d' btn = true ↔ isSubstringOf target path))
  ∧ (target = "/" → hasChar "/" path = true → isActive d' btn = true).
Proof.
  intros E Hcls Hhref Hne d'.
  pose proof (marking_outcome path d btn e target E Hcls Hhref) as Hl.
  fold d' in Hl.
  assert (Ht : truthy (Some target) = true) by (by destruct target).
  rewrite Ht in Hl. cbn [andb] in Hl.
  assert (Hmark : includes path (stripLeadingNonSlash target) = true →
                  isActive d' btn = true).
  { intros Hi. rewrite Hi in Hl. by apply (isActive_marked d' btn e). }
  split_and!.
  - intros Hns. apply Hmark.
    by rewrite (stripLeadingNonSlash_no_slash target Hns), includes_empty.
  - intros r -> Hbefore.
    cbn [stripLeadingNonSlash] in *. rewrite bool_decide_eq_true_2 in * by done.
    rewrite <- includes_spec. split; [|apply Hmark].
    destruct (includes path (String "/" r)); [done|].
    intros Hact. unfold isActive, classListContains, hasClassAt, getAttribute in *.
    rewrite Hl in Hact. rewrite E in Hbefore. congruence.
  - intros -> Hp. apply Hmark. apply includes_spec. cbn [stripLeadingNonSlash].
    rewrite bool_decide_eq_true_2 by done. by apply hasChar_substring.
Qed.

Lemma active_links_edge_cases_witness :
  let d := [markup ["category-btn"] [("href", "index.html")] "Home" None;
            markup ["category-btn"] [("href", "/")] "Start" None] in
  isActive (initializeActiveFilters "/category/tech" d) 0 = true
  ∧ isActive (initializeActiveFilters "/category/tech" d) 1 = true.
Proof.
  split.
  - destruct (active_links_edge_cases "/category/tech"
                [markup ["category-btn"] [("href", "index.html")] "Home" None;
                 markup ["category-btn"] [("href", "/")] "Start" None]
                0 (markup ["category-btn"] [("href", "index.html")] "Home" None)
                "index.html" eq_refl (or_introl (list_elem_of_here _ _))
                eq_refl) as (H & _); [done|].
    apply H. reflexivity.
  - reflexivity.
Defined.

(** ** Initialization can be repeated *)

Lemma markItem_classes path e c :
  c ≠ "active" → (c ∈ classList (markItem path e) ↔ c ∈ classList e).
Proof.
  intros Hc. destruct (keepsShape_markItem path e) as (_ & _ & H).
  symmetry. apply H. rewrite not_elem_of_cons. split; [done|].
  apply not_elem_of_nil.
Qed.

Lemma markItem_fields path e :
  textContent (markItem path e) = textContent e
  ∧ value (markItem path e) = value e
  ∧ style (markItem path e) = style e
  ∧ innerHTML (markItem path e) = innerHTML e
  ∧ parentNode (markItem path e) = parentNode e
  ∧ (∀ k, k ≠ "aria-current" →
          attributes (markItem path e) !! k = attributes e !! k)
  ∧ (∀ c, c ∈ classList e → c ∈ classList (markItem path e)).
Proof.
  unfold markItem. case_match; [|done]. simpl. split_and!; try done.
  - intros k Hk. by rewrite lookup_insert_ne.
  - intros c Hc. case_bool_decide; [done|]. apply elem_of_app. by left.
Qed.

(** X8.  [initializeActiveFilters] only ever adds marks.  Running it again
    on its own result changes nothing; a link that is marked stays marked;
    and of every element it leaves the text, the value, the style, the
    parent, every attribute other than [aria-current] and every class other
    than [active] as they were, elements that are neither category nor
    source links being left untouched. *)
Theorem marking_only_adds path d :
  initializeActiveFilters path (initializeActiveFilters path d)
  = initializeActiveFilters path d
  ∧ (∀ btn, isActive d btn = true →
            isActive (initializeActiveFilters path d) btn = true)
  ∧ (∀ h e, d !! h = Some e →
       ∃ e', initializeActiveFilters path d !! h = Some e'
         ∧ textContent e' = textContent e ∧ value e' = value e
         ∧ style e' = style e ∧ parentNode e' = parentNode e
         ∧ (∀ k, k ≠ "aria-current" → attributes e' !! k = attributes e !! k)
         ∧ (∀ c, c ≠ "active" → (c ∈ classList e' ↔ c ∈ classList e))
         ∧ (¬ (hasClass "category-btn" e ∨ hasClass "source-btn" e) →
            e' = e)).
Proof.
  split_and!.
  - apply list_eq. intros i. rewrite !initializeActiveFilters_lookup.
    destruct (d !! i) as [e|]; [|done]. cbn [fmap option_fmap option_map].
    f_equal.
    destruct (decide (hasClass "category-btn" e ∨ hasClass "source-btn" e))
      as [Hc|Hc].
    + rewrite (bool_decide_eq_true_2 _ Hc).
      rewrite bool_decide_eq_true_2; [apply markItem_idemp|].
      unfold hasClass in *. by rewrite !markItem_classes.
    + rewrite (bool_decide_eq_false_2 _ Hc).
      by rewrite (bool_decide_eq_false_2 _ Hc).
  - intros btn. unfold isActive, classListContains, hasClassAt, getAttribute.
    rewrite initializeActiveFilters_lookup.
    destruct (d !! btn) as [e|]; [|done]. cbn [fmap option_fmap option_map mbind option_bind].
    destruct (decide (hasClass "category-btn" e ∨ hasClass "source-btn" e))
      as [Hcs|Hcs];
      [rewrite (bool_decide_eq_true_2 _ Hcs)
      |by rewrite (bool_decide_eq_false_2 _ Hcs)].
    destruct (markItem_fields path e) as (_ & _ & _ & _ & _ & _ & Hcls).
    intros [Ha Hc]%andb_true_iff.
    apply bool_decide_eq_true in Ha, Hc.
    apply andb_true_iff. split; apply bool_decide_eq_true.
    + by apply Hcls.
    + unfold markItem. case_match; [|done]. simpl. apply lookup_insert_eq.
  - intros h e E. rewrite initializeActiveFilters_lookup, E.
    cbn [fmap option_fmap option_map]. eexists. split; [reflexivity|].
    case_bool_decide as Hc.
    + destruct (markItem_fields path e) as (H1 & H2 & H3 & H4 & H5 & H6 & H7).
      split_and!; try done. intros c Hne. by apply markItem_classes.
    + by split_and!.
Qed.

(** ** What a toggle changes *)

Lemma hasClassAt_alter_keep f h h' c (d : list element) :
  (∀ e, classList (f e) = classList e) →
  hasClassAt (alter f h' d) c h = hasClassAt d c h.
Proof.
  intros Hf. unfold hasClassAt. destruct (decide (h' = h)) as [->|Hne].
  - rewrite list_lookup_alter_eq. destruct (d !! h) as [e|]; simpl; [|done].
    apply bool_decide_ext. unfold hasClass. by rewrite (Hf e).
  - by rewrite list_lookup_alter_ne.
Qed.

Lemma collapsed_other sc tb tt d h :
  h ≠ sc → h ≠ tb → h ≠ tt → collapsed sc tb tt d !! h = d !! h.
Proof.
  intros. unfold collapsed, setTextContent, setAttribute, classListRemove,
    setStyle. by rewrite !list_lookup_alter_ne.
Qed.

Lemma expanded_other sc tb tt d h :
  h ≠ sc → h ≠ tb → h ≠ tt → expanded sc tb tt d !! h = d !! h.
Proof.
  intros. unfold expanded, setTextContent, setAttribute, classListAdd,
    setStyle. by rewrite !list_lookup_alter_ne.
Qed.

Lemma collapsed_panel sc tb tt d :
  sc < length d →
  getStyle (collapsed sc tb tt d) sc "display" = Some "none"
  ∧ hasClassAt (collapsed sc tb tt d) "show" sc = false.
Proof.
  intros Hsc. unfold collapsed, setTextContent, setAttribute. split.
  - rewrite !getStyle_alter_keep by done. unfold classListRemove.
    rewrite getStyle_alter_keep by done. by apply getStyle_setStyle_eq.
  - rewrite !hasClassAt_alter_keep by done. apply hasClassAt_classListRemove.
Qed.

Lemma expanded_panel sc tb tt d :
  sc < length d →
  getStyle (expanded sc tb tt d) sc "display" = Some "block"
  ∧ hasClassAt (expanded sc tb tt d) "show" sc = true.
Proof.
  intros Hsc. unfold expanded, setTextContent, setAttribute. split.
  - rewrite !getStyle_alter_keep by done. unfold classListAdd.
    rewrite getStyle_alter_keep by done. by apply getStyle_setStyle_eq.
  - rewrite !hasClassAt_alter_keep by done. apply hasClassAt_classListAdd.
    unfold setStyle. by rewrite length_alter.
Qed.

Lemma toggle_timers_exact p sc tb tt ti :
  getElementById (document p) "sources-content" = Some sc →
  querySelector (document p) "toggle-sources" = Some tb →
  querySelector (document p) "toggle-text" = Some tt →
  querySelector (document p) "toggle-icon" = Some ti →
  timers (toggleSourcesSection p)
  = if bool_decide (getAttribute (document p) tb "aria-expanded" = Some "true")
    then timers p
    else timers p
         ++ match getElementById (document p) "source-search" with
            | Some searchInput =>
                [Timer (nextTimerId p) (now p + 300) (FocusSearch searchInput)]
            | None => []
            end.
Proof.
  intros H1 H2 H3 H4. unfold toggleSourcesSection.
  rewrite H1, H2, H3, H4. case_bool_decide; [done|].
  destruct (panel_lookups_shape _ _ (sameShape_expanded sc tb tt (document p)))
    as (_ & _ & _ & _ & E5).
  unfold expanded in E5. rewrite E5.
  destruct (getElementById (document p) "source-search"); [done|].
  simpl. by rewrite app_nil_r.
Qed.

(** X9.  What a toggle changes on a page that has the four elements and
    whose label has no child element (assigning its text then removes
    nothing).  It touches the panel, the button and the label and no other
    element, and adds or removes none.  Collapsing sets the panel's display
    to [none], removes its class [show] and sets no timer; expanding sets
    the display to [block], adds the class and, when the page has the
    search field, sets exactly one timer, due 300 ms later, that will call
    [focus] on the field. *)
Theorem toggle_effects p sc tb tt ti :
  getElementById (document p) "sources-content" = Some sc →
  querySelector (document p) "toggle-sources" = Some tb →
  querySelector (document p) "toggle-text" = Some tt →
  querySelector (document p) "toggle-icon" = Some ti →
  isLeaf (document p) tt = true →
  let p' := toggleSourcesSection p in
  (∀ h, h ≠ sc → h ≠ tb → h ≠ tt → document p' !! h = document p !! h)
  ∧ length (document p') = length (document p)
  ∧ (ariaExpanded (document p) = Some "true" →
     getStyle (document p') sc "display" = Some "none"
     ∧ hasClassAt (document p') "show" sc = false
     ∧ timers p' = timers p)
  ∧ (ariaExpanded (document p) ≠ Some "true" →
     getStyle (document p') sc "display" = Some "block"
     ∧ hasClassAt (document p') "show" sc = true
     ∧ timers p'
       = timers p
         ++ match getElementById (document p) "source-search" with
            | Some searchInput =>
                [Timer (nextTimerId p) (now p + 300) (FocusSearch searchInput)]
            | None => []
            end).
Proof.
  intros H1 H2 H3 H4 _ p'. subst p'.
  pose proof (toggle_timers_exact p sc tb tt ti H1 H2 H3 H4) as Ht.
  rewrite (toggle_document p sc tb tt ti H1 H2 H3 H4).
  pose proof (getElementById_lt _ _ _ H1) as Hsc.
  assert (Hexp : ariaExpanded (document p)
                 = getAttribute (document p) tb "aria-expanded").
  { unfold ariaExpanded. by rewrite H2. }
  rewrite Hexp. case_bool_decide as Hb.
  - destruct (collapsed_panel sc tb tt (document p) Hsc) as [C1 C2].
    split_and!; [| |done|done].
    + intros h ???. by apply collapsed_other.
    + symmetry. apply (sameShape_length ["show"]), sameShape_collapsed.
  - destruct (expanded_panel sc tb tt (document p) Hsc) as [C1 C2].
    split_and!; [| |done|done].
    + intros h ???. by apply expanded_other.
    + symmetry. apply (sameShape_length ["show"]), sameShape_expanded.
Qed.

Lemma toggle_effects_witness :
  let p := onDOMContentLoaded (load "/" demoPage) in
  let p' := toggleSourcesSection p in
  getStyle (document p') 3 "display" = Some "block"
  ∧ hasClassAt (document p') "show" 3 = true
  ∧ timers p' = [Timer 0 300 (FocusSearch 4)].
Proof.
  destruct (toggle_effects (onDOMContentLoaded (load "/" demoPage)) 3 0 1 2
              eq_refl eq_refl eq_refl eq_refl eq_refl) as (_ & _ & _ & H).
  apply H. vm_compute. discriminate.
Defined.

(** ** The deferred focus *)

Lemma tick_timers p :
  now (tick p) = S (now p)
  ∧ timers (tick p) = filter (λ x, ¬ due x ≤ S (now p)) (timers p).
Proof.
  unfold tick.
  destruct (run_ready (filter (λ x, due x ≤ S (now p)) (timers p))
              (setTimers (filter (λ x, ¬ due x ≤ S (now p)) (timers p))
                 (setNow (S (now p)) p))) as (H1 & H2 & _).
  by rewrite H1, H2.
Qed.

Lemma elapse_timers g p :
  now (elapse g p) = now p + g
  ∧ timers (elapse (S g) p)
    = filter (λ x, ¬ due x ≤ now p + S g) (timers p).
Proof.
  induction g as [|g [IH1 IH2]].
  - split; [simpl; lia|]. rewrite elapse_S.
    destruct (tick_timers (elapse 0 p)) as [_ ->]. simpl.
    apply list_filter_iff. intros x. by rewrite Nat.add_1_r.
  - assert (Hn : now (elapse (S g) p) = now p + S g).
    { rewrite elapse_S. destruct (tick_timers (elapse g p)) as [-> _]. lia. }
    split; [done|]. rewrite (elapse_S (S g)).
    destruct (tick_timers (elapse (S g) p)) as [_ ->].
    rewrite IH2, Hn, list_filter_filter. apply list_filter_iff.
    intros x. split; [intros [? _]|intros ?; split]; lia.
Qed.

(** X10.  The deferred call of [focus].  After the panel is expanded on a
    page that has the search field, and with no other event in the
    meantime, the callback [() => searchInput.focus()] stays pending for the
    whole 300 ms, is no longer pending after them, and is the last callback
    the event loop has run by then, at exactly that time: whatever other
    timers were due, it ran after them.  (Time is the clock of the event
    loop above, on which a timer runs at the millisecond it is due; whether
    the browser then grants the focus is not part of the statement.) *)
Theorem toggle_focus p searchInput :
  panelComplete (document p) →
  ariaExpanded (document p) ≠ Some "true" →
  getElementById (document p) "source-search" = Some searchInput →
  let p' := toggleSourcesSection p in
  let t := Timer (nextTimerId p) (now p + 300) (FocusSearch searchInput) in
  (∀ ms, ms < 300 → t ∈ timers (elapse ms p'))
  ∧ (t ∉ timers (elapse 300 p'))
  ∧ last (history (elapse 300 p'))
    = Some (now p + 300, FocusSearch searchInput).
Proof.
  intros ([sc H1] & [tb H2] & [tt H3] & [ti H4]) Hexp Hsi. cbv zeta.
  pose proof (toggle_timers_exact p sc tb tt ti H1 H2 H3 H4) as Ht.
  assert (Hn : now (toggleSourcesSection p) = now p).
  { unfold toggleSourcesSection. rewrite H1, H2, H3, H4.
    case_bool_decide; [done|].
    match goal with
    | |- context [getElementById ?d "source-search"] =>
        by destruct (getElementById d "source-search")
    end. }
  rewrite bool_decide_eq_false_2, Hsi in Ht.
  2: { intros Hb. apply Hexp. unfold ariaExpanded. by rewrite H2. }
  set (p1 := toggleSourcesSection p) in *.
  set (t := Timer (nextTimerId p) (now p + 300) (FocusSearch searchInput))
    in *.
  split_and!.
  - intros [|g] Hms.
    + simpl. rewrite Ht. apply elem_of_app. right. apply list_elem_of_here.
    + destruct (elapse_timers g p1) as [_ ->].
      apply list_elem_of_filter. split; [simpl; lia|].
      rewrite Ht. apply elem_of_app. right. apply list_elem_of_here.
  - destruct (elapse_timers 299 p1) as [_ ->].
    rewrite list_elem_of_filter. intros [Hdue _]. simpl in Hdue. lia.
  - rewrite (elapse_S 299).
    destruct (elapse_timers 298 p1) as [_ Ht2].
    destruct (elapse_timers 299 p1) as [Hn2 _].
    set (p2 := elapse 299 p1) in *.
    rewrite Ht, filter_app, filter_cons, filter_nil in Ht2.
    cbn [due t] in Ht2. rewrite decide_True in Ht2 by lia.
    unfold tick. rewrite Ht2, !filter_app, Hn2.
    rewrite (filter_cons (λ x, due x ≤ _)), filter_nil. cbn [due t].
    rewrite decide_True by lia.
    rewrite foldl_app. cbn [foldl handler t].
    match goal with
    | |- context [runCallback _ (foldl ?f ?p0 ?l)] =>
        destruct (run_ready l p0) as (Hnow & _); cbv zeta in Hnow;
        set (p3 := foldl f p0 l) in *
    end.
    cbn [now setTimers setNow] in Hnow.
    unfold runCallback. cbv zeta.
    destruct (rendered _ searchInput); cbn [history setActiveElement setHistory];
      rewrite last_snoc, Hnow; do 2 f_equal; lia.
Qed.

Lemma toggle_focus_witness :
  last (history
          (elapse 300
             (toggleSourcesSection (onDOMContentLoaded (load "/" demoPage)))))
  = Some (300, FocusSearch 4).
Proof.
  destruct (toggle_focus (onDOMContentLoaded (load "/" demoPage)) 4)
    as (_ & _ & H).
  - apply demoPage_panelComplete.
  - vm_compute. discriminate.
  - vm_compute. reflexivity.
  - exact H.
Defined.

(** ** The keyboard *)

(** X11.  The key handler case by case: Enter or Space on an element of
    class [toggle-sources] is a toggle; Enter or Space anywhere else, and
    every key other than Enter, Space and Escape, leaves the page as it
    is. *)
Theorem keydown_cases key target p :
  (key = "Enter" ∨ key = " " →
   classListContains (document p) target "toggle-sources" = true →
   onKeydown key target p = toggleSourcesSection p)
  ∧ (key = "Enter" ∨ key = " " →
     classListContains (document p) target "toggle-sources" = false →
     onKeydown key target p = p)
  ∧ (key ≠ "Enter" → key ≠ " " → key ≠ "Escape" →
     onKeydown key target p = p).
Proof.
  unfold onKeydown. split_and!.
  - intros Hk Hc. rewrite Hc.
    assert (bool_decide (key = "Enter") || bool_decide (key = " ") = true)
      as ->.
    { destruct Hk as [->| ->]; reflexivity. }
    cbn [andb]. assert (key ≠ "Escape") by (by destruct Hk as [->| ->]).
    by rewrite bool_decide_eq_false_2.
  - intros Hk Hc. rewrite Hc, andb_false_r.
    assert (key ≠ "Escape") by (by destruct Hk as [->| ->]).
    by rewrite bool_decide_eq_false_2.
  - intros H1 H2 H3.
    by rewrite !bool_decide_eq_false_2.
Qed.

(** ** Scroll events between two animation frames *)

Lemma scroll_from_ready b p y :
  scrollReady b p →
  scrollArmed b (scroll y p)
  ∧ pageYOffset (scroll y p) = y ∧ document (scroll y p) = document p.
Proof.
  intros (Hl & Hf & Hb). destruct p as [d a pa y0 t ts ni st sl af hi].
  simpl in Hl, Hf, Hb. subst sl af. by unfold scroll, onScroll, scrollArmed.
Qed.

Lemma scroll_from_armed b p y :
  scrollArmed b p →
  scrollArmed b (scroll y p)
  ∧ pageYOffset (scroll y p) = y ∧ document (scroll y p) = document p.
Proof.
  intros (Hl & Hf & Hb). destruct p as [d a pa y0 t ts ni st sl af hi].
  simpl in Hl, Hf, Hb. subst sl af. by unfold scroll, onScroll, scrollArmed.
Qed.

Lemma frame_from_armed b p :
  scrollArmed b p →
  scrollReady b (animationFrame p)
  ∧ isShown (animationFrame p) b = Qgtb (pageYOffset p) (inject_Z 300).
Proof.
  intros (Hl & Hf & Hb). destruct p as [d a pa y0 t ts ni st sl af hi].
  simpl in Hl, Hf, Hb. subst sl af. apply lookup_lt_is_Some_1 in Hb.
  unfold animationFrame, backToTopFrame, scrollReady, isShown. simpl.
  destruct (Qgtb y0 (inject_Z 300)); simpl.
  - split_and!; [done | done | | ].
    + apply lookup_lt_is_Some_2. unfold classListAdd. by rewrite length_alter.
    + by apply hasClassAt_classListAdd.
  - split_and!; [done | done | | ].
    + apply lookup_lt_is_Some_2. unfold classListRemove.
      by rewrite length_alter.
    + apply hasClassAt_classListRemove.
Qed.

Lemma frame_from_ready b p : scrollReady b p → animationFrame p = p.
Proof.
  intros (Hl & Hf & Hb). destruct p as [d a pa y0 t ts ni st sl af hi].
  simpl in Hl, Hf, Hb. by subst sl af.
Qed.

Lemma scrolls_from_armed b ys p :
  scrollArmed b p →
  let p' := run (Scroll <$> ys) p in
  scrollArmed b p' ∧ document p' = document p
  ∧ pageYOffset p' = default (pageYOffset p) (last ys).
Proof.
  revert p. induction ys as [|y ys IH]; intros p Ha; [done|].
  cbn [fmap list_fmap]. unfold run. cbn [foldl step].
  destruct (scroll_from_armed b p y Ha) as (Ha' & Hy & Hd).
  destruct (IH (scroll y p) Ha') as (A & D & Y).
  unfold run in A, D, Y. split_and!; [done | congruence |].
  rewrite Y, Hy, last_cons. by destruct (last ys).
Qed.

(** X12.  Frame coalescing.  However many scroll events arrive before the
    next animation frame, one recomputation is pending and the button is
    not touched; the frame then leaves the button shown if and only if the
    offset of the last scroll exceeds 300, and the listener is ready
    again.  A frame with no scroll before it changes nothing. *)
Theorem scroll_coalescing b p ys y :
  scrollReady b p →
  let p' := run (Scroll <$> (ys ++ [y])) p in
  animationFrames p' = [0]
  ∧ document p' = document p
  ∧ (isShown (animationFrame p') b = true ↔ (inject_Z 300 < y)%Q)
  ∧ scrollReady b (animationFrame p')
  ∧ animationFrame p = p.
Proof.
  intros Hr. cbn zeta.
  assert (Hrun : ∀ zs q, scrollReady b q ∨ scrollArmed b q →
            scrollArmed b (run (Scroll <$> (zs ++ [y])) q)
            ∧ document (run (Scroll <$> (zs ++ [y])) q) = document q
            ∧ pageYOffset (run (Scroll <$> (zs ++ [y])) q) = y).
  { intros zs q Hq.
    destruct zs as [|z zs]; cbn [app fmap list_fmap]; unfold run;
      cbn [foldl step].
    - destruct Hq as [Hq|Hq];
        [destruct (scroll_from_ready b q y Hq) as (? & ? & ?)
        |destruct (scroll_from_armed b q y Hq) as (? & ? & ?)]; done.
    - assert (Ha : scrollArmed b (scroll z q)
                   ∧ document (scroll z q) = document q).
      { destruct Hq as [Hq|Hq];
          [destruct (scroll_from_ready b q z Hq) as (? & _ & ?)
          |destruct (scroll_from_armed b q z Hq) as (? & _ & ?)]; done. }
      destruct Ha as [Ha Hd].
      destruct (scrolls_from_armed b (zs ++ [y]) (scroll z q) Ha)
        as (A & D & Y).
      unfold run in A, D, Y. split_and!; [done | congruence |].
      by rewrite Y, last_snoc. }
  destruct (Hrun ys p (or_introl Hr)) as (Ha & Hd & Hy).
  destruct (frame_from_armed b _ Ha) as [Hready Hshown].
  split_and!.
  - by destruct Ha as (_ & ? & _).
  - done.
  - rewrite Hshown, Hy. apply Qgtb_spec.
  - done.
  - by apply (frame_from_ready b).
Qed.

Lemma scroll_coalescing_witness :
  let p := onDOMContentLoaded (load "/" demoPage) in
  let p' := run (Scroll <$> ([inject_Z 120; inject_Z 640] ++ [inject_Z 301]))
                p in
  animationFrames p' = [0]
  ∧ document p' = document p
  ∧ (isShown (animationFrame p') 9 = true ↔ (inject_Z 300 < inject_Z 301)%Q)
  ∧ scrollReady 9 (animationFrame p')
  ∧ animationFrame p = p.
Proof.
  apply (scroll_coalescing 9 (onDOMContentLoaded (load "/" demoPage))
           [inject_Z 120; inject_Z 640] (inject_Z 301)).
  apply (onDOMContentLoaded_scrollReady "/" demoPage).
Defined.

(** ** The scroll listener on every reachable page *)

Lemma length_announce_ge n q d :
  length d ≤ length (announceSearchResults n q d).
Proof.
  unfold announceSearchResults, setTextContent.
  destruct (getElementById d "search-results-live"); cbn [appendChild];
    rewrite length_alter, ?length_app; lia.
Qed.

Lemma length_finishFilter_ge c q d n :
  length d ≤ length (finishFilter c q d n).
Proof.
  unfold finishFilter. etrans; [|apply length_announce_ge].
  destruct (querySelectorIn d c "no-results");
    destruct ((n =? 0) && negb (bool_decide (q = ""))); cbn [appendChild];
    unfold setStyle; rewrite ?length_alter, ?length_app; lia.
Qed.

Lemma length_originalFilterSources_ge d :
  length d ≤ length (originalFilterSources d).
Proof.
  destruct (getElementById d "source-search") as [si|] eqn:Hi;
    [|by rewrite originalFilterSources_absent by (by left)].
  destruct (querySelector d "all-sources") as [c|] eqn:Hc;
    [|by rewrite originalFilterSources_absent by (by right)].
  destruct (filter_pass_count d si c Hi Hc) as (d1 & _ & Hlen & ->).
  rewrite <- Hlen. apply length_finishFilter_ge.
Qed.

Lemma sameScroll_refl p : sameScroll p p.
Proof. by split_and!. Qed.

Lemma sameScroll_trans p1 p2 p3 :
  sameScroll p1 p2 → sameScroll p2 p3 → sameScroll p1 p3.
Proof.
  intros (L1 & F1 & N1) (L2 & F2 & N2). split_and!; [congruence..|lia].
Qed.

Lemma sameScroll_toggle p : sameScroll p (toggleSourcesSection p).
Proof.
  unfold toggleSourcesSection.
  destruct (getElementById _ "sources-content"); [|apply sameScroll_refl].
  destruct (querySelector _ "toggle-sources"); [|apply sameScroll_refl].
  destruct (querySelector _ "toggle-text"); [|apply sameScroll_refl].
  destruct (querySelector _ "toggle-icon"); [|apply sameScroll_refl].
  case_bool_decide.
  - split_and!; [done..|]. cbn [document setDocument].
    unfold setTextContent, setAttribute, classListRemove, setStyle.
    by rewrite !length_alter.
  - match goal with
    | |- context [getElementById ?d "source-search"] =>
        destruct (getElementById d "source-search")
    end; (split_and!; [done..|]); cbn;
      unfold setTextContent, setAttribute, classListAdd, setStyle;
      by rewrite !length_alter.
Qed.

Lemma sameScroll_filterSources p : sameScroll p (filterSources p).
Proof.
  unfold filterSources, clearTimeout.
  destruct (searchTimeout p); by split_and!.
Qed.

Lemma sameScroll_input v p : sameScroll p (input v p).
Proof.
  unfold input, inputValue. split_and!; [done..|]. cbn [document setDocument].
  destruct (getElementById (document p) "source-search"); [|done].
  unfold setValue. by rewrite length_alter.
Qed.

Lemma sameScroll_runCallback cb p : sameScroll p (runCallback cb p).
Proof.
  destruct cb as [si|];
    [simpl; by destruct (rendered _ si)|split_and!; [done..|]].
  apply length_originalFilterSources_ge.
Qed.

Lemma sameScroll_tick p : sameScroll p (tick p).
Proof.
  unfold tick.
  set (p0 := setTimers _ (setNow _ p)).
  assert (H0 : sameScroll p p0) by (by split_and!).
  clearbody p0. revert p0 H0.
  induction (filter _ (timers p)) as [|x l IH]; intros p0 H0; [done|].
  cbn [foldl]. apply IH.
  eapply sameScroll_trans; [exact H0 | apply sameScroll_runCallback].
Qed.

Lemma sameScroll_elapse ms p : sameScroll p (elapse ms p).
Proof.
  induction ms as [|ms IH]; [apply sameScroll_refl|].
  rewrite elapse_S. eapply sameScroll_trans; [exact IH | apply sameScroll_tick].
Qed.

Lemma sameScroll_onKeydown key target p : sameScroll p (onKeydown key target p).
Proof.
  unfold onKeydown. cbv zeta.
  assert (Hesc : ∀ p1, sameScroll p p1 →
            sameScroll p
              (if bool_decide (key = "Escape") then
                 match getElementById (document p1) "source-search" with
                 | Some searchInput =>
                     if bool_decide (activeElement p1 = Some searchInput)
                     then filterSources
                            (setDocument
                               (setValue searchInput "" (document p1)) p1)
                     else p1
                 | None => p1
                 end
               else p1)).
  { intros p1 H1. case_bool_decide; [|done].
    destruct (getElementById (document p1) "source-search"); [|done].
    case_bool_decide; [|done].
    eapply sameScroll_trans; [exact H1|].
    eapply sameScroll_trans; [|apply sameScroll_filterSources].
    split_and!; [done..|]. cbn [document setDocument].
    unfold setValue. by rewrite length_alter. }
  destruct ((bool_decide (key = "Enter") || bool_decide (key = " "))
            && classListContains (document p) target "toggle-sources").
  - apply Hesc, sameScroll_toggle.
  - apply Hesc, sameScroll_refl.
Qed.

Lemma scrollReady_sameScroll b p p' :
  sameScroll p p' → scrollReady b p → scrollReady b p'.
Proof.
  intros (L & F & N) (Hl & Hf & Hb). split_and!; [congruence..|].
  apply lookup_lt_is_Some_2. apply lookup_lt_is_Some_1 in Hb. lia.
Qed.

Lemma scrollArmed_sameScroll b p p' :
  sameScroll p p' → scrollArmed b p → scrollArmed b p'.
Proof.
  intros (L & F & N) (Hl & Hf & Hb). split_and!; [congruence..|].
  apply lookup_lt_is_Some_2. apply lookup_lt_is_Some_1 in Hb. lia.
Qed.

Lemma scroll_state_step b p ev :
  ev ≠ DOMContentLoaded →
  scrollReady b p ∨ scrollArmed b p →
  scrollReady b (step p ev) ∨ scrollArmed b (step p ev).
Proof.
  intros Hev Hp.
  assert (Hsame : ∀ p', sameScroll p p' →
                        scrollReady b p' ∨ scrollArmed b p').
  { intros p' Hs. destruct Hp as [Hp|Hp];
      [left; by apply (scrollReady_sameScroll b p)
      |right; by apply (scrollArmed_sameScroll b p)]. }
  destruct ev as [| | |v|key target|y| |ms]; cbn [step].
  - done.
  - apply Hsame, sameScroll_toggle.
  - apply Hsame, sameScroll_filterSources.
  - apply Hsame, sameScroll_input.
  - apply Hsame, sameScroll_onKeydown.
  - right. destruct Hp as [Hp|Hp];
      [by destruct (scroll_from_ready b p y Hp)
      |by destruct (scroll_from_armed b p y Hp)].
  - left. destruct Hp as [Hp|Hp].
    + by rewrite (frame_from_ready b p Hp).
    + by destruct (frame_from_armed b p Hp).
  - apply Hsame, sameScroll_elapse.
Qed.

(** X13.  On every page reached from a load, whatever the user does after
    [DOMContentLoaded], the script has one scroll listener, its button is
    in the page, and at most one recomputation of the button is pending:
    none when the listener is idle, one when it has seen a scroll since the
    last frame. *)
Theorem frames_pending_invariant path d evs :
  DOMContentLoaded ∉ evs →
  let p := run evs (onDOMContentLoaded (load path d)) in
  length (animationFrames p) ≤ 1
  ∧ (scrollReady (length d) p ∨ scrollArmed (length d) p).
Proof.
  intros Hevs. cbn zeta.
  assert (H : scrollReady (length d)
                (run evs (onDOMContentLoaded (load path d)))
              ∨ scrollArmed (length d)
                  (run evs (onDOMContentLoaded (load path d)))).
  { unfold run.
    pose proof (or_introl
                  (scrollArmed (length d) (onDOMContentLoaded (load path d)))
                  (onDOMContentLoaded_scrollReady path d)) as H0.
    revert H0. generalize (onDOMContentLoaded (load path d)).
    induction evs as [|ev evs IH]; intros p Hp; [done|].
    apply not_elem_of_cons in Hevs as [Hev Hevs].
    cbn [foldl]. apply IH; [done|]. by apply scroll_state_step. }
  split; [|done].
  destruct H as [(_ & -> & _)|(_ & -> & _)]; simpl; lia.
Qed.

Lemma frames_pending_invariant_witness :
  let p := run [CallToggle; Scroll (inject_Z 400); Input "bbc"; CallFilter;
                Elapse 200; Scroll (inject_Z 10)]
               (onDOMContentLoaded (load "/" demoPage)) in
  length (animationFrames p) ≤ 1
  ∧ (scrollReady (length demoPage) p ∨ scrollArmed (length demoPage) p).
Proof.
  apply (frames_pending_invariant "/" demoPage
           [CallToggle; Scroll (inject_Z 400); Input "bbc"; CallFilter;
            Elapse 200; Scroll (inject_Z 10)]).
  rewrite !not_elem_of_cons. split_and!; try done. apply not_elem_of_nil.
Defined.

(** ** The filter pass in closed form *)

Lemma alter_imap {A} (f : A → A) (g : nat → A → A) m (d : list A) :
  alter f m (imap g d)
  = imap (λ h e, if bool_decide (h = m) then f (g h e) else g h e) d.
Proof.
  apply list_eq. intros i. rewrite list_lookup_imap.
  destruct (decide (i = m)) as [->|Hne].
  - rewrite list_lookup_alter_eq, list_lookup_imap.
    rewrite bool_decide_eq_true_2 by done. by destruct (d !! m).
  - rewrite list_lookup_alter_ne by done.
    by rewrite list_lookup_imap, bool_decide_eq_false_2.
Qed.

Lemma sameShape_imap cs (g : nat → element → element) d :
  (∀ h, keepsShape cs (g h)) → sameShape cs d (imap g d).
Proof.
  intros Hg. apply Forall2_same_length_lookup. split.
  - by rewrite length_imap.
  - intros i x y Hx Hy. rewrite list_lookup_imap, Hx in Hy.
    injection Hy as <-. apply Hg.
Qed.

Lemma keepsShape_filterItem q : keepsShape [] (filterItem q).
Proof.
  intros e. unfold filterItem. destruct (matchesItem q e).
  - apply (keepsShape_compose [] (withoutAttribute "aria-hidden")
             (withStyle "display" "flex")); auto with shape.
  - apply (keepsShape_compose [] (withAttribute "aria-hidden" "true")
             (withStyle "display" "none")); auto with shape.
Qed.

Lemma filter_loop_imap q hs d :
  NoDup hs →
  foldl (filterButton q) (d, 0) hs
  = (imap (λ h e, if bool_decide (h ∈ hs) then filterItem q e else e) d,
     countVisible d hs q).
Proof.
  intros Hnd. destruct (filter_loop q hs d 0 Hnd) as (d' & Hf & _ & Hl).
  rewrite Hf. f_equal. apply list_eq. intros i.
  rewrite Hl, list_lookup_imap. destruct (decide (i ∈ hs)).
  - by rewrite bool_decide_eq_true_2.
  - rewrite bool_decide_eq_false_2 by done. by destruct (d !! i).
Qed.

Lemma announce_imap n q (g : nat → element → element) d cr :
  (∀ h, keepsShape [] (g h)) →
  getElementById cr "search-results-live" = None →
  announceSearchResults n q (imap g d ++ cr)
  = imap (λ h e,
       if bool_decide (getElementById d "search-results-live" = Some h)
       then withTextContent (announcementFor n q) (g h e) else g h e) d
    ++ cr
    ++ (if bool_decide (getElementById d "search-results-live" = None)
        then [withTextContent (announcementFor n q)
                (withParent None newLiveRegion)]
        else []).
Proof.
  intros Hg Hcr. unfold announceSearchResults.
  pose proof (getElementById_shape [] d (imap g d) "search-results-live"
                (sameShape_imap [] g d Hg)) as Hsh.
  destruct (getElementById d "search-results-live") as [r|] eqn:E.
  - rewrite (getElementById_app_l (imap g d) cr _ r) by done.
    unfold setTextContent.
    rewrite alter_app_l
      by (rewrite length_imap; by apply getElementById_lt in E).
    rewrite alter_imap, bool_decide_eq_false_2 by done.
    rewrite app_nil_r. f_equal. apply imap_ext. intros h e _. simpl.
    destruct (decide (h = r)) as [->|Hne].
    + by rewrite !bool_decide_eq_true_2.
    + rewrite !bool_decide_eq_false_2; [done | congruence | done].
  - rewrite getElementById_app_r by done. rewrite Hcr. simpl.
    unfold setTextContent.
    rewrite <- (Nat.add_0_r (length (imap g d ++ cr))).
    rewrite alter_app_r. simpl. rewrite <- app_assoc. done.
Qed.

Lemma getElementById_newNoResultsMsg c q x :
  getElementById
    [withStyle "display" "block" (withParent (Some c) (newNoResultsMsg q))] x
  = None.
Proof. done. Qed.

Lemma finishFilter_imap c q (g : nat → element → element) d n :
  (∀ h, keepsShape [] (g h)) →
  finishFilter c q (imap g d) n
  = imap (λ h e,
       let e2 :=
         if bool_decide (querySelectorIn d c "no-results" = Some h)
         then withStyle "display"
                (if (n =? 0) && negb (bool_decide (q = ""))
                 then "block" else "none") (g h e)
         else g h e in
       if bool_decide (getElementById d "search-results-live" = Some h)
       then withTextContent (announcementFor n q) e2 else e2) d
    ++ (if (n =? 0) && negb (bool_decide (q = ""))
           && bool_decide (querySelectorIn d c "no-results" = None)
        then [withStyle "display" "block"
                (withParent (Some c) (newNoResultsMsg q))]
        else [])
    ++ (if bool_decide (getElementById d "search-results-live" = None)
        then [withTextContent (announcementFor n q)
                (withParent None newLiveRegion)]
        else []).
Proof.
  intros Hg. unfold finishFilter.
  rewrite <- (querySelectorIn_shape [] d (imap g d) c "no-results")
    by (solve_not_elem || by apply sameShape_imap).
  set (show := (n =? 0) && negb (bool_decide (q = ""))).
  set (g2 := λ h e,
         if bool_decide (querySelectorIn d c "no-results" = Some h)
         then withStyle "display" (if show then "block" else "none") (g h e)
         else g h e).
  assert (Hg2 : ∀ h, keepsShape [] (g2 h)).
  { intros h e. unfold g2. case_bool_decide; [|apply Hg].
    apply (keepsShape_compose [] (withStyle "display" _) (g h));
      auto with shape. }
  destruct (querySelectorIn d c "no-results") as [m|] eqn:Em.
  - assert (Hd2 : (if show then setStyle m "display" "block" (imap g d)
                   else setStyle m "display" "none" (imap g d))
                  = imap g2 d).
    { unfold setStyle, g2. destruct show; rewrite alter_imap;
        apply imap_ext; intros h e _; simpl;
        (destruct (decide (h = m)) as [->|Hne];
         [by rewrite !bool_decide_eq_true_2
         |rewrite !bool_decide_eq_false_2; [done | congruence | done]]). }
    cbv zeta. simpl.
    replace (if show then setStyle m "display" "block" (imap g d)
             else setStyle m "display" "none" (imap g d))
      with (imap g2 d ++ []) by (by rewrite app_nil_r).
    rewrite announce_imap by done.
    rewrite andb_false_r. done.
  - cbv zeta. simpl. rewrite andb_true_r.
    assert (Hext : imap g2 d = imap g d).
    { apply imap_ext. intros h e _. by unfold g2. }
    destruct show.
    + unfold setStyle.
      rewrite <- (Nat.add_0_r (length (imap g d))), alter_app_r. simpl.
      rewrite <- Hext.
      rewrite announce_imap
        by (done || apply getElementById_newNoResultsMsg).
      done.
    + replace (imap g d) with (imap g2 d ++ []) at 1
        by (by rewrite app_nil_r).
      rewrite announce_imap by done. done.
Qed.

Lemma filter_pass_eq d searchInput allSources :
  getElementById d "source-search" = Some searchInput →
  querySelector d "all-sources" = Some allSources →
  originalFilterSources d
  = imap (passElement d searchInput allSources) d
    ++ passCreated d searchInput allSources.
Proof.
  intros Hi Hc.
  rewrite (originalFilterSources_unfold d searchInput allSources Hi Hc).
  cbv zeta.
  rewrite filter_loop_imap by apply NoDup_querySelectorAllIn.
  cbn [fst snd].
  rewrite finishFilter_imap.
  - done.
  - intros h e. case_bool_decide; [apply keepsShape_filterItem|].
    by split_and!.
Qed.




(** ** What a filter pass leaves alone *)

Lemma filterItem_fields q e :
  classList (filterItem q e) = classList e
  ∧ value (filterItem q e) = value e
  ∧ innerHTML (filterItem q e) = innerHTML e
  ∧ parentNode (filterItem q e) = parentNode e
  ∧ textContent (filterItem q e) = textContent e
  ∧ (∀ k, k ≠ "aria-hidden" →
       attributes (filterItem q e) !! k = attributes e !! k)
  ∧ (∀ k, k ≠ "display" → style (filterItem q e) !! k = style e !! k).
Proof.
  unfold filterItem. destruct (matchesItem q e); simpl; split_and!;
    try done; intros k Hk.
  - by apply lookup_delete_ne.
  - by apply lookup_insert_ne.
  - by apply lookup_insert_ne.
  - by apply lookup_insert_ne.
Qed.

Lemma passElement_fields d searchInput allSources h e :
  let e' := passElement d searchInput allSources h e in
  classList e' = classList e
  ∧ value e' = value e
  ∧ innerHTML e' = innerHTML e
  ∧ parentNode e' = parentNode e
  ∧ (∀ k, k ≠ "aria-hidden" → attributes e' !! k = attributes e !! k)
  ∧ (∀ k, k ≠ "display" → style e' !! k = style e !! k)
  ∧ (getElementById d "search-results-live" ≠ Some h →
     textContent e' = textContent e)
  ∧ (h ∉ querySelectorAllIn d allSources "source-btn" →
     attributes e' = attributes e)
  ∧ (h ∉ querySelectorAllIn d allSources "source-btn" →
     querySelectorIn d allSources "no-results" ≠ Some h →
     style e' = style e).
Proof.
  cbv zeta. unfold passElement, rewriteElement. cbv zeta.
  destruct (filterItem_fields (searchTermOf d searchInput) e)
    as (F1 & F2 & F3 & F4 & F5 & F6 & F7).
  repeat case_bool_decide; simpl; rewrite ?F1, ?F2, ?F3, ?F4, ?F5;
    split_and!; try done; try (intros k Hk); try (by apply F6);
    try (by apply F7); try (by rewrite lookup_insert_ne, ?F7 by done).
Qed.



(** ** Running the pass again *)

Lemma filter_ext_in {A} (P Q : A → Prop) `{∀ x, Decision (P x)}
    `{∀ x, Decision (Q x)} (l : list A) :
  (∀ x, x ∈ l → (P x ↔ Q x)) → filter P l = filter Q l.
Proof.
  induction l as [|x l IH]; intros Hl; [done|].
  rewrite !filter_cons.
  rewrite IH by (intros y Hy; apply Hl; by apply list_elem_of_further).
  pose proof (Hl x (list_elem_of_here _ _)).
  destruct (decide (P x)), (decide (Q x)); tauto || done.
Qed.

Lemma filter_none {A} (P : A → Prop) `{∀ x, Decision (P x)} (l : list A) :
  (∀ x, x ∈ l → ¬ P x) → filter P l = [].
Proof.
  induction l as [|x l IH]; intros Hl; [done|].
  rewrite filter_cons, decide_False by (apply Hl, list_elem_of_here).
  apply IH. intros y Hy. apply Hl. by apply list_elem_of_further.
Qed.









Lemma keepsShape_passElement d searchInput allSources h :
  keepsShape [] (passElement d searchInput allSources h).
Proof.
  intros e.
  pose proof (passElement_fields d searchInput allSources h e) as H.
  cbv zeta in H. destruct H as (F1 & _ & _ & F4 & F5 & _).
  split_and!; [done | by rewrite F5 |].
  intros cl _. unfold hasClass. by rewrite F1.
Qed.




Lemma head_app_Some {A} (l k : list A) x :
  head l = Some x → head (l ++ k) = Some x.
Proof. by destruct l. Qed.









(** ** The announcement and the live region *)

Lemma length_string_app s t :
  String.length (s +:+ t) = String.length s + String.length t.
Proof.
  induction s as [|c s IH]; [by rewrite string_app_nil_l|].
  rewrite string_app_cons. simpl. by rewrite IH.
Qed.

Lemma string_app_inv_tail s1 s2 t : s1 +:+ t = s2 +:+ t → s1 = s2.
Proof.
  revert s2. induction s1 as [|a s1 IH]; intros [|b s2] H; [done | | |].
  - apply (f_equal String.length) in H.
    rewrite string_app_nil_l, length_string_app in H. simpl in H. lia.
  - apply (f_equal String.length) in H.
    rewrite string_app_nil_l, length_string_app in H. simpl in H. lia.
  - rewrite !string_app_cons in H. injection H as -> H. f_equal.
    by apply IH.
Qed.

Lemma to_uint_nonnil n : Nat.to_uint n ≠ Decimal.Nil.
Proof.
  intros H. pose proof (Unsigned.to_of (Nat.to_uint n)) as H'.
  rewrite Unsigned.of_to, H in H'. discriminate H'.
Qed.

(** The decimal representation determines the number. *)
Lemma toString_inj n m : toString n = toString m → n = m.
Proof.
  unfold toString. intros H. apply Unsigned.to_uint_inj.
  apply (f_equal NilZero.uint_of_string) in H.
  rewrite !NilZero.usu in H by apply to_uint_nonnil. by injection H.
Qed.

Lemma toString_head n : ∃ c s, toString n = String c s ∧ isDigit c = true.
Proof. unfold toString. destruct (Nat.to_uint n); simpl; eauto. Qed.

Lemma counted_not_fixed m (fixed : string) c s :
  fixed = String c s → isDigit c = false →
  fixed ≠ toString m +:+ " sources found".
Proof.
  intros -> Hc H. destruct (toString_head m) as (c' & s' & Hs & Hd).
  rewrite Hs, string_app_cons in H. injection H as -> _. congruence.
Qed.

Lemma counted_not_one m : "1 source found" ≠ toString m +:+ " sources found".
Proof.
  intros H. apply (f_equal String.length) in H.
  rewrite length_string_app in H.
  destruct (toString_head m) as (c' & s' & Hs & _). rewrite Hs in H.
  simpl in H. lia.
Qed.

(** X17.  The announcement tells the outcome apart.  Two announcements are
    the same text exactly when both queries are empty, or both are not and
    the counts are equal: the text says whether the query was empty and,
    when it was not, how many source buttons matched. *)
Theorem announcement_determines n m q q' :
  announcementFor n q = announcementFor m q'
  ↔ (q = "" ∧ q' = "") ∨ (q ≠ "" ∧ q' ≠ "" ∧ n = m).
Proof.
  unfold announcementFor. split.
  - intros H.
    destruct (decide (q = "")) as [Hq|Hq], (decide (q' = "")) as [Hq'|Hq'].
    + by left.
    + exfalso. rewrite bool_decide_eq_true_2 in H by done.
      rewrite (bool_decide_eq_false_2 (q' = "")) in H by done.
      destruct (m =? 0); [discriminate H|].
      destruct (m =? 1); [discriminate H|].
      by apply
        (counted_not_fixed m "All sources displayed" "A"
           "ll sources displayed" eq_refl eq_refl) in H.
    + exfalso. rewrite (bool_decide_eq_true_2 (q' = "")) in H by done.
      rewrite bool_decide_eq_false_2 in H by done.
      destruct (n =? 0); [discriminate H|].
      destruct (n =? 1); [discriminate H|].
      symmetry in H.
      by apply
        (counted_not_fixed n "All sources displayed" "A"
           "ll sources displayed" eq_refl eq_refl) in H.
    + right. split_and!; [done | done |].
      rewrite !bool_decide_eq_false_2 in H by done.
      destruct (n =? 0) eqn:N0, (m =? 0) eqn:M0.
      * apply Nat.eqb_eq in N0, M0. congruence.
      * destruct (m =? 1); [discriminate H|].
        by apply
        (counted_not_fixed m "No sources found" "N"
           "o sources found" eq_refl eq_refl) in H.
      * destruct (n =? 1); [discriminate H|]. symmetry in H.
        by apply
        (counted_not_fixed n "No sources found" "N"
           "o sources found" eq_refl eq_refl) in H.
      * destruct (n =? 1) eqn:N1, (m =? 1) eqn:M1.
        -- apply Nat.eqb_eq in N1, M1. congruence.
        -- by apply counted_not_one in H.
        -- symmetry in H. by apply counted_not_one in H.
        -- by apply toString_inj, (string_app_inv_tail _ _ " sources found").
  - intros [[-> ->] | (Hq & Hq' & ->)]; [done|].
    by rewrite !bool_decide_eq_false_2.
Qed.

Lemma length_filter_alter {A} (P : A → Prop) `{∀ x, Decision (P x)}
    (f : A → A) i (l : list A) :
  (∀ x, P (f x) ↔ P x) →
  length (filter P (alter f i l)) = length (filter P l).
Proof.
  intros Hf. revert i. induction l as [|x l IH]; intros [|i]; simpl;
    try done.
  - rewrite !filter_cons. pose proof (Hf x).
    destruct (decide (P (f x))), (decide (P x)); simpl; tauto || done.
  - change (list_alter f i l) with (alter f i l).
    rewrite !filter_cons. destruct (decide (P x)); simpl; by rewrite IH.
Qed.

Lemma alter_end {A} (f : A → A) (l : list A) x :
  alter f (length l) (l ++ [x]) = l ++ [f x].
Proof. rewrite <- (Nat.add_0_r (length l)). by rewrite alter_app_r. Qed.

Lemma withTextContent_twice s t e :
  withTextContent s (withTextContent t e) = withTextContent s e.
Proof. done. Qed.

Lemma announce_twice n q n' q' d :
  announceSearchResults n' q' (announceSearchResults n q d)
  = announceSearchResults n' q' d.
Proof.
  unfold announceSearchResults.
  destruct (getElementById d "search-results-live") as [r|] eqn:E.
  - unfold setTextContent.
    rewrite getElementById_alter by apply keepsShape_withTextContent.
    rewrite E. rewrite list_alter_alter_eq. apply list_alter_ext; [|done].
    intros e _. apply withTextContent_twice.
  - cbn [appendChild]. unfold setTextContent. rewrite !alter_end.
    rewrite (getElementById_app_r _ _ _ E).
    change (getElementById [_] "search-results-live") with (Some 0).
    simpl. by rewrite alter_end.
Qed.

Lemma length_filter_hasId_announce n q d :
  length (filter (hasId "search-results-live") (announceSearchResults n q d))
  = max 1 (length (filter (hasId "search-results-live") d)).
Proof.
  unfold announceSearchResults.
  destruct (getElementById d "search-results-live") as [r|] eqn:E.
  - unfold setTextContent. rewrite length_filter_alter by done.
    unfold getElementById in E.
    destruct (list_find _ d) as [[i e]|] eqn:F; [|done].
    apply list_find_Some in F as (Hi & He & _).
    assert (Hin : e ∈ filter (hasId "search-results-live") d).
    { apply list_elem_of_filter. split; [done|].
      by apply list_elem_of_lookup_2 in Hi. }
    destruct (filter _ d); [by apply elem_of_nil in Hin|]. simpl. lia.
  - cbn [appendChild]. unfold setTextContent. rewrite alter_end.
    rewrite filter_app, length_app.
    unfold getElementById in E.
    destruct (list_find _ d) as [[i e]|] eqn:F; [done|].
    apply list_find_None in F.
    rewrite (filter_none (hasId "search-results-live") d)
      by (by apply Forall_forall).
    done.
Qed.

(** X18.  One live region, overwritten.  An announcement after another
    leaves the store as if only the second had been made: the text is
    overwritten and no second region is created.  After an announcement the
    page has exactly one element with the id of the live region if it had
    none, and as many as it had otherwise. *)
Theorem live_region_singleton n q n' q' d :
  announceSearchResults n' q' (announceSearchResults n q d)
  = announceSearchResults n' q' d
  ∧ length (filter (hasId "search-results-live")
              (announceSearchResults n q d))
    = max 1 (length (filter (hasId "search-results-live") d))
  ∧ liveText (announceSearchResults n q d) = Some (announcementFor n q).
Proof.
  split_and!.
  - apply announce_twice.
  - apply length_filter_hasId_announce.
  - apply announce_liveText.
Qed.

(** X19.  The live region as created.  On a page without a live region the
    announcement creates it at the next free handle, as a child of the body,
    with the live-region semantics ([aria-live] polite, [aria-atomic] true),
    moved off screen by its inline style, and holding the announcement; the
    elements that were there are untouched. *)
Theorem live_region_created n q d :
  getElementById d "search-results-live" = None →
  let d' := announceSearchResults n q d in
  let r := length d in
  getElementById d' "search-results-live" = Some r
  ∧ length d' = S (length d)
  ∧ getAttribute d' r "aria-live" = Some "polite"
  ∧ getAttribute d' r "aria-atomic" = Some "true"
  ∧ getStyle d' r "position" = Some "absolute"
  ∧ getStyle d' r "left" = Some "-10000px"
  ∧ getStyle d' r "width" = Some "1px"
  ∧ getStyle d' r "height" = Some "1px"
  ∧ getStyle d' r "overflow" = Some "hidden"
  ∧ d' !! r ≫= parentNode = None
  ∧ getTextContent d' r = announcementFor n q
  ∧ ∀ h, h < r → d' !! h = d !! h.
Proof.
  intros E d' r. subst d' r. unfold announceSearchResults. rewrite E.
  cbn [appendChild]. unfold setTextContent. rewrite alter_end.
  unfold getAttribute, getStyle, getTextContent.
  rewrite !list_lookup_middle by done.
  split_and!; try done.
  - rewrite (getElementById_app_r _ _ _ E).
    change (getElementById [_] "search-results-live") with (Some 0).
    done.
  - rewrite length_app. simpl. lia.
  - intros h Hh. by apply lookup_app_l.
Qed.

Lemma live_region_created_witness :
  let d' := announceSearchResults 2 "news" demoPage in
  getElementById d' "search-results-live" = Some 9
  ∧ getAttribute d' 9 "aria-live" = Some "polite"
  ∧ getAttribute d' 9 "aria-atomic" = Some "true"
  ∧ getTextContent d' 9 = "2 sources found".
Proof.
  intros d'.
  destruct (live_region_created 2 "news" demoPage eq_refl)
    as (H1 & _ & H3 & H4 & _ & _ & _ & _ & _ & _ & H11 & _).
  split_and!; [exact H1 | exact H3 | exact H4 | exact H11].
Defined.

(** ** The query *)

Lemma isSubstringOf_trans a b c :
  isSubstringOf a b → isSubstringOf b c → isSubstringOf a c.
Proof.
  intros (p1 & s1 & ->) (p2 & s2 & ->).
  exists (p2 +:+ p1), (s1 +:+ s2). by rewrite !string_app_assoc.
Qed.

Lemma matchesItem_narrow q q' e :
  isSubstringOf q q' → matchesItem q' e = true → matchesItem q e = true.
Proof.
  intros Hq. unfold matchesItem. rewrite !orb_true_iff, !includes_spec.
  intros [H|H]; [left | right]; by apply (isSubstringOf_trans q q').
Qed.

Lemma length_filter_mono {A} (P Q : A → Prop) `{∀ x, Decision (P x)}
    `{∀ x, Decision (Q x)} (l : list A) :
  (∀ x, x ∈ l → P x → Q x) → length (filter P l) ≤ length (filter Q l).
Proof.
  induction l as [|x l IH]; intros Hl; [done|].
  rewrite !filter_cons.
  assert (length (filter P l) ≤ length (filter Q l))
    by (apply IH; intros y Hy; apply Hl; by apply list_elem_of_further).
  pose proof (Hl x (list_elem_of_here _ _)).
  destruct (decide (P x)), (decide (Q x)); simpl; tauto || lia.
Qed.

(** The roles on the page do not depend on the value of the field. *)
Lemma inputValue_roles v d searchInput allSources :
  getElementById d "source-search" = Some searchInput →
  querySelector d "all-sources" = Some allSources →
  getElementById (inputValue v d) "source-search" = Some searchInput
  ∧ querySelector (inputValue v d) "all-sources" = Some allSources
  ∧ searchTermOf (inputValue v d) searchInput = trim (toLowerCase v)
  ∧ querySelectorAllIn (inputValue v d) allSources "source-btn"
    = querySelectorAllIn d allSources "source-btn"
  ∧ querySelectorIn (inputValue v d) allSources "no-results"
    = querySelectorIn d allSources "no-results"
  ∧ ∀ b q, isVisible (inputValue v d) b q = isVisible d b q.
Proof.
  intros Hi Hc. pose proof (sameShape_inputValue v d) as Hs.
  split_and!.
  - by rewrite <- (getElementById_shape [] d (inputValue v d)).
  - by rewrite <- (querySelector_shape [] d (inputValue v d))
      by (done || solve_not_elem).
  - unfold searchTermOf, inputValue. rewrite Hi.
    by rewrite getValue_setValue_eq by (by apply getElementById_lt in Hi).
  - symmetry. apply (querySelectorAllIn_shape []); [solve_not_elem | done].
  - symmetry. apply (querySelectorIn_shape []); [solve_not_elem | done].
  - intros b q. unfold inputValue. rewrite Hi.
    unfold isVisible, getTextContent, getAttribute, setValue.
    destruct (decide (b = searchInput)) as [->|Hne].
    + rewrite list_lookup_alter_eq. by destruct (d !! searchInput).
    + by rewrite list_lookup_alter_ne.
Qed.

(** X20.  A longer query never shows more.  When the normalized query of
    one value of the field occurs in the normalized query of another, the
    pass for the second value counts no more matches than the pass for the
    first, and every source button it displays is displayed by the pass for
    the first. *)
Theorem longer_query_narrows d searchInput allSources v v' :
  getElementById d "source-search" = Some searchInput →
  querySelector d "all-sources" = Some allSources →
  isSubstringOf (trim (toLowerCase v)) (trim (toLowerCase v')) →
  matchCount (inputValue v' d) searchInput allSources
  ≤ matchCount (inputValue v d) searchInput allSources
  ∧ ∀ b, b ∈ querySelectorAllIn d allSources "source-btn" →
         querySelectorIn d allSources "no-results" ≠ Some b →
         isDisplayed (originalFilterSources (inputValue v' d)) b = true →
         isDisplayed (originalFilterSources (inputValue v d)) b = true.
Proof.
  intros Hi Hc Hsub.
  destruct (inputValue_roles v d searchInput allSources Hi Hc)
    as (Hi1 & Hc1 & Hq1 & Hb1 & Hm1 & Hv1).
  destruct (inputValue_roles v' d searchInput allSources Hi Hc)
    as (Hi2 & Hc2 & Hq2 & Hb2 & Hm2 & Hv2).
  assert (Hnarrow : ∀ b, isVisible d b (trim (toLowerCase v')) = true →
                         isVisible d b (trim (toLowerCase v)) = true).
  { intros b. rewrite !isVisible_spec.
    intros [H|H]; [left | right];
      by apply (isSubstringOf_trans _ (trim (toLowerCase v'))). }
  split.
  - unfold matchCount, countVisible. rewrite Hq1, Hq2, Hb1, Hb2.
    apply length_filter_mono. intros b _.
    rewrite Hv1, Hv2, !Is_true_true. apply Hnarrow.
  - intros b Hb Hm.
    destruct (filter_pass_button (inputValue v d) searchInput allSources b
                Hi1 Hc1) as [Hst1 _]; [by rewrite Hm1 | by rewrite Hb1|].
    destruct (filter_pass_button (inputValue v' d) searchInput allSources b
                Hi2 Hc2) as [Hst2 _]; [by rewrite Hm2 | by rewrite Hb2|].
    cbv zeta in Hst1, Hst2. unfold isDisplayed.
    rewrite Hst1, Hst2, Hq1, Hq2, Hv1, Hv2.
    specialize (Hnarrow b).
    destruct (isVisible d b (trim (toLowerCase v'))).
    + by rewrite Hnarrow.
    + intros H. by apply bool_decide_eq_true_1 in H.
Qed.

Lemma longer_query_narrows_witness :
  matchCount (inputValue "news b" demoPage) 4 5
  ≤ matchCount (inputValue "news" demoPage) 4 5.
Proof.
  destruct (longer_query_narrows demoPage 4 5 "news" "news b"
              eq_refl eq_refl) as [H _].
  - by exists "", " b".
  - exact H.
Defined.

(** X21.  What is announced is what is displayed.  After a filter pass on
    a page with the search field and the container, where no source button
    is also the message of the container, the count in the announcement is
    the number of source buttons whose own style displays them. *)
Theorem announced_count_is_displayed d searchInput allSources :
  getElementById d "source-search" = Some searchInput →
  querySelector d "all-sources" = Some allSources →
  (∀ b, b ∈ querySelectorAllIn d allSources "source-btn" →
        querySelectorIn d allSources "no-results" ≠ Some b) →
  let d' := originalFilterSources d in
  liveText d'
  = Some (announcementFor
            (length (filter (λ b, isDisplayed d' b)
                       (querySelectorAllIn d allSources "source-btn")))
            (searchTermOf d searchInput)).
Proof.
  intros Hi Hc Hm d'. subst d'.
  rewrite (filter_pass_liveText d searchInput allSources Hi Hc).
  do 2 f_equal. unfold matchCount, countVisible. f_equal.
  apply filter_ext_in. intros b Hb.
  destruct (filter_pass_button d searchInput allSources b Hi Hc (Hm b Hb) Hb)
    as [Hst _].
  cbv zeta in Hst. unfold isDisplayed. rewrite Hst.
  by destruct (isVisible d b (searchTermOf d searchInput)).
Qed.

Lemma announced_count_is_displayed_witness :
  let d' := originalFilterSources (setValue 4 "bbc" demoPage) in
  liveText d'
  = Some (announcementFor
            (length (filter (λ b, isDisplayed d' b)
                       (querySelectorAllIn (setValue 4 "bbc" demoPage) 5
                          "source-btn")))
            (searchTermOf (setValue 4 "bbc" demoPage) 4)).
Proof.
  intros d'.
  apply (announced_count_is_displayed (setValue 4 "bbc" demoPage) 4 5
           eq_refl eq_refl).
  intros b _. vm_compute. discriminate.
Defined.

Lemma isSpace_lower c : isSpace (lowerChar c) = isSpace c.
Proof. by destruct c as [[] [] [] [] [] [] [] []]. Qed.

Lemma toLowerCase_app s t :
  toLowerCase (s +:+ t) = toLowerCase s +:+ toLowerCase t.
Proof.
  induction s as [|c s IH]; [by rewrite !string_app_nil_l|].
  rewrite string_app_cons. simpl. by rewrite string_app_cons, IH.
Qed.

Lemma allSpace_app s t : allSpace (s +:+ t) = allSpace s && allSpace t.
Proof.
  induction s as [|c s IH]; [by rewrite string_app_nil_l|].
  rewrite string_app_cons. simpl. by rewrite IH, andb_assoc.
Qed.

Lemma trimStart_app_l pre s :
  allSpace pre = true → trimStart (pre +:+ s) = trimStart s.
Proof.
  induction pre as [|c pre IH]; [by rewrite string_app_nil_l|].
  simpl. intros [Hc Hs]%andb_true_iff.
  rewrite ?string_app_cons. simpl. rewrite Hc. auto.
Qed.

Lemma trimStart_app_r s post :
  allSpace s = false → trimStart (s +:+ post) = trimStart s +:+ post.
Proof.
  induction s as [|c s IH]; [done|].
  simpl. rewrite ?string_app_cons. simpl.
  destruct (isSpace c); simpl; [done|].
  intros _. by rewrite ?string_app_cons.
Qed.

Lemma trimEnd_allSpace s : allSpace s = true → trimEnd s = "".
Proof.
  induction s as [|c s IH]; [done|].
  simpl. intros [Hc Hs]%andb_true_iff. by rewrite IH, Hc.
Qed.

Lemma trimEnd_app_r s post :
  allSpace post = true → trimEnd (s +:+ post) = trimEnd s.
Proof.
  intros Hp. induction s as [|c s IH].
  - rewrite string_app_nil_l. by apply trimEnd_allSpace.
  - rewrite ?string_app_cons. simpl. by rewrite IH.
Qed.

(** White space around a value does not reach the query. *)
Lemma trim_surrounded pre s post :
  allSpace pre = true → allSpace post = true →
  trim (pre +:+ s +:+ post) = trim s.
Proof.
  intros Hpre Hpost. unfold trim. rewrite trimStart_app_l by done.
  destruct (allSpace s) eqn:Hs.
  - rewrite (trimStart_allSpace s) by done.
    rewrite trimStart_allSpace; [done|].
    by rewrite allSpace_app, Hs, Hpost.
  - rewrite trimStart_app_r by done. by apply trimEnd_app_r.
Qed.

Lemma allSpace_trimStart s : allSpace (trimStart s) = true → allSpace s = true.
Proof.
  induction s as [|c s IH]; [done|].
  simpl. destruct (isSpace c) eqn:Hc; simpl; [done|].
  by rewrite Hc.
Qed.

Lemma trimEnd_empty s : trimEnd s = "" → allSpace s = true.
Proof.
  induction s as [|c s IH]; [done|].
  simpl. destruct (trimEnd s); [|done].
  destruct (isSpace c); [|done]. intros _. by rewrite IH.
Qed.

Lemma allSpace_toLowerCase s : allSpace (toLowerCase s) = allSpace s.
Proof.
  induction s as [|c s IH]; [done|]. simpl. by rewrite isSpace_lower, IH.
Qed.

(** X22.  On ASCII text, the query is the value up to case and
    surrounding white space.  Two ASCII values of the field that differ
    only in the case of their letters and in white space before and after
    give the same normalized query; and the query of an ASCII value is
    empty exactly when the value is blank. *)
Theorem query_normalisation d searchInput v v' pre post :
  getElementById d "source-search" = Some searchInput →
  isAscii v = true → isAscii v' = true →
  allSpace pre = true → allSpace post = true →
  toLowerCase v' = pre +:+ toLowerCase v +:+ post →
  searchTermOf (inputValue v' d) searchInput
  = searchTermOf (inputValue v d) searchInput
  ∧ (searchTermOf (inputValue v d) searchInput = "" ↔ allSpace v = true).
Proof.
  intros Hi _ _ Hpre Hpost Hv.
  assert (Hq : ∀ w, searchTermOf (inputValue w d) searchInput
                    = trim (toLowerCase w)).
  { intros w. unfold searchTermOf, inputValue. rewrite Hi.
    by rewrite getValue_setValue_eq by (by apply getElementById_lt in Hi). }
  rewrite !Hq. split.
  - rewrite Hv. by apply trim_surrounded.
  - split; [|apply trim_blank].
    unfold trim. intros H%trimEnd_empty%allSpace_trimStart.
    by rewrite allSpace_toLowerCase in H.
Qed.

Lemma query_normalisation_witness :
  searchTermOf (inputValue "  BBC News " demoPage) 4
  = searchTermOf (inputValue "bbc news" demoPage) 4.
Proof.
  destruct (query_normalisation demoPage 4 "bbc news" "  BBC News " "  " " "
              eq_refl eq_refl eq_refl eq_refl eq_refl eq_refl) as [H _].
  exact H.
Defined.

(** ** The structure of the page on every run *)

Lemma extends_shape cs d d' : sameShape cs d d' → extends cs d d'.
Proof. intros H. exists d', []. by rewrite app_nil_r. Qed.

Lemma extends_refl cs d : extends cs d d.
Proof. apply extends_shape, sameShape_refl. Qed.

Lemma extends_trans cs d1 d2 d3 :
  extends cs d1 d2 → extends cs d2 d3 → extends cs d1 d3.
Proof.
  intros (k1 & l1 & -> & H1) (k2 & l2 & -> & H2).
  apply Forall2_app_inv_l in H2 as (k1' & l1' & Hk & _ & ->).
  exists k1', (l1' ++ l2). split; [by rewrite app_assoc|].
  by apply (sameShape_trans cs d1 k1).
Qed.

Lemma extends_app cs d d' l : extends cs d d' → extends cs d (d' ++ l).
Proof.
  intros (k & l' & -> & H). exists k, (l' ++ l). by rewrite app_assoc.
Qed.

Lemma extends_weaken cs cs' d d' :
  cs ⊆ cs' → extends cs d d' → extends cs' d d'.
Proof.
  intros Hsub (k & l & -> & H). exists k, l. split; [done|].
  by apply (sameShape_weaken cs).
Qed.

Lemma extends_pass d : extends [] d (originalFilterSources d).
Proof.
  destruct (getElementById d "source-search") as [si|] eqn:Hi;
    [|rewrite originalFilterSources_absent by (by left);
      apply extends_refl].
  destruct (querySelector d "all-sources") as [c|] eqn:Hc;
    [|rewrite originalFilterSources_absent by (by right);
      apply extends_refl].
  rewrite (filter_pass_eq d si c Hi Hc).
  apply extends_app, extends_shape, sameShape_imap.
  intros h. apply keepsShape_passElement.
Qed.

Lemma sameShape_initializeFilterNav d : sameShape [] d (initializeFilterNav d).
Proof.
  unfold initializeFilterNav.
  destruct (getElementById d "sources-content"); [|apply sameShape_refl].
  destruct (querySelector d "toggle-sources"); [|apply sameShape_refl].
  unfold setAttribute.
  apply sameShape_alter; [by apply keepsShape_withAttribute|].
  apply sameShape_alter; [by apply keepsShape_withAttribute|].
  apply sameShape_refl.
Qed.

(** The page [p'] has the structure of [p]: see [extends]; the script only
    ever adds or removes the classes [show] and [active]. *)
Lemma grows_toggle p :
  extends ["show"; "active"] (document p) (document (toggleSourcesSection p)).
Proof.
  unfold toggleSourcesSection.
  destruct (getElementById _ "sources-content") as [sc|]; [|apply extends_refl].
  destruct (querySelector _ "toggle-sources") as [tb|]; [|apply extends_refl].
  destruct (querySelector _ "toggle-text") as [tt|]; [|apply extends_refl].
  destruct (querySelector _ "toggle-icon") as [ti|]; [|apply extends_refl].
  apply (extends_weaken ["show"]);
    [intros x [->|[]%elem_of_nil]%elem_of_cons; apply list_elem_of_here|].
  apply extends_shape.
  case_bool_decide.
  - exact (sameShape_collapsed sc tb tt (document p)).
  - match goal with
    | |- context [getElementById ?d "source-search"] =>
        destruct (getElementById d "source-search")
    end; exact (sameShape_expanded sc tb tt (document p)).
Qed.

Lemma grows_onKeydown key target p :
  extends ["show"; "active"] (document p) (document (onKeydown key target p)).
Proof.
  unfold onKeydown. cbv zeta.
  assert (Hesc : ∀ p1,
            extends ["show"; "active"] (document p) (document p1) →
            extends ["show"; "active"] (document p)
              (document
                 (if bool_decide (key = "Escape") then
                    match getElementById (document p1) "source-search" with
                    | Some searchInput =>
                        if bool_decide (activeElement p1 = Some searchInput)
                        then filterSources
                               (setDocument
                                  (setValue searchInput "" (document p1)) p1)
                        else p1
                    | None => p1
                    end
                  else p1))).
  { intros p1 H1. case_bool_decide; [|done].
    destruct (getElementById (document p1) "source-search"); [|done].
    case_bool_decide; [|done].
    rewrite filterSources_document. cbn [document setDocument].
    eapply extends_trans; [exact H1|]. apply extends_shape.
    apply sameShape_alter; [apply keepsShape_withValue | apply sameShape_refl]. }
  destruct ((bool_decide (key = "Enter") || bool_decide (key = " "))
            && classListContains (document p) target "toggle-sources").
  - apply Hesc, grows_toggle.
  - apply Hesc, extends_refl.
Qed.

Lemma onScroll_document i p : document (onScroll i p) = document p.
Proof.
  unfold onScroll. destruct (scrollListeners p !! i) as [c|]; [|done].
  by destruct (ticking c).
Qed.

Lemma scroll_document y p : document (scroll y p) = document p.
Proof.
  unfold scroll.
  change (document p) with (document (setPageYOffset y p)).
  generalize (seq 0 (length (scrollListeners (setPageYOffset y p)))).
  generalize (setPageYOffset y p). intros p0 l. revert p0.
  induction l as [|i l IH]; intros p0; [done|].
  cbn [foldl]. by rewrite IH, onScroll_document.
Qed.

Lemma grows_backToTopFrame i p :
  extends ["show"; "active"] (document p) (document (backToTopFrame i p)).
Proof.
  unfold backToTopFrame.
  destruct (scrollListeners p !! i) as [c|]; [|apply extends_refl].
  cbn [document setDocument setScrollListeners]. apply extends_shape.
  destruct (Qgtb _ _); unfold classListAdd, classListRemove;
    (apply sameShape_alter; [|apply sameShape_refl]).
  - apply keepsShape_withClass, list_elem_of_here.
  - apply keepsShape_withoutClass, list_elem_of_here.
Qed.

Lemma grows_foldl {A} (f : page → A → page) (l : list A) p :
  (∀ p x, extends ["show"; "active"] (document p) (document (f p x))) →
  extends ["show"; "active"] (document p) (document (foldl f p l)).
Proof.
  intros Hf. revert p. induction l as [|x l IH]; intros p.
  - apply extends_refl.
  - cbn [foldl]. eapply extends_trans; [apply Hf | apply IH].
Qed.

Lemma grows_animationFrame p :
  extends ["show"; "active"] (document p) (document (animationFrame p)).
Proof.
  unfold animationFrame.
  apply (grows_foldl (λ p i, backToTopFrame i p) (animationFrames p)
           (setAnimationFrames [] p)).
  intros p0 i. apply grows_backToTopFrame.
Qed.

Lemma grows_runCallback cb p :
  extends ["show"; "active"] (document p) (document (runCallback cb p)).
Proof.
  destruct cb as [si|];
    [simpl; destruct (rendered _ si); apply extends_refl|].
  cbn [runCallback document setDocument setHistory].
  apply (extends_weaken []); [by intros x Hx%elem_of_nil|].
  apply extends_pass.
Qed.

Lemma grows_tick p :
  extends ["show"; "active"] (document p) (document (tick p)).
Proof.
  unfold tick. cbv zeta.
  apply (grows_foldl (λ p x, runCallback (handler x) p) _
           (setTimers _ (setNow (S (now p)) p))).
  intros p0 x. apply grows_runCallback.
Qed.

Lemma grows_elapse ms p :
  extends ["show"; "active"] (document p) (document (elapse ms p)).
Proof.
  induction ms as [|ms IH]; [apply extends_refl|].
  rewrite elapse_S. eapply extends_trans; [exact IH | apply grows_tick].
Qed.

Lemma grows_onDOMContentLoaded p :
  extends ["show"; "active"] (document p) (document (onDOMContentLoaded p)).
Proof.
  rewrite onDOMContentLoaded_document.
  eapply extends_trans;
    [|apply (extends_weaken ["active"]);
      [|apply extends_shape, sameShape_initializeActiveFilters]].
  - apply extends_app, extends_shape.
    apply (sameShape_weaken []); [by intros x Hx%elem_of_nil|].
    apply sameShape_initializeFilterNav.
  - intros x [->|[]%elem_of_nil]%elem_of_cons.
    apply list_elem_of_further, list_elem_of_here.
Qed.

Lemma grows_step p ev :
  extends ["show"; "active"] (document p) (document (step p ev)).
Proof.
  destruct ev as [| | |v|key target|y| |ms]; cbn [step].
  - apply grows_onDOMContentLoaded.
  - apply grows_toggle.
  - rewrite filterSources_document. apply extends_refl.
  - apply extends_shape. apply (sameShape_weaken []);
      [by intros x Hx%elem_of_nil | apply sameShape_inputValue].
  - apply grows_onKeydown.
  - rewrite scroll_document. apply extends_refl.
  - apply grows_animationFrame.
  - apply grows_elapse.
Qed.

(** *** The pages on which assigning text removes nothing *)

Lemma querySelector_app_r d l c :
  querySelector d c = None →
  querySelector (d ++ l) c = (λ n, n + length d) <$> querySelector l c.
Proof.
  unfold querySelector. intros H.
  destruct (list_find (hasClass c) d) as [[i e]|] eqn:E; [done|].
  rewrite (list_find_app_r _ _ _ E).
  by destruct (list_find (hasClass c) l) as [[j e]|].
Qed.

Lemma isLeaf_spec d h :
  isLeaf d h = true ↔ ∀ i e, d !! i = Some e → parentNode e ≠ Some h.
Proof.
  unfold isLeaf. rewrite forallb_forall. split.
  - intros H i e He. apply list_elem_of_lookup_2, list_elem_of_In, H in He.
    apply negb_true_iff in He. by apply bool_decide_eq_false_1 in He.
  - intros H e [i Hi]%list_elem_of_In%list_elem_of_lookup_1.
    apply negb_true_iff, bool_decide_eq_false_2. by apply (H i).
Qed.

Lemma parentsInStore_spec d :
  parentsInStore d = true
  ↔ ∀ i e p, d !! i = Some e → parentNode e = Some p → p < length d.
Proof.
  unfold parentsInStore. rewrite forallb_forall. split.
  - intros H i e p He Hp.
    apply list_elem_of_lookup_2, list_elem_of_In, H in He.
    rewrite Hp in He. by apply Nat.ltb_lt in He.
  - intros H e [i Hi]%list_elem_of_In%list_elem_of_lookup_1.
    destruct (parentNode e) as [p|] eqn:Hp; [|done].
    apply Nat.ltb_lt. by apply (H i e).
Qed.

Lemma leafIfFound_spec d (o : option nat) :
  from_option (isLeaf d) true o = true
  ↔ ∀ h, o = Some h → ∀ i e, d !! i = Some e → parentNode e ≠ Some h.
Proof.
  destruct o as [h|]; simpl.
  - rewrite isLeaf_spec. split; [by intros H ? [= <-] | intros H; by apply H].
  - split; [by intros _ ? [=] | done].
Qed.

Lemma containerApart_spec d :
  containerApart d = true
  ↔ ∀ c, querySelector d "all-sources" = Some c →
         querySelector d "toggle-text" ≠ Some c
         ∧ getElementById d "search-results-live" ≠ Some c.
Proof.
  unfold containerApart.
  destruct (querySelector d "all-sources") as [c|].
  - rewrite andb_true_iff, !negb_true_iff, !bool_decide_eq_false.
    split; [by intros H ? [= <-] | intros H; by apply H].
  - split; [by intros _ ? [=] | done].
Qed.

Lemma textIsOwn_spec d :
  textIsOwn d = true
  ↔ (∀ i e p, d !! i = Some e → parentNode e = Some p → p < length d)
    ∧ (∀ tt, querySelector d "toggle-text" = Some tt →
             ∀ i e, d !! i = Some e → parentNode e ≠ Some tt)
    ∧ (∀ r, getElementById d "search-results-live" = Some r →
            ∀ i e, d !! i = Some e → parentNode e ≠ Some r)
    ∧ (∀ c, querySelector d "all-sources" = Some c →
            querySelector d "toggle-text" ≠ Some c
            ∧ getElementById d "search-results-live" ≠ Some c).
Proof.
  unfold textIsOwn, labelIsLeaf, liveRegionIsLeaf.
  rewrite !andb_true_iff, parentsInStore_spec, !leafIfFound_spec,
    containerApart_spec.
  tauto.
Qed.

Lemma sameShape_lookup_r cs d d' i e' :
  sameShape cs d d' → d' !! i = Some e' →
  ∃ e, d !! i = Some e ∧ parentNode e = parentNode e'.
Proof.
  intros Hs He'. pose proof (sameShape_lookup cs d d' i Hs) as Hl.
  rewrite He' in Hl. inversion Hl as [e x (Hp & _) He Hx|]. subst x.
  by exists e.
Qed.

(** The condition depends on the shape of the store only. *)
Lemma textIsOwn_shape cs d d' :
  "toggle-text" ∉ cs → "all-sources" ∉ cs →
  sameShape cs d d' → textIsOwn d = true → textIsOwn d' = true.
Proof.
  intros Htt Has Hs. rewrite !textIsOwn_spec.
  rewrite <- (querySelector_shape cs d d' "toggle-text" Htt Hs).
  rewrite <- (querySelector_shape cs d d' "all-sources" Has Hs).
  rewrite <- (getElementById_shape cs d d' "search-results-live" Hs).
  rewrite <- (sameShape_length cs d d' Hs).
  intros (P1 & P2 & P3 & P4). split_and!; [| | |done].
  - intros i e' p He' Hp.
    destruct (sameShape_lookup_r cs d d' i e' Hs He') as (e & He & Hpe).
    apply (P1 i e); congruence.
  - intros tt Ht i e' He'.
    destruct (sameShape_lookup_r cs d d' i e' Hs He') as (e & He & Hpe).
    rewrite <- Hpe. by apply (P2 tt Ht i).
  - intros r Hr i e' He'.
    destruct (sameShape_lookup_r cs d d' i e' Hs He') as (e & He & Hpe).
    rewrite <- Hpe. by apply (P3 r Hr i).
Qed.

Lemma querySelector_snoc d e c :
  ¬ hasClass c e → querySelector (d ++ [e]) c = querySelector d c.
Proof.
  intros He. destruct (querySelector d c) as [h|] eqn:E.
  - by apply querySelector_app_l.
  - rewrite (querySelector_app_r _ _ _ E). unfold querySelector. simpl.
    by rewrite decide_False.
Qed.

Lemma getElementById_snoc d e x r :
  getElementById (d ++ [e]) x = Some r →
  getElementById d x = Some r
  ∨ (getElementById d x = None ∧ r = length d).
Proof.
  destruct (getElementById d x) as [h|] eqn:E.
  - rewrite (getElementById_app_l _ _ _ _ E). auto.
  - rewrite (getElementById_app_r _ _ _ E). unfold getElementById. simpl.
    destruct (decide (hasId x e)); simpl; [|done]. intros [= <-]. auto.
Qed.

(** The condition survives appending an element to the body or to the
    container of the source buttons, as the script does. *)
Lemma textIsOwn_snoc d e :
  textIsOwn d = true →
  parentNode e = None
  ∨ (∃ c, querySelector d "all-sources" = Some c ∧ parentNode e = Some c) →
  ¬ hasClass "toggle-text" e → ¬ hasClass "all-sources" e →
  textIsOwn (d ++ [e]) = true.
Proof.
  rewrite !textIsOwn_spec. intros (P1 & P2 & P3 & P4) Hp Htt Has.
  rewrite !querySelector_snoc by done.
  assert (Hpe : ∀ p, parentNode e = Some p →
            p < length d
            ∧ querySelector d "all-sources" = Some p).
  { intros p Hpp. destruct Hp as [Hp|(c & Hc & Hp)]; [congruence|].
    assert (p = c) as -> by congruence.
    split; [by apply querySelector_lt in Hc | done]. }
  split_and!.
  - intros i x p [[_ Hx]|[-> <-]]%lookup_snoc_Some Hpx;
      rewrite length_app; simpl.
    + pose proof (P1 i x p Hx Hpx). lia.
    + destruct (Hpe p Hpx). lia.
  - intros tt Ht i x [[_ Hx]|[-> <-]]%lookup_snoc_Some.
    + by apply (P2 tt Ht i).
    + intros Hpx. destruct (Hpe tt Hpx) as [_ Hc].
      by destruct (P4 tt Hc).
  - intros r [Hr|[Hr ->]]%getElementById_snoc i x
           [[_ Hx]|[-> <-]]%lookup_snoc_Some.
    + by apply (P3 r Hr i).
    + intros Hpx. destruct (Hpe r Hpx) as [_ Hc].
      by destruct (P4 r Hc).
    + intros Hpx. pose proof (P1 i x _ Hx Hpx). lia.
    + intros Hpx. destruct (Hpe _ Hpx). lia.
  - intros c Hc. destruct (P4 c Hc) as [Q1 Q2]. split; [done|].
    intros [Hr|[Hr ->]]%getElementById_snoc; [done|].
    apply querySelector_lt in Hc. lia.
Qed.

Lemma textIsOwn_pass d :
  textIsOwn d = true → textIsOwn (originalFilterSources d) = true.
Proof.
  intros H.
  destruct (getElementById d "source-search") as [si|] eqn:Hi;
    [|by rewrite originalFilterSources_absent by (by left)].
  destruct (querySelector d "all-sources") as [c|] eqn:Hc;
    [|by rewrite originalFilterSources_absent by (by right)].
  rewrite (filter_pass_eq d si c Hi Hc).
  assert (Hs : sameShape [] d (imap (passElement d si c) d))
    by (apply sameShape_imap; intros h; apply keepsShape_passElement).
  assert (H1 : textIsOwn (imap (passElement d si c) d) = true)
    by (apply (textIsOwn_shape [] d); by try apply not_elem_of_nil).
  assert (Hc1 : querySelector (imap (passElement d si c) d) "all-sources"
                = Some c).
  { by rewrite <- (querySelector_shape [] d _ "all-sources")
      by (done || apply not_elem_of_nil). }
  unfold passCreated. rewrite app_assoc.
  assert (H2 : textIsOwn
                 (imap (passElement d si c) d
                  ++ (if passShowsMessage d si c
                         && bool_decide
                              (querySelectorIn d c "no-results" = None)
                      then [withStyle "display" "block"
                              (withParent (Some c)
                                 (newNoResultsMsg (searchTermOf d si)))]
                      else [])) = true).
  { destruct (_ && _); [|by rewrite app_nil_r].
    apply textIsOwn_snoc; [done | right; by exists c | |];
      unfold hasClass; simpl; solve_not_elem. }
  destruct (bool_decide (getElementById d "search-results-live" = None));
    [|by rewrite app_nil_r].
  apply textIsOwn_snoc; [done | by left | |];
    unfold hasClass; simpl; apply not_elem_of_nil.
Qed.

Lemma textIsOwn_toggle p :
  textIsOwn (document p) = true →
  textIsOwn (document (toggleSourcesSection p)) = true.
Proof.
  intros H.
  destruct (getElementById (document p) "sources-content") as [sc|] eqn:Hsc;
    [|unfold toggleSourcesSection; by rewrite Hsc].
  destruct (querySelector (document p) "toggle-sources") as [tb|] eqn:Htb;
    [|unfold toggleSourcesSection; by rewrite Hsc, Htb].
  destruct (querySelector (document p) "toggle-text") as [tt|] eqn:Htt;
    [|unfold toggleSourcesSection; by rewrite Hsc, Htb, Htt].
  destruct (querySelector (document p) "toggle-icon") as [ti|] eqn:Hti;
    [|unfold toggleSourcesSection; by rewrite Hsc, Htb, Htt, Hti].
  rewrite (toggle_document p sc tb tt ti) by done.
  case_bool_decide;
    apply (textIsOwn_shape ["show"] (document p));
    try solve_not_elem; try done.
  - apply sameShape_collapsed.
  - apply sameShape_expanded.
Qed.

Lemma textIsOwn_onKeydown key target p :
  textIsOwn (document p) = true →
  textIsOwn (document (onKeydown key target p)) = true.
Proof.
  intros H. unfold onKeydown. cbv zeta.
  assert (Hesc : ∀ p1,
            textIsOwn (document p1) = true →
            textIsOwn
              (document
                 (if bool_decide (key = "Escape") then
                    match getElementById (document p1) "source-search" with
                    | Some searchInput =>
                        if bool_decide (activeElement p1 = Some searchInput)
                        then filterSources
                               (setDocument
                                  (setValue searchInput "" (document p1)) p1)
                        else p1
                    | None => p1
                    end
                  else p1)) = true).
  { intros p1 H1. case_bool_decide; [|done].
    destruct (getElementById (document p1) "source-search"); [|done].
    case_bool_decide; [|done].
    rewrite filterSources_document. cbn [document setDocument].
    apply (textIsOwn_shape [] (document p1)); try apply not_elem_of_nil;
      [|done].
    apply sameShape_alter; [apply keepsShape_withValue | apply sameShape_refl]. }
  destruct ((bool_decide (key = "Enter") || bool_decide (key = " "))
            && classListContains (document p) target "toggle-sources").
  - by apply Hesc, textIsOwn_toggle.
  - by apply Hesc.
Qed.

Lemma textIsOwn_backToTopFrame i p :
  textIsOwn (document p) = true →
  textIsOwn (document (backToTopFrame i p)) = true.
Proof.
  intros H. unfold backToTopFrame.
  destruct (scrollListeners p !! i) as [c|]; [|done].
  cbn [document setDocument setScrollListeners].
  apply (textIsOwn_shape ["show"] (document p)); try solve_not_elem;
    try done.
  destruct (Qgtb _ _); unfold classListAdd, classListRemove;
    (apply sameShape_alter; [|apply sameShape_refl]).
  - apply keepsShape_withClass, list_elem_of_here.
  - apply keepsShape_withoutClass, list_elem_of_here.
Qed.

Lemma textIsOwn_foldl {A} (f : page → A → page) (l : list A) p :
  (∀ p x, textIsOwn (document p) = true →
          textIsOwn (document (f p x)) = true) →
  textIsOwn (document p) = true →
  textIsOwn (document (foldl f p l)) = true.
Proof.
  intros Hf. revert p. induction l as [|x l IH]; intros p Hp; [done|].
  cbn [foldl]. by apply IH, Hf.
Qed.

Lemma textIsOwn_runCallback cb p :
  textIsOwn (document p) = true →
  textIsOwn (document (runCallback cb p)) = true.
Proof.
  intros H. destruct cb as [si|]; [simpl; by destruct (rendered _ si)|].
  cbn [runCallback document setDocument setHistory].
  by apply textIsOwn_pass.
Qed.

Lemma textIsOwn_elapse ms p :
  textIsOwn (document p) = true →
  textIsOwn (document (elapse ms p)) = true.
Proof.
  intros H. induction ms as [|ms IH]; [done|].
  rewrite elapse_S. unfold tick. cbv zeta.
  apply (textIsOwn_foldl (λ p x, runCallback (handler x) p)); [|done].
  intros p0 x. apply textIsOwn_runCallback.
Qed.

Lemma textIsOwn_onDOMContentLoaded p :
  textIsOwn (document p) = true →
  textIsOwn (document (onDOMContentLoaded p)) = true.
Proof.
  intros H. rewrite onDOMContentLoaded_document.
  apply (textIsOwn_shape ["active"]
           (initializeFilterNav (document p) ++ [newBackToTop]));
    try solve_not_elem; [apply sameShape_initializeActiveFilters|].
  apply textIsOwn_snoc; [| by left | |];
    try (unfold hasClass; simpl; solve_not_elem).
  apply (textIsOwn_shape [] (document p)); try apply not_elem_of_nil;
    [apply sameShape_initializeFilterNav | done].
Qed.

Lemma textIsOwn_step p ev :
  textIsOwn (document p) = true → textIsOwn (document (step p ev)) = true.
Proof.
  intros H. destruct ev as [| | |v|key target|y| |ms]; cbn [step].
  - by apply textIsOwn_onDOMContentLoaded.
  - by apply textIsOwn_toggle.
  - by rewrite filterSources_document.
  - apply (textIsOwn_shape [] (document p)); try apply not_elem_of_nil;
      [apply sameShape_inputValue | done].
  - by apply textIsOwn_onKeydown.
  - by rewrite scroll_document.
  - unfold animationFrame.
    by apply (textIsOwn_foldl (λ p i, backToTopFrame i p)
                (animationFrames p) (setAnimationFrames [] p));
      [intros p0 i; apply textIsOwn_backToTopFrame|].
  - by apply textIsOwn_elapse.
Qed.

(** X23.  The script never takes the page apart.  On a page where the
    label of the toggle and the live region have no child element and the
    container of the source buttons is neither of them (so that the
    script's assignments of text remove nothing), and whatever happens
    from there: the page stays such a page, every element stays in the
    store at its handle, with its parent, its id and its classes other than
    [show] and [active], and elements are only ever appended.  In
    particular the elements the script injects are never removed, and the
    lookups by id and by any other class keep finding what the markup
    provides. *)
Theorem structure_preserved evs p :
  textIsOwn (document p) = true →
  let p' := run evs p in
  textIsOwn (document p') = true
  ∧ extends ["show"; "active"] (document p) (document p')
  ∧ length (document p) ≤ length (document p')
  ∧ ∀ h e, document p !! h = Some e →
      ∃ e', document p' !! h = Some e'
        ∧ parentNode e' = parentNode e
        ∧ attributes e' !! "id" = attributes e !! "id"
        ∧ ∀ c, c ≠ "show" → c ≠ "active" → (hasClass c e' ↔ hasClass c e).
Proof.
  intros Hown. cbv zeta.
  assert (H : extends ["show"; "active"] (document p) (document (run evs p))).
  { unfold run. apply grows_foldl. apply grows_step. }
  split.
  { unfold run. apply textIsOwn_foldl; [apply textIsOwn_step | done]. }
  split; [done|].
  destruct H as (d1 & l & Hd & Hs). rewrite Hd. split.
  - rewrite length_app, <- (sameShape_length _ _ _ Hs). lia.
  - intros h e He.
    pose proof (sameShape_lookup _ _ _ h Hs) as Hl. rewrite He in Hl.
    inversion Hl as [x e' (Hp & Hid & Hc) Hx He'|]. subst x.
    symmetry in He'.
    exists e'. split_and!; [|done|done|].
    + rewrite lookup_app_l; [done|]. by eapply lookup_lt_Some.
    + intros c H1 H2. symmetry. apply Hc.
      intros [->|[->|[]%elem_of_nil]%elem_of_cons]%elem_of_cons; done.
Qed.

Lemma structure_preserved_witness :
  let p' := run [DOMContentLoaded; CallToggle; Input "zzz"; CallFilter;
                 Elapse 300; CallToggle]
                (load "/" demoPage) in
  textIsOwn (document p') = true
  ∧ length (document (load "/" demoPage)) ≤ length (document p').
Proof.
  intros p'.
  destruct (structure_preserved
              [DOMContentLoaded; CallToggle; Input "zzz"; CallFilter;
               Elapse 300; CallToggle]
              (load "/" demoPage) eq_refl) as (H1 & _ & H2 & _).
  split; [exact H1 | exact H2].
Defined.

(** ** The three initializers *)

Lemma initializeFilterNav_app d :
  initializeFilterNav (d ++ [newBackToTop])
  = initializeFilterNav d ++ [newBackToTop].
Proof.
  unfold initializeFilterNav.
  destruct (getElementById d "sources-content") as [sc|] eqn:Hsc.
  - rewrite (getElementById_app_l _ _ _ _ Hsc).
    destruct (querySelector d "toggle-sources") as [tb|] eqn:Htb.
    + rewrite (querySelector_app_l _ _ _ _ Htb). unfold setAttribute.
      apply getElementById_lt in Hsc. apply querySelector_lt in Htb.
      rewrite (alter_app_l _ d) by done.
      by rewrite alter_app_l by (by rewrite length_alter).
    + by rewrite (querySelector_app_r _ _ _ Htb).
  - by rewrite (getElementById_app_r _ _ _ Hsc).
Qed.

Lemma initializeActiveFilters_app path d :
  initializeActiveFilters path (d ++ [newBackToTop])
  = initializeActiveFilters path d ++ [newBackToTop].
Proof.
  apply list_eq. intros i. rewrite initializeActiveFilters_lookup.
  destruct (decide (i < length d)) as [Hlt|Hge].
  - rewrite !lookup_app_l
      by (by rewrite ?length_initializeActiveFilters).
    by rewrite initializeActiveFilters_lookup.
  - rewrite !lookup_app_r
      by (rewrite ?length_initializeActiveFilters; lia).
    rewrite length_initializeActiveFilters.
    by destruct (i - length d) as [|j].
Qed.

Lemma markItem_withAttribute path k v e :
  k ≠ "href" → k ≠ "aria-current" →
  markItem path (withAttribute k v e) = withAttribute k v (markItem path e).
Proof.
  intros Hk Hk'. unfold markItem. simpl.
  rewrite lookup_insert_ne by done.
  destruct (_ && _); [|done].
  unfold withAttribute, withClass. simpl. f_equal.
  by apply insert_insert_ne.
Qed.

Lemma initializeActiveFilters_alter path k v h d :
  k ≠ "href" → k ≠ "aria-current" →
  initializeActiveFilters path (alter (withAttribute k v) h d)
  = alter (withAttribute k v) h (initializeActiveFilters path d).
Proof.
  intros Hk Hk'. apply list_eq. intros i.
  rewrite initializeActiveFilters_lookup.
  destruct (decide (i = h)) as [->|Hne].
  - rewrite !list_lookup_alter_eq, initializeActiveFilters_lookup.
    destruct (d !! h) as [e|]; [|done]. simpl. f_equal.
    rewrite (bool_decide_ext
               (hasClass "category-btn" (withAttribute k v e)
                ∨ hasClass "source-btn" (withAttribute k v e))
               (hasClass "category-btn" e ∨ hasClass "source-btn" e))
      by done.
    case_bool_decide; [|done]. by apply markItem_withAttribute.
  - rewrite !list_lookup_alter_ne by done.
    by rewrite initializeActiveFilters_lookup.
Qed.

(** X24.  The initializers do not interfere.  The three steps of the
    [DOMContentLoaded] handler (the ARIA defaults of the panel, the
    back-to-top button appended to the body, the marking of the current
    links) commute pairwise on the store: the handler leaves the same page
    in whatever order they run.  The appended button is never marked, and
    the marking never changes which elements are the toggle and the
    panel. *)
Theorem initializers_commute path d :
  let addButton := λ d, (appendChild None newBackToTop d).1 in
  initializeActiveFilters path (initializeFilterNav d)
  = initializeFilterNav (initializeActiveFilters path d)
  ∧ addButton (initializeFilterNav d) = initializeFilterNav (addButton d)
  ∧ addButton (initializeActiveFilters path d)
    = initializeActiveFilters path (addButton d).
Proof.
  cbv zeta. cbn [appendChild fst].
  change (withParent None newBackToTop) with newBackToTop.
  split_and!.
  - pose proof (sameShape_initializeActiveFilters path d) as Hs.
    unfold initializeFilterNav at 2.
    rewrite <- (getElementById_shape ["active"] d _ "sources-content" Hs).
    rewrite <- (querySelector_shape ["active"] d _ "toggle-sources")
      by (done || solve_not_elem).
    unfold initializeFilterNav.
    destruct (getElementById d "sources-content") as [sc|]; [|done].
    destruct (querySelector d "toggle-sources") as [tb|]; [|done].
    unfold setAttribute. by rewrite !initializeActiveFilters_alter.
  - by rewrite initializeFilterNav_app.
  - by rewrite initializeActiveFilters_app.
Qed.

(** X25.  The initializer writes the two ARIA defaults and nothing else.
    Every element keeps its classes, style, text, value, markup, parent and
    every attribute other than [aria-expanded] and [aria-hidden]: the
    initializer does not hide a panel the markup displays, nor reset the
    label of the toggle.  Running it again changes nothing. *)
Theorem initializeFilterNav_frame d :
  initializeFilterNav (initializeFilterNav d) = initializeFilterNav d
  ∧ ∀ h e, d !! h = Some e →
      ∃ e', initializeFilterNav d !! h = Some e'
        ∧ classList e' = classList e
        ∧ style e' = style e
        ∧ textContent e' = textContent e
        ∧ value e' = value e
        ∧ innerHTML e' = innerHTML e
        ∧ parentNode e' = parentNode e
        ∧ ∀ k, k ≠ "aria-expanded" → k ≠ "aria-hidden" →
               attributes e' !! k = attributes e !! k.
Proof.
  split.
  - pose proof (sameShape_initializeFilterNav d) as Hs.
    unfold initializeFilterNav at 1.
    rewrite <- (getElementById_shape [] d _ "sources-content" Hs).
    rewrite <- (querySelector_shape [] d _ "toggle-sources")
      by (done || solve_not_elem).
    unfold initializeFilterNav.
    destruct (getElementById d "sources-content") as [sc|]; [|done].
    destruct (querySelector d "toggle-sources") as [tb|]; [|done].
    unfold setAttribute. apply list_eq. intros i.
    rewrite !list_lookup_alter.
    repeat case_decide; subst; destruct (d !! _) as [e|]; simpl; try done;
      f_equal; unfold withAttribute; simpl; f_equal;
      apply map_eq; intros k; rewrite !lookup_insert;
      by repeat case_decide.
  - intros h e He. unfold initializeFilterNav.
    destruct (getElementById d "sources-content") as [sc|];
      [|by exists e].
    destruct (querySelector d "toggle-sources") as [tb|];
      [|by exists e].
    unfold setAttribute. rewrite !list_lookup_alter.
    repeat case_decide; subst; rewrite He; simpl;
      (eexists; split; [done|]); split_and!; try done;
      intros k H1 H2; simpl; by rewrite ?lookup_insert_ne by done.
Qed.
